(** * DOI processing pipeline of the Kuhnian-classifier labeller

    A shallow embedding of [src/doi-processor.ts]: DOI extraction, the
    Crossref metadata client, the credit-limited KGX3 classification client,
    the badge mapper, the cache store with [saveCache] and [loadCache], and
    the [processDoi] orchestrator, followed by the properties of the
    specification that are stated about them and by further properties of
    the code.

    Conventions of the embedding.
    - JavaScript strings are byte strings ([string]) in UTF-8.
      [toLowerCase] and the case canonicalisation of the [i] flag are
      written out for ASCII letters, the only letters the patterns of
      [extractDoi] let through; [trim] and [encodeURIComponent] work on the
      bytes of the encoding.
    - Values parsed from a response body are untyped JSON trees ([Json]);
      [undefined] is [None] of [JsVal]. Converting such a value to a string
      can throw ([string_of]).
    - The module-level [cache] variable, the network, the clock and the cache
      file are threaded through a state-and-exception monad [M] over
      [World]; what the outside world answers is read from an [Env] of
      oracles. The cache file holds the JSON document [saveCache] wrote,
      or a text that is not JSON.
    - Calls to the logger are not part of the state; where the argument of a
      logging call can itself throw (a property read, a conversion to a
      string), that evaluation is kept.
    - One [processDoi] runs at a time, as the specification assumes; an
      [await] is the sequencing of the monad. *)

From Stdlib Require Import ZArith Ascii String DecimalString Sorted Lia.
From stdpp Require Import base option list gmap strings.

Local Open Scope Z_scope.

(** ** Characters and strings *)

Module Chars.

Definition code (c : ascii) : N := N_of_ascii c.

Definition between (lo hi c : ascii) : bool :=
  ((code lo <=? code c) && (code c <=? code hi))%N.

Definition is_upper (c : ascii) : bool := between "A" "Z" c.
Definition is_lower (c : ascii) : bool := between "a" "z" c.
Definition is_digit (c : ascii) : bool := between "0" "9" c.

Definition lower (c : ascii) : ascii :=
  if is_upper c then ascii_of_N (code c + 32) else c.

Definition upper (c : ascii) : ascii :=
  if is_lower c then ascii_of_N (code c - 32) else c.

Definition eqb (a b : ascii) : bool := Ascii.eqb a b.

(** The white space [String.prototype.trim] removes: the ASCII characters
    [" \t\n\v\f\r"], and, as the two or three bytes of their UTF-8
    encoding, U+00A0, U+1680, U+2000 to U+200A, U+2028, U+2029, U+202F,
    U+205F, U+3000 and U+FEFF. *)
Definition is_space (c : ascii) : bool :=
  (code c =? 32)%N || ((9 <=? code c) && (code c <=? 13))%N.

Definition is_space2 (a b : ascii) : bool :=
  ((code a =? 194) && (code b =? 160))%N.

Definition is_space3 (a b c : ascii) : bool :=
  ((code a =? 225) && (code b =? 154) && (code c =? 128)
   || (code a =? 226) && (code b =? 128)
      && ((128 <=? code c) && (code c <=? 138)
          || (code c =? 168) || (code c =? 169) || (code c =? 175))
   || (code a =? 226) && (code b =? 129) && (code c =? 159)
   || (code a =? 227) && (code b =? 128) && (code c =? 128)
   || (code a =? 239) && (code b =? 187) && (code c =? 191))%N.

Definition hex_digit (n : N) : ascii :=
  if (n <? 10)%N then ascii_of_N (48 + n) else ascii_of_N (55 + n).

End Chars.

Definition chars (s : string) : list ascii := list_ascii_of_string s.
Definition str (l : list ascii) : string := string_of_list_ascii l.

(** [String.prototype.toLowerCase]. *)
Definition toLowerCase (l : list ascii) : list ascii := map Chars.lower l.

(** [String.prototype.trim]: white space is taken off the front, then off
    the back, where the bytes of a character come last byte first. *)
Fixpoint trim_start (l : list ascii) : list ascii :=
  match l with
  | a :: l1 =>
      if Chars.is_space a then trim_start l1
      else
        match l1 with
        | b :: l2 =>
            if Chars.is_space2 a b then trim_start l2
            else
              match l2 with
              | c :: l3 =>
                  if Chars.is_space3 a b c then trim_start l3 else l
              | [] => l
              end
        | [] => l
        end
  | [] => []
  end.

Fixpoint trim_end_rev (l : list ascii) : list ascii :=
  match l with
  | c :: l1 =>
      if Chars.is_space c then trim_end_rev l1
      else
        match l1 with
        | b :: l2 =>
            if Chars.is_space2 b c then trim_end_rev l2
            else
              match l2 with
              | a :: l3 =>
                  if Chars.is_space3 a b c then trim_end_rev l3 else l
              | [] => l
              end
        | [] => l
        end
  | [] => []
  end.

Definition trim (s : string) : string :=
  str (rev (trim_end_rev (rev (trim_start (chars s))))).

(** [encodeURIComponent]: every byte outside [A-Z a-z 0-9 - _ . ! ~ * ' ( )]
    becomes [%XX]. *)
Definition uri_unreserved (c : ascii) : bool :=
  Chars.is_upper c || Chars.is_lower c || Chars.is_digit c
  || bool_decide (c ∈ chars "-_.!~*'()").

Definition encodeURIComponent (s : string) : string :=
  str (mbind (fun c =>
         if uri_unreserved c then [c]
         else ["%"%char; Chars.hex_digit (Chars.code c / 16);
               Chars.hex_digit (Chars.code c mod 16)])
       (chars s)).

(** ** JSON values as JavaScript sees them *)

#[local] Set Warnings "-register-all".

(** A number of a JSON text is a double. The pipeline only tests numbers
    for truth, prints them and passes them on, so a number with an integer
    value below 10^21 in size is carried as that integer ([JNum]), and any
    other number (a fraction such as a confidence score, or a larger
    magnitude) as the numeral JavaScript prints for it ([JReal]); such a
    number is never zero. *)
Inductive Json : Type :=
| JNull
| JBool (b : bool)
| JNum (n : Z)
| JReal (numeral : string)
| JStr (s : string)
| JArr (xs : list Json)
| JObj (fields : list (string * Json)).

(** A JavaScript value read from parsed JSON; [None] is [undefined]. *)
Definition JsVal : Type := option Json.

Definition undefined : JsVal := None.

(** ToBoolean. *)
Definition truthy (v : JsVal) : bool :=
  match v with
  | None | Some JNull => false
  | Some (JBool b) => b
  | Some (JNum n) => negb (n =? 0)
  | Some (JReal _) => true
  | Some (JStr s) => negb (String.eqb s "")
  | Some (JArr _) | Some (JObj _) => true
  end.

(** [a || b] *)
Definition js_or (a : JsVal) (b : JsVal) : JsVal := if truthy a then a else b.

(** [v === s] for a string literal [s]. *)
Definition strict_eq_str (v : JsVal) (s : string) : bool :=
  match v with Some (JStr t) => String.eqb t s | _ => false end.

(** [Array.isArray]. *)
Definition isArray (v : JsVal) : bool :=
  match v with Some (JArr _) => true | _ => false end.

(** The last binding of a key is the one [JSON.parse] keeps. *)
Fixpoint field (k : string) (fields : list (string * Json)) : JsVal :=
  match fields with
  | [] => None
  | (k', v) :: rest =>
      match field k rest with
      | Some v' => Some v'
      | None => if String.eqb k' k then Some v else None
      end
  end.

(** [v.k] for one of the named keys the source reads ([message], [title],
    [author], [link], ...), on a value that is neither [null] nor
    [undefined]: only objects carry such a key. *)
Definition prop (v : Json) (k : string) : JsVal :=
  match v with
  | JObj fields => field k fields
  | _ => None
  end.

(** [v[0]] on a value that is neither [null] nor [undefined]. *)
Definition index0 (v : Json) : JsVal :=
  match v with
  | JArr xs => head xs
  | JStr (String c _) => Some (JStr (String c EmptyString))
  | JObj fields => field "0" fields
  | _ => None
  end.

(** [v?.k] and [v?.[0]]. *)
Definition opt_prop (v : JsVal) (k : string) : JsVal :=
  match v with
  | None | Some JNull => None
  | Some j => prop j k
  end.

Definition opt_index0 (v : JsVal) : JsVal :=
  match v with
  | None | Some JNull => None
  | Some j => index0 j
  end.

Definition string_of_Z (n : Z) : string := NilZero.string_of_int (Z.to_int n).

Definition join_with (sep : string) (parts : list string) : string :=
  match parts with
  | [] => ""
  | p :: ps => fold_left (fun acc q => acc +:+ sep +:+ q) ps p
  end.

(** The string ToString gives for a JSON value, when it gives one (see
    [stringable]). *)
Fixpoint toString (v : Json) : string :=
  match v with
  | JNull => "null"
  | JBool true => "true"
  | JBool false => "false"
  | JNum n => string_of_Z n
  | JReal numeral => numeral
  | JStr s => s
  | JArr xs =>
      join_with ","
        (map (fun x => match x with JNull => "" | _ => toString x end) xs)
  | JObj _ => "[object Object]"
  end.

(** ToString throws on an object that has an own property [toString]: an
    own property of a parsed object is never a function, and [valueOf],
    own or inherited, does not give a primitive either. An array is joined
    from the strings of its elements, so it cannot be converted when one
    of them cannot. *)
Fixpoint stringable (v : Json) : bool :=
  match v with
  | JArr xs => forallb stringable xs
  | JObj fields =>
      match field "toString" fields with Some _ => false | None => true end
  | _ => true
  end.

(** ** Regular expressions

    The fragment of the regular-expression syntax the two patterns of
    [extractDoi] are written in, with the backtracking order of
    [RegExp.prototype.exec]: [run] lists the possible remainders after a
    match of [r] at the head of the input, most preferred first. *)

Module Regex.

Inductive item : Type :=
| One (c : ascii)
| Range (lo hi : ascii).

Definition charset : Type := list item.

Inductive re : Type :=
| Lit (s : string)                      (* a run of literal characters *)
| Cat (r1 r2 : re)
| Opt (r : re)                          (* (?:r)? *)
| Rep (cs : charset) (lo hi : nat)      (* [...]{lo,hi} *)
| Plus (cs : charset).                  (* [...]+ *)

(** A pattern of the shape [lead(group)]: both patterns of the source end
    in their only capture group. *)
Record pattern : Type := Pattern { lead : re; group : re; ignoreCase : bool }.

(** Canonicalize of the specification of [RegExp], for the [i] flag. *)
Definition canon (ic : bool) (c : ascii) : ascii :=
  if ic then Chars.upper c else c.

Definition item_has (ic : bool) (c : ascii) (it : item) : bool :=
  match it with
  | One c' => Chars.eqb (canon ic c') (canon ic c)
  | Range lo hi =>
      Chars.between lo hi c
      || (ic && (Chars.between lo hi (Chars.upper c)
                 || Chars.between lo hi (Chars.lower c)))
  end.

Definition mem (ic : bool) (cs : charset) (c : ascii) : bool :=
  existsb (item_has ic c) cs.

Fixpoint strip (ic : bool) (l s : list ascii) : option (list ascii) :=
  match l, s with
  | [], _ => Some s
  | a :: l', b :: s' =>
      if Chars.eqb (canon ic a) (canon ic b) then strip ic l' s' else None
  | _ :: _, [] => None
  end.

(** Greedy bounded repetition of a one-character matcher: one more
    character first, stopping here second. *)
Fixpoint greedy (p : ascii -> bool) (lo : nat) (hi : option nat)
    (s : list ascii) : list (list ascii) :=
  let stop := if decide (lo = 0%nat) then [s] else [] in
  match s with
  | c :: rest =>
      if p c && negb (bool_decide (hi = Some 0%nat))
      then greedy p (pred lo) (pred <$> hi) rest ++ stop
      else stop
  | [] => stop
  end.

Fixpoint run (ic : bool) (r : re) (s : list ascii) : list (list ascii) :=
  match r with
  | Lit l =>
      match strip ic (chars l) s with Some rest => [rest] | None => [] end
  | Cat r1 r2 => mbind (run ic r2) (run ic r1 s)
  | Opt r' => run ic r' s ++ [s]
  | Rep cs lo hi => greedy (mem ic cs) lo (Some hi) s
  | Plus cs => greedy (mem ic cs) 1 None s
  end.

(** The text of capture group 1 of the first successful alternative at the
    head of [s]. *)
Definition match_here (p : pattern) (s : list ascii) : option (list ascii) :=
  head (mbind (fun s1 =>
                 map (fun s2 => take (length s1 - length s2) s1)
                     (run (ignoreCase p) (group p) s1))
              (run (ignoreCase p) (lead p) s)).

(** [exec] on a fresh pattern ([lastIndex = 0]): the leftmost start
    position that matches wins; the result is [match[1]]. *)
Fixpoint exec (p : pattern) (s : list ascii) : option (list ascii) :=
  match match_here p s with
  | Some g => Some g
  | None =>
      match s with
      | [] => None
      | _ :: s' => exec p s'
      end
  end.

End Regex.

Import Regex.

(** [\d] and [[-._;()\/:A-Z0-9]]. *)
Definition digit_class : charset := [Range "0" "9"].

Definition suffix_class : charset :=
  [One "-"; One "."; One "_"; One ";"; One "("; One ")"; One "/"; One ":";
   Range "A" "Z"; Range "0" "9"]%char.

(** [(10\.\d{4,9}\/[-._;()\/:A-Z0-9]+)] *)
Definition doi_group : re :=
  Cat (Lit "10.") (Cat (Rep digit_class 4 9) (Cat (Lit "/") (Plus suffix_class))).

(** [(?:https?:\/\/)?(?:dx\.)?doi\.org\/?] *)
Definition resolver_lead : re :=
  Cat (Opt (Cat (Lit "http") (Cat (Opt (Lit "s")) (Lit "://"))))
      (Cat (Opt (Lit "dx."))
           (Cat (Lit "doi.org") (Opt (Lit "/")))).

Definition doiRegex : pattern :=
  {| lead := resolver_lead; group := doi_group; ignoreCase := true |}.

Definition directDoiRegex : pattern :=
  {| lead := Lit ""; group := doi_group; ignoreCase := true |}.

(** ** [extractDoi] *)

Definition extractDoi (text : string) : option string :=
  match exec doiRegex (chars text) with
  | Some m1 => Some (str (toLowerCase m1))
  | None =>
      match exec directDoiRegex (chars text) with
      | Some m1 => Some (str (toLowerCase m1))
      | None => None
      end
  end.


(** ** Badge mapper *)

(** What reading a property of an object literal can give: the string stored
    under an own key, or the member of [Object.prototype] of that name. *)
Inductive PropertyValue : Type :=
| OwnString (s : string)
| PrototypeMember (name : string).

Definition object_prototype_keys : list string :=
  ["constructor"; "__defineGetter__"; "__defineSetter__"; "hasOwnProperty";
   "__lookupGetter__"; "__lookupSetter__"; "isPrototypeOf";
   "propertyIsEnumerable"; "toString"; "valueOf"; "__proto__";
   "toLocaleString"].

Fixpoint assoc (k : string) (own : list (string * string)) : option string :=
  match own with
  | [] => None
  | (k', v) :: rest => if String.eqb k' k then Some v else assoc k rest
  end.

(** [o[k]] on an object literal with own properties [own]; [None] is
    [undefined]. *)
Definition literal_get (own : list (string * string)) (k : string)
  : option PropertyValue :=
  match assoc k own with
  | Some v => Some (OwnString v)
  | None =>
      if bool_decide (k ∈ object_prototype_keys)
      then Some (PrototypeMember k) else None
  end.

Definition property_truthy (v : option PropertyValue) : bool :=
  match v with
  | Some (OwnString s) => negb (String.eqb s "")
  | Some (PrototypeMember _) => true
  | None => false
  end.

Definition mapping : list (string * string) :=
  [("Paradigm Shift", "paradigm-shift");
   ("Model Revolution", "model-revolution");
   ("Normal Science", "normal-science");
   ("Model Crisis", "model-crisis");
   ("Model Drift", "model-drift")].

(** [mapping[classification] || null]; the result [None] is [null]. *)
Definition mapClassificationToBadge (classification : string)
  : option PropertyValue :=
  let v := literal_get mapping classification in
  if property_truthy v then v else None.

(** ** Data model *)

Record DoiMetadata : Type := {
  title : JsVal;
  pdfUrl : JsVal;
  authors : list string;
  journal : JsVal;
  year : JsVal;
}.

Module Classification.
Record t : Type := mk {
  classification : JsVal;
  confidence : JsVal;
}.
End Classification.
Abbreviation Classification := Classification.t.

Record CacheEntry : Type := {
  doi : string;
  metadata : DoiMetadata;
  classification : option Classification;
  processedAt : string;
}.

(** [entries] is an object used as a map from DOI to entry: the finite map
    of what a read [cache.entries[doi]] finds. A read at a key that
    JavaScript would answer from [Object.prototype] gives a value with
    neither a [classification] nor a [metadata] property, and so goes the
    way of a missing key. The assignment [cache.entries['__proto__'] =
    entry] installs the entry as the prototype of [entries] instead of
    adding an own property: reads at that key find it, [Object.keys] and
    [JSON.stringify], which go through own properties, do not (see
    [own_entries]). [creditsUsed] is a whole number; the increment [++] of
    the source is exact on the safe integers (see [is_safe_integer]). *)
Record CacheData : Type := {
  entries : gmap string CacheEntry;
  creditsUsed : Z;
  lastUpdated : string;
}.

Definition with_entries (f : gmap string CacheEntry -> gmap string CacheEntry)
    (c : CacheData) : CacheData :=
  {| entries := f (entries c); creditsUsed := creditsUsed c;
     lastUpdated := lastUpdated c |}.

Definition with_creditsUsed (f : Z -> Z) (c : CacheData) : CacheData :=
  {| entries := entries c; creditsUsed := f (creditsUsed c);
     lastUpdated := lastUpdated c |}.

Definition with_lastUpdated (t : string) (c : CacheData) : CacheData :=
  {| entries := entries c; creditsUsed := creditsUsed c; lastUpdated := t |}.

Definition with_classification (cl : Classification) (e : CacheEntry)
  : CacheEntry :=
  {| doi := doi e; metadata := metadata e; classification := Some cl;
     processedAt := processedAt e |}.

(** The own properties of [entries]. *)
Definition own_entries (c : CacheData) : gmap string CacheEntry :=
  delete "__proto__" (entries c).

(** [Number.isSafeInteger]: the integers on which adding one is exact in
    double arithmetic. *)
Definition is_safe_integer (n : Z) : Prop :=
  - (2 ^ 53 - 1) <= n <= 2 ^ 53 - 1.

(** ** The cache as a JSON document

    [JSON.stringify(cache, null, 2)] and what [JSON.parse] makes of it, on
    JSON values rather than on their text. A property whose value is
    [undefined] is left out; the properties of [entries] are listed in the
    order of the finite map, not in the order of insertion, which nothing
    reads. *)

Definition optional (k : string) (v : JsVal) : list (string * Json) :=
  match v with Some j => [(k, j)] | None => [] end.

Definition metadata_to_json (md : DoiMetadata) : Json :=
  JObj (optional "title" (title md) ++ optional "pdfUrl" (pdfUrl md)
        ++ [("authors", JArr (JStr <$> authors md))]
        ++ optional "journal" (journal md) ++ optional "year" (year md)).

Definition classification_to_json (cl : Classification) : Json :=
  JObj (optional "classification" (Classification.classification cl)
        ++ optional "confidence" (Classification.confidence cl)).

Definition entry_to_json (e : CacheEntry) : Json :=
  JObj ([("doi", JStr (doi e)); ("metadata", metadata_to_json (metadata e));
         ("processedAt", JStr (processedAt e))]
        ++ match classification e with
           | Some cl => [("classification", classification_to_json cl)]
           | None => []
           end).

Definition cache_to_json (c : CacheData) : Json :=
  JObj [("entries",
         JObj (prod_map id entry_to_json <$> map_to_list (own_entries c)));
        ("creditsUsed", JNum (creditsUsed c));
        ("lastUpdated", JStr (lastUpdated c))].

(** The cache a parsed document is, when it has the shape of one: the
    shape [cache_to_json] writes. *)
Definition as_string (v : JsVal) : option string :=
  match v with Some (JStr s) => Some s | _ => None end.

Definition metadata_of_json (j : Json) : option DoiMetadata :=
  match prop j "authors" with
  | Some (JArr xs) =>
      names ← mapM (fun x => as_string (Some x)) xs;
      Some {| title := prop j "title"; pdfUrl := prop j "pdfUrl";
              authors := names; journal := prop j "journal";
              year := prop j "year" |}
  | _ => None
  end.

Definition classification_of_json (j : Json) : option Classification :=
  match j with
  | JObj _ => Some (Classification.mk (prop j "classification")
                                      (prop j "confidence"))
  | _ => None
  end.

Definition entry_of_json (j : Json) : option CacheEntry :=
  d ← as_string (prop j "doi");
  md ← prop j "metadata" ≫= metadata_of_json;
  t ← as_string (prop j "processedAt");
  cl ← match prop j "classification" with
       | Some c => Some <$> classification_of_json c
       | None => Some None
       end;
  Some {| doi := d; metadata := md; classification := cl; processedAt := t |}.

(** Of two properties of the same name in a text, [JSON.parse] keeps the
    later one. *)
Definition entries_of_json (fields : list (string * Json))
  : option (gmap string CacheEntry) :=
  let parsed : gmap string (option CacheEntry) :=
    entry_of_json <$> list_to_map (reverse fields) in
  if decide (map_Forall (fun _ e => is_Some e) parsed)
  then Some (omap id parsed) else None.

Definition cache_of_json (doc : Json) : option CacheData :=
  match prop doc "entries", prop doc "creditsUsed", prop doc "lastUpdated" with
  | Some (JObj fields), Some (JNum n), Some (JStr t) =>
      es ← entries_of_json fields;
      Some {| entries := es; creditsUsed := n; lastUpdated := t |}
  | _, _, _ => None
  end.

(** ** Configuration and the outside world *)

(** The constants imported from [./config.js]. *)
Record Config : Type := {
  CACHE_FILE : string;
  CREDIT_LIMIT : Z;                 (* a whole number of credits *)
  CROSSREF_EMAIL : string;
  KGX3_API_KEY : option string;     (* [None]: not set *)
  KGX3_API_URL : string;
}.

Record Request : Type := {
  url : string;
  method : string;
  headers : list (string * string);
  body : option Json;               (* the value [JSON.stringify] is applied to *)
  timeout : Z;                      (* [AbortSignal.timeout], milliseconds *)
}.

Record Response : Type := {
  ok : bool;
  status : Z;
  statusText : string;
  json : option Json;               (* [None]: the body is not JSON *)
}.

Inductive FetchOutcome : Type :=
| Rejected (reason : string)        (* connection failure or timeout *)
| Resolved (r : Response).

(** What has happened so far, newest first. [Classifying] marks an entry
    into [classifyPaper]. *)
Inductive Event : Type :=
| Fetched (req : Request)
| Wrote (path : string) (done : bool)
| Classifying (title pdfUrl : JsVal).

(** The answers of the network, the clock and the file system, each given
    the history so far: [writable] says whether a write goes through,
    [torn] whether a write that fails has already truncated the file. *)
Record Env : Type := {
  network : list Event -> Request -> FetchOutcome;
  clock : list Event -> string;
  writable : list Event -> bool;
  torn : list Event -> bool;
}.

(** What is stored at [CACHE_FILE]: the text of a JSON value, or a text
    that is none ([fs.writeFile] opens the file for writing and truncates
    it, so a write that fails later leaves it empty or cut short). *)
Inductive Stored : Type :=
| Document (doc : Json)
| Garbled.

Record World : Type := {
  cache : CacheData;                (* the module variable [cache] *)
  file : option Stored;             (* [None]: there is no file *)
  history : list Event;
}.

Definition with_cache (f : CacheData -> CacheData) (w : World) : World :=
  {| cache := f (cache w); file := file w; history := history w |}.

Definition record_event (e : Event) (w : World) : World :=
  {| cache := cache w; file := file w; history := e :: history w |}.

Definition is_fetch (e : Event) : bool :=
  match e with Fetched _ => true | _ => false end.

Definition is_classifying (e : Event) : bool :=
  match e with Classifying _ _ => true | _ => false end.

(** The network calls and the classification-client invocations of a
    history. *)
Definition network_calls (w : World) : list Event :=
  filter (fun e => is_fetch e = true) (history w).

Definition classifier_calls (w : World) : list Event :=
  filter (fun e => is_classifying e = true) (history w).

(** ** Exceptions and the monad of the pipeline *)

Inductive Exn : Type :=
| CreditLimitReached (limit : Z)
| ApiKeyNotConfigured
| CrossrefStatus (status : Z) (statusText : string)
| NoWorkData
| Kgx3Status (status : Z) (statusText : string)
| FetchFailed (reason : string)
| JsonSyntaxError
| TypeError (what : string)
| WriteFailed.

Inductive Outcome (A : Type) : Type :=
| Returned (a : A)
| Thrown (e : Exn).
Arguments Returned {A} a.
Arguments Thrown {A} e.

#[global] Instance Outcome_ret : MRet Outcome := fun A a => Returned a.
#[global] Instance Outcome_bind : MBind Outcome := fun A B f m =>
  match m with
  | Returned a => f a
  | Thrown e => Thrown e
  end.

Definition M (A : Type) : Type := World -> Outcome A * World.

#[global] Instance M_ret : MRet M := fun A a w => (Returned a, w).
#[global] Instance M_bind : MBind M := fun A B f m w =>
  match m w with
  | (Returned a, w') => f a w'
  | (Thrown e, w') => (Thrown e, w')
  end.

Definition throw {A : Type} (e : Exn) : M A := fun w => (Thrown e, w).

Definition lift {A : Type} (o : Outcome A) : M A := fun w => (o, w).

(** [try { body } catch (error) { handler error }] *)
Definition try_catch {A : Type} (body : M A) (handler : Exn -> M A) : M A :=
  fun w =>
    match body w with
    | (Returned a, w') => (Returned a, w')
    | (Thrown e, w') => handler e w'
    end.

Definition get_cache : M CacheData := fun w => (Returned (cache w), w).

Definition modify_cache (f : CacheData -> CacheData) : M unit :=
  fun w => (Returned tt, with_cache f w).

Definition note (e : Event) : M unit := fun w => (Returned tt, record_event e w).

(** [v.k]: a TypeError on [null] and [undefined]. *)
Definition member (v : JsVal) (k : string) : Outcome JsVal :=
  match v with
  | None | Some JNull => Thrown (TypeError k)
  | Some j => Returned (prop j k)
  end.

(** [`${v}`], and [o[v]] for a key [v]: ToString, with a TypeError where
    there is no string to give. *)
Definition string_of (v : JsVal) : Outcome string :=
  match v with
  | Some j =>
      if stringable j then Returned (toString j)
      else Thrown (TypeError "Cannot convert object to primitive value")
  | None => Returned "undefined"
  end.

(** ** The pipeline *)

Section Pipeline.

Variable cfg : Config.
Variable env : Env.

(** [await fetch(url, init)] *)
Definition fetch (req : Request) : M Response :=
  fun w =>
    let w' := record_event (Fetched req) w in
    match network env (history w) req with
    | Rejected reason => (Thrown (FetchFailed reason), w')
    | Resolved r => (Returned r, w')
    end.

(** [await response.json()] *)
Definition response_json (r : Response) : M Json :=
  match json r with
  | Some j => mret j
  | None => throw JsonSyntaxError
  end.

(** [new Date().toISOString()] *)
Definition now : M string := fun w => (Returned (clock env (history w)), w).

(** [await fs.writeFile(path, JSON.stringify(cache, null, 2), 'utf8')] *)
Definition writeFile (path : string) (c : CacheData) : M unit :=
  fun w =>
    if writable env (history w)
    then (Returned tt,
          {| cache := cache w; file := Some (Document (cache_to_json c));
             history := Wrote path true :: history w |})
    else (Thrown WriteFailed,
          {| cache := cache w;
             file := if torn env (history w) then Some Garbled else file w;
             history := Wrote path false :: history w |}).

(** *** Cache store *)

Definition saveCache : M unit :=
  try_catch
    (t ← now;
     modify_cache (with_lastUpdated t);;
     c ← get_cache;
     writeFile (CACHE_FILE cfg) c)
    (fun _ => mret tt).

Record CacheStats : Type := {
  totalEntries : nat;
  stats_creditsUsed : Z;
  creditLimit : Z;
}.

Definition getCacheStats : M CacheStats :=
  c ← get_cache;
  mret {| totalEntries := size (own_entries c);
          stats_creditsUsed := creditsUsed c;
          creditLimit := CREDIT_LIMIT cfg |}.

(** *** Metadata client *)

(** [Array.isArray(work.title) ? work.title[0] : work.title || ''] *)
Definition work_title (work : Json) : JsVal :=
  if isArray (prop work "title")
  then opt_index0 (prop work "title")
  else js_or (prop work "title") (Some (JStr "")).

(** [`${author.given || ''} ${author.family || ''}`.trim()] *)
Definition author_name (author : Json) : Outcome string :=
  given ← member (Some author) "given";
  given ← string_of (js_or given (Some (JStr "")));
  family ← member (Some author) "family";
  family ← string_of (js_or family (Some (JStr "")));
  mret (trim (given +:+ " " +:+ family)).

(** [Array.prototype.map] with a callback that can throw. *)
Fixpoint map_throwing {A B : Type} (f : A -> Outcome B) (xs : list A)
  : Outcome (list B) :=
  match xs with
  | [] => mret []
  | x :: rest =>
      y ← f x;
      ys ← map_throwing f rest;
      mret (y :: ys)
  end.

(** [work.author?.map(...) || []] *)
Definition work_authors (work : Json) : Outcome (list string) :=
  match prop work "author" with
  | None | Some JNull => mret []
  | Some (JArr xs) => map_throwing author_name xs
  | Some _ => Thrown (TypeError "work.author?.map is not a function")
  end.

(** [work.link.find(link => link['content-type'] === 'application/pdf')] *)
Fixpoint find_pdf_link (links : list Json) : Outcome JsVal :=
  match links with
  | [] => mret undefined
  | link :: rest =>
      ct ← member (Some link) "content-type";
      if strict_eq_str ct "application/pdf"
      then mret (Some link)
      else find_pdf_link rest
  end.

Definition work_pdfUrl (work : Json) : Outcome JsVal :=
  match prop work "link" with
  | Some (JArr links) =>
      pdfLink ← find_pdf_link links;
      if truthy pdfLink then member pdfLink "URL" else mret undefined
  | _ => mret undefined
  end.

(** [work['container-title']?.[0] || ''] *)
Definition work_journal (work : Json) : JsVal :=
  js_or (opt_index0 (prop work "container-title")) (Some (JStr "")).

(** [work.published?.['date-parts']?.[0]?.[0] || undefined] *)
Definition work_year (work : Json) : JsVal :=
  js_or (opt_index0 (opt_index0 (opt_prop (prop work "published") "date-parts")))
        undefined.

Definition crossref_request (doi : string) : Request :=
  {| url := "https://api.crossref.org/works/" +:+ encodeURIComponent doi;
     method := "GET";
     headers :=
       [("User-Agent",
         "Bluesky DOI Labeler (mailto:" +:+ CROSSREF_EMAIL cfg +:+ ")");
        ("Accept", "application/json")];
     body := None;
     timeout := 10000 |}.

Definition fetchCrossrefMetadata (doi : string) : M DoiMetadata :=
  try_catch
    (response ← fetch (crossref_request doi);
     if negb (ok response)
     then throw (CrossrefStatus (status response) (statusText response))
     else
       data ← response_json response;
       work ← lift (member (Some data) "message");
       match work with
       | Some work' =>
           if negb (truthy work)
           then throw NoWorkData
           else
             let title := work_title work' in
             authors ← lift (work_authors work');
             pdfUrl ← lift (work_pdfUrl work');
             let journal := work_journal work' in
             let year := work_year work' in
             (* the logging call prints the title *)
             _ ← lift (string_of title);
             mret {| title := title; pdfUrl := pdfUrl; authors := authors;
                     journal := journal; year := year |}
       | None => throw NoWorkData
       end)
    (fun error => throw error).

(** *** Classification client *)

Definition api_key_set : option string :=
  match KGX3_API_KEY cfg with
  | Some k => if String.eqb k "" then None else Some k
  | None => None
  end.

(** [{ title, pdf_url: pdfUrl || '', email: CROSSREF_EMAIL }] as
    [JSON.stringify] writes it: an [undefined] title is left out. *)
Definition payload (title pdfUrl : JsVal) : Json :=
  JObj (match title with Some t => [("title", t)] | None => [] end
        ++ match js_or pdfUrl (Some (JStr "")) with
           | Some p => [("pdf_url", p)]
           | None => []
           end
        ++ [("email", JStr (CROSSREF_EMAIL cfg))]).

Definition kgx3_request (key : string) (title pdfUrl : JsVal) : Request :=
  {| url := KGX3_API_URL cfg;
     method := "POST";
     headers := [("Content-Type", "application/json"); ("X-API-Key", key)];
     body := Some (payload title pdfUrl);
     timeout := 30000 |}.

Definition classifyPaper (title pdfUrl : JsVal) : M Classification :=
  note (Classifying title pdfUrl);;
  c ← get_cache;
  if creditsUsed c >=? CREDIT_LIMIT cfg
  then throw (CreditLimitReached (CREDIT_LIMIT cfg))
  else
    match api_key_set with
    | None => throw ApiKeyNotConfigured
    | Some key =>
        try_catch
          ((* the logging call prints the title *)
           _ ← lift (string_of title);
           response ← fetch (kgx3_request key title pdfUrl);
           if negb (ok response)
           then throw (Kgx3Status (status response) (statusText response))
           else
             result ← response_json response;
             modify_cache (with_creditsUsed (fun n => n + 1));;
             saveCache;;
             (* the logging call reads and prints result.classification *)
             label ← lift (member (Some result) "classification");
             _ ← lift (string_of label);
             classification ← lift (member (Some result) "classification");
             confidence ← lift (member (Some result) "confidence");
             mret (Classification.mk classification confidence))
          (fun error =>
             (* the logging call of the handler prints the title again *)
             _ ← lift (string_of title);
             throw error)
    end.

(** *** Orchestrator *)

(** [cache.entries[doi].classification = classification] *)
Definition attach_classification (doi : string) (cl : Classification)
  : M unit :=
  c ← get_cache;
  match entries c !! doi with
  | Some _ => modify_cache (with_entries (alter (with_classification cl) doi))
  | None => throw (TypeError "cache.entries[doi]")
  end.

(** [mapClassificationToBadge(classification.classification)] as
    [processDoi] comes to return it: the label is a property key, so it is
    converted to a string; where it cannot be, the lookup (and before it
    the logging call of the memoised path) throws inside the [try] block,
    nothing else happens and the answer is [null]. *)
Definition badge_of (cl : Classification) : option PropertyValue :=
  match string_of (Classification.classification cl) with
  | Returned label => mapClassificationToBadge label
  | Thrown _ => None
  end.

(** The statements inside the [try] block of [processDoi]. *)
Definition processDoi_body (doi : string) : M (option PropertyValue) :=
  c ← get_cache;
  match entries c !! doi ≫= classification with
  | Some cl => mret (badge_of cl)
  | None =>
      metadata ←
        match entries c !! doi with
        | Some entry => mret (metadata entry)
        | None =>
            metadata ← fetchCrossrefMetadata doi;
            t ← now;
            modify_cache
              (with_entries
                 (insert doi {| doi := doi; metadata := metadata;
                                classification := None; processedAt := t |}));;
            saveCache;;
            mret metadata
        end;
      if negb (truthy (title metadata)) then mret None
      else if negb (truthy (pdfUrl metadata)) then mret None
      else
        cl ← classifyPaper (title metadata) (pdfUrl metadata);
        attach_classification doi cl;;
        saveCache;;
        mret (badge_of cl)
  end.

Definition processDoi (doi : string) : M (option PropertyValue) :=
  try_catch (processDoi_body doi) (fun _ => mret None).

End Pipeline.

(** ** Sequences of pipeline operations *)

Inductive Op : Type :=
| ProcessDoi (doi : string)
| ClassifyPaper (title pdfUrl : JsVal)
| SaveCache
| GetCacheStats.

(** The world an operation leaves behind, whatever it returns or throws. *)
Definition step (cfg : Config) (env : Env) (op : Op) (w : World) : World :=
  match op with
  | ProcessDoi doi => (processDoi cfg env doi w).2
  | ClassifyPaper title pdfUrl => (classifyPaper cfg env title pdfUrl w).2
  | SaveCache => (saveCache cfg env w).2
  | GetCacheStats => (getCacheStats cfg w).2
  end.

(** The worlds after each operation of a sequence, in order. *)
Fixpoint states (cfg : Config) (env : Env) (ops : list Op) (w : World)
  : list World :=
  match ops with
  | [] => []
  | op :: rest => step cfg env op w :: states cfg env rest (step cfg env op w)
  end.

Definition run_ops (cfg : Config) (env : Env) (ops : list Op) (w : World)
  : World :=
  fold_left (fun w op => step cfg env op w) ops w.

Definition credits (w : World) : Z := creditsUsed (cache w).

(** [{ entries: {}, creditsUsed: 0, lastUpdated: ... }] *)
Definition empty_cache (t : string) : CacheData :=
  {| entries := ∅; creditsUsed := 0; lastUpdated := t |}.

(** ** Vocabulary of the specification *)

(** What [saveCache] does to the world: it stamps [lastUpdated] and, when
    the write goes through, replaces the stored document. *)
Definition saved (cfg : Config) (env : Env) (w : World) : World :=
  let c := with_lastUpdated (clock env (history w)) (cache w) in
  if writable env (history w)
  then {| cache := c; file := Some (Document (cache_to_json c));
          history := Wrote (CACHE_FILE cfg) true :: history w |}
  else {| cache := c;
          file := if torn env (history w) then Some Garbled else file w;
          history := Wrote (CACHE_FILE cfg) false :: history w |}.

(** The world once [classifyPaper] has sent its request, and once it has
    counted and persisted the credit. *)
Definition asked (cfg : Config) (key : string) (title pdfUrl : JsVal)
    (w : World) : World :=
  record_event (Fetched (kgx3_request cfg key title pdfUrl))
               (record_event (Classifying title pdfUrl) w).

Definition charged (cfg : Config) (env : Env) (w : World) : World :=
  saved cfg env (with_cache (with_creditsUsed (fun n => n + 1)) w).

(** The failures of [classifyPaper] that happen before a success response
    has been read: exhausted credit, missing key, transport failure or
    timeout, non-success status, unreadable body. *)
Definition before_response (e : Exn) : bool :=
  match e with
  | CreditLimitReached _ | ApiKeyNotConfigured | Kgx3Status _ _
  | FetchFailed _ | JsonSyntaxError => true
  | _ => false
  end.

(** The cache holds everything [processDoi] needs to answer for [doi]
    without the network: a classification, or metadata that rules
    classification out (no title or no PDF URL). *)
Definition settled (c : CacheData) (doi : string) : Prop :=
  ∃ e, entries c !! doi = Some e
       ∧ (is_Some (classification e)
          ∨ truthy (title (metadata e)) = false
          ∨ truthy (pdfUrl (metadata e)) = false).

(** Step 2 of [processDoi] on its own: the metadata of the cached entry
    when there is one, else the registry's answer, cached and persisted. *)
Definition resolve_metadata (cfg : Config) (env : Env) (doi : string)
    (w : World) : Outcome DoiMetadata * World :=
  match entries (cache w) !! doi with
  | Some entry => (Returned (metadata entry), w)
  | None =>
      match fetchCrossrefMetadata cfg env doi w with
      | (Returned md, w1) =>
          (Returned md,
           saved cfg env
             (with_cache
                (with_entries
                   (insert doi {| doi := doi; metadata := md;
                                  classification := None;
                                  processedAt := clock env (history w1) |}))
                w1))
      | (Thrown e, w1) => (Thrown e, w1)
      end
  end.

(** [processDoi] gets past its memoised path for [doi] and resolves the
    metadata [md] (cached or freshly fetched), reaching the world [w1]. *)
Definition resolves (cfg : Config) (env : Env) (doi : string) (w : World)
    (md : DoiMetadata) (w1 : World) : Prop :=
  entries (cache w) !! doi ≫= classification = None
  ∧ resolve_metadata cfg env doi w = (Returned md, w1).

(** The metadata of [doi] as [processDoi] would obtain it: the cached
    entry's when there is one, else what the registry returns now. *)
Definition metadata_for (cfg : Config) (env : Env) (doi : string) (w : World)
  : option DoiMetadata :=
  match entries (cache w) !! doi with
  | Some entry => Some (metadata entry)
  | None =>
      match (fetchCrossrefMetadata cfg env doi w).1 with
      | Returned md => Some md
      | Thrown _ => None
      end
  end.

(** Every classified entry has a title and a PDF URL: the entries
    [processDoi] classifies are of this kind. *)
Definition classified_with_pdf (c : CacheData) : Prop :=
  ∀ k e, entries c !! k = Some e -> is_Some (classification e) ->
         truthy (title (metadata e)) = true
         ∧ truthy (pdfUrl (metadata e)) = true.

(** What [processDoi] answers from a settled cache. *)
Definition cached_answer (c : CacheData) (doi : string)
  : option PropertyValue :=
  match entries c !! doi ≫= classification with
  | Some cl => badge_of cl
  | None => None
  end.

(** A key that equals its own lower-case form. *)
Definition is_lowercase (s : string) : Prop := str (toLowerCase (chars s)) = s.

(** Equality up to the case of ASCII letters. *)
Definition ci_eq (a b : list ascii) : Prop :=
  map Chars.upper a = map Chars.upper b.

(** A character of a DOI suffix: [-._;()/:], a letter of either case or a
    digit. *)
Definition doi_suffix_char (c : ascii) : bool :=
  Chars.is_upper c || Chars.is_lower c || Chars.is_digit c
  || bool_decide (c ∈ chars "-._;()/:").

(** [10.NNNN/suffix] with four to nine digits and a non-empty suffix. *)
Definition doi_shape (d : list ascii) : Prop :=
  ∃ reg suf,
    d = chars "10." ++ reg ++ chars "/" ++ suf
    ∧ (4 ≤ length reg ≤ 9)%nat
    ∧ Forall (fun c => Chars.is_digit c = true) reg
    ∧ suf ≠ []
    ∧ Forall (fun c => doi_suffix_char c = true) suf.

(** The DOI stops where the text after it starts. *)
Definition doi_ends (rest : list ascii) : Prop :=
  match rest with
  | [] => True
  | c :: _ => doi_suffix_char c = false
  end.

(** The lead of a resolver URL: an optional [http://] or [https://], an
    optional [dx.], then [doi.org] and an optional slash, in any case. *)
Definition resolver_prefix (l : list ascii) : Prop :=
  ∃ scheme dx host slash,
    l = scheme ++ dx ++ host ++ slash
    ∧ (scheme = [] ∨ ci_eq scheme (chars "http://")
       ∨ ci_eq scheme (chars "https://"))
    ∧ (dx = [] ∨ ci_eq dx (chars "dx."))
    ∧ ci_eq host (chars "doi.org")
    ∧ (slash = [] ∨ ci_eq slash (chars "/")).

(** A resolver-style DOI URL starts at offset [i] of [text] and carries the
    DOI [d]. *)
Definition UrlDoiAt (text : list ascii) (i : nat) (d : list ascii) : Prop :=
  (i ≤ length text)%nat
  ∧ ∃ l rest, drop i text = l ++ d ++ rest
              ∧ resolver_prefix l ∧ doi_shape d ∧ doi_ends rest.

(** A bare DOI [d] starts at offset [i] of [text]. *)
Definition BareDoiAt (text : list ascii) (i : nat) (d : list ascii) : Prop :=
  (i ≤ length text)%nat
  ∧ ∃ rest, drop i text = d ++ rest ∧ doi_shape d ∧ doi_ends rest.

(** The resolver lead as the specification writes it,
    [[https://][dx.]doi.org/]: the scheme is [https], the slash is part of
    the lead. To be compared with [resolver_lead], the one of the source. *)
Definition spec_resolver_lead : re :=
  Cat (Opt (Lit "https://")) (Cat (Opt (Lit "dx.")) (Lit "doi.org/")).

Definition specDoiRegex : pattern :=
  {| lead := spec_resolver_lead; group := doi_group; ignoreCase := true |}.

(** The captures of a pattern at every offset of a text, left to right. *)
Definition captures (p : pattern) (text : list ascii) : list (list ascii) :=
  omap (fun j => match_here p (drop j text)) (seq 0 (S (length text))).

(** The words a pattern fragment matches. *)
Fixpoint lang (ic : bool) (r : re) (w : list ascii) : Prop :=
  match r with
  | Lit l => map (canon ic) w = map (canon ic) (chars l)
  | Cat r1 r2 => ∃ u v, w = u ++ v ∧ lang ic r1 u ∧ lang ic r2 v
  | Opt r' => w = [] ∨ lang ic r' w
  | Rep cs lo hi =>
      Forall (fun c => mem ic cs c = true) w ∧ (lo ≤ length w ≤ hi)%nat
  | Plus cs => Forall (fun c => mem ic cs c = true) w ∧ (1 ≤ length w)%nat
  end.

(** ** Scenarios *)

Module Scenario.

Definition cfg : Config :=
  {| CACHE_FILE := "cache.json";
     CREDIT_LIMIT := 2;
     CROSSREF_EMAIL := "labeller@example.org";
     KGX3_API_KEY := Some "secret";
     KGX3_API_URL := "https://kgx3.example.org/classify" |}.

Definition cfg_no_key : Config :=
  {| CACHE_FILE := "cache.json";
     CREDIT_LIMIT := 2;
     CROSSREF_EMAIL := "labeller@example.org";
     KGX3_API_KEY := None;
     KGX3_API_URL := "https://kgx3.example.org/classify" |}.

(** The n-th call of [fetch] gets the n-th answer of the script; later
    calls find the network down. The clock stands still and writes
    succeed. *)
Definition scripted (answers : list FetchOutcome) : Env :=
  {| network := fun h _ =>
       default (Rejected "network down")
               (answers !! length (filter (fun e => is_fetch e = true) h));
     clock := fun _ => "2024-05-01T12:00:00.000Z";
     writable := fun _ => true;
     torn := fun _ => false |}.

Definition ok_json (j : Json) : FetchOutcome :=
  Resolved {| ok := true; status := 200; statusText := "OK"; json := Some j |}.

Definition server_error : FetchOutcome :=
  Resolved {| ok := false; status := 500;
              statusText := "Internal Server Error"; json := None |}.

Definition work_with_pdf : Json :=
  JObj [("message",
         JObj [("title", JArr [JStr "On the Structure of Revolutions"]);
               ("link",
                JArr [JObj [("content-type", JStr "application/pdf");
                            ("URL", JStr "https://example.org/paper.pdf")]])])].

Definition work_without_pdf : Json :=
  JObj [("message", JObj [("title", JArr [JStr "A Paper Behind a Paywall"])])].

Definition work_empty_title : Json :=
  JObj [("message", JObj [("title", JArr [])])].

Definition normal_science : Json :=
  JObj [("classification", JStr "Normal Science"); ("confidence", JNum 1)].

Definition fresh : World :=
  {| cache := empty_cache "2024-05-01T00:00:00.000Z";
     file := None; history := [] |}.

Definition spent (n : Z) : World :=
  {| cache := with_creditsUsed (fun _ => n) (empty_cache "2024-05-01T00:00:00.000Z");
     file := None; history := [] |}.

Definition sample_metadata (pdf : JsVal) : DoiMetadata :=
  {| title := Some (JStr "On the Structure of Revolutions"); pdfUrl := pdf;
     authors := []; journal := Some (JStr ""); year := undefined |}.

Definition cached (doi : string) (md : DoiMetadata)
    (cl : option Classification) : World :=
  {| cache := with_entries
                (insert doi {| doi := doi; metadata := md;
                               classification := cl;
                               processedAt := "2024-05-01T00:00:00.000Z" |})
                (empty_cache "2024-05-01T00:00:00.000Z");
     file := None; history := [] |}.

End Scenario.

(** ** Loading the cache *)

(** How [fs.readFile] can fail: the file is not there ([error.code] is
    ['ENOENT']), or anything else. *)
Inductive ReadError : Type :=
| ENOENT
| ReadFailure.

(** [await fs.readFile(CACHE_FILE, 'utf8')]: [readable] says, from what has
    happened so far, whether an existing file can be read. *)
Definition readFile (readable : list Event -> bool) (w : World)
  : ReadError + Stored :=
  match file w with
  | None => inl ENOENT
  | Some data => if readable (history w) then inr data else inl ReadFailure
  end.

(** [loadCache]: the parsed document becomes the cache; a missing file
    makes it write the cache it has; any other failure, a text that is not
    JSON among them, is logged and nothing changes. The module variable is
    typed here, so only a document of the shape [saveCache] writes is
    followed into it; for any other JSON document the model leaves the
    cache alone, where the source goes on with a value that is no cache. *)
Definition loadCache (cfg : Config) (env : Env)
    (readable : list Event -> bool) : M unit :=
  fun w =>
    match readFile readable w with
    | inr (Document doc) =>
        match cache_of_json doc with
        | Some c => (Returned tt, with_cache (fun _ => c) w)
        | None => (Returned tt, w)
        end
    | inr Garbled => (Returned tt, w)
    | inl ENOENT => saveCache cfg env w
    | inl ReadFailure => (Returned tt, w)
    end.

(** ** Further vocabulary *)

(** An entry as it was, up to a classification it may have gained. *)
Definition entry_kept (e e' : CacheEntry) : Prop :=
  doi e' = doi e ∧ metadata e' = metadata e ∧ processedAt e' = processedAt e
  ∧ ∀ cl, classification e = Some cl -> classification e' = Some cl.

(** Every entry is stored under its own [doi]. *)
Definition keyed_by_doi (c : CacheData) : Prop :=
  ∀ k e, entries c !! k = Some e -> doi e = k.

(** The stored document is the one [JSON.stringify] makes of the cache in
    memory. *)
Definition in_sync (w : World) : Prop :=
  file w = Some (Document (cache_to_json (cache w))).

(** The cache a process would get by loading the stored document. *)
Definition stored_cache (w : World) : option CacheData :=
  match file w with
  | Some (Document doc) => cache_of_json doc
  | _ => None
  end.

Definition fetch_count (w : World) : nat := length (network_calls w).

Definition is_processDoi (op : Op) : bool :=
  match op with ProcessDoi _ => true | _ => false end.

(** The entries that carry a classification. *)
Definition classified (c : CacheData) : gmap string CacheEntry :=
  filter (fun kv => is_Some (classification kv.2)) (entries c).

(** An entry of [work.link] that can be read and does not declare a PDF. *)
Definition not_pdf_link (l : Json) : Prop :=
  l ≠ JNull
  ∧ strict_eq_str (prop l "content-type") "application/pdf" = false.

(** No white space at either end of a string. *)
Definition trimmed (s : string) : Prop :=
  head (chars s) ≫= (fun c => if Chars.is_space c then Some c else None) = None
  ∧ last (chars s) ≫= (fun c => if Chars.is_space c then Some c else None)
    = None.

(** * Properties *)

(** ** DOI extraction *)

(** *** Characters *)

Ltac each_char c :=
  destruct c as [[] [] [] [] [] [] [] []]; vm_compute; try reflexivity;
  try discriminate; try tauto.

Lemma mem_digit_class c : mem true digit_class c = Chars.is_digit c.
Proof. each_char c. Qed.

Lemma mem_suffix_class c : mem true suffix_class c = doi_suffix_char c.
Proof. each_char c. Qed.

(** A character that is not a letter is matched by itself only. *)
Lemma upper_fixed c x :
  Chars.upper c = x -> Chars.is_upper x = false -> c = x.
Proof. intros <-. each_char c. Qed.

(** *** Lists *)

Lemma head_bind_unique {A B : Type} (f : A -> list B) (l : list A) (x : A) :
  x ∈ l -> (∀ y, y ∈ l -> f y ≠ [] -> y = x) ->
  head (l ≫= f) = head (f x).
Proof.
  induction l as [|y l IH]; intros Hx Huniq.
  - inversion Hx.
  - cbn. rewrite head_app.
    destruct (f y) as [|b bs] eqn:Hfy.
    + cbn. apply elem_of_cons in Hx as [-> | Hx].
      * rewrite Hfy. cbn.
        destruct (head (l ≫= f)) eqn:Hh; [|reflexivity].
        apply head_Some_elem_of, list_elem_of_bind in Hh as (z & Hz & Hzl).
        assert (z = y) as -> by
          (apply Huniq; [right; exact Hzl | intros E; rewrite E in Hz;
                                            inversion Hz]).
        rewrite Hfy in Hz. inversion Hz.
      * apply IH; [exact Hx|]. intros z Hz. apply Huniq. right. exact Hz.
    + cbn. assert (y = x) as -> by
        (apply Huniq; [left | rewrite Hfy; discriminate]).
      rewrite Hfy. reflexivity.
Qed.

Lemma head_bind_Some {A B : Type} (f : A -> list B) (l : list A) (b : B) :
  head (l ≫= f) = Some b -> ∃ x, x ∈ l ∧ head (f x) = Some b.
Proof.
  induction l as [|y l IH]; [discriminate|].
  cbn. rewrite head_app. destruct (head (f y)) eqn:Hy.
  - intros [= <-]. exists y. split; [left | exact Hy].
  - intros Hh. destruct (IH Hh) as (x & Hx & Hfx).
    exists x. split; [right; exact Hx | exact Hfx].
Qed.

(** Two splits of a list at a separator, neither left part containing a
    separator, are the same split. *)
Lemma app_inv_sep {A : Type} (P : A -> Prop) (l l' : list A) c c' t t' :
  Forall P l -> Forall P l' -> ¬ P c -> ¬ P c' ->
  l ++ c :: t = l' ++ c' :: t' -> l = l' ∧ c :: t = c' :: t'.
Proof.
  intros Hl. revert l'. induction Hl as [|a l Ha Hl IH]; intros l' Hl' Hc Hc' E.
  - destruct Hl' as [|a' l' Ha' Hl']; [auto|].
    cbn in E. injection E as -> _. contradiction.
  - destruct Hl' as [|a' l' Ha' Hl'].
    + cbn in E. injection E as -> _. contradiction.
    + cbn in E. injection E as -> E.
      destruct (IH l' Hl' Hc Hc' E) as [-> Ht]. auto.
Qed.

(** *** The matcher *)

Lemma strip_spec ic l s rest :
  strip ic l s = Some rest
  ↔ ∃ w, s = w ++ rest ∧ map (canon ic) w = map (canon ic) l.
Proof.
  revert s. induction l as [|a l IH]; intros s; cbn.
  - split.
    + intros [= ->]. exists []. auto.
    + intros (w & -> & Hw). destruct w; [reflexivity | discriminate].
  - destruct s as [|b s].
    + split; [discriminate|]. intros (w & Hs & Hw).
      destruct w; discriminate.
    + unfold Chars.eqb. destruct (Ascii.eqb_spec (canon ic a) (canon ic b))
        as [Hab|Hab].
      * rewrite IH. split.
        -- intros (w & -> & Hw). exists (b :: w). cbn. split; congruence.
        -- intros (w & Hs & Hw). destruct w as [|b' w]; [discriminate|].
           cbn in Hs, Hw. injection Hs as <- ->. injection Hw as _ Hw.
           exists w. auto.
      * split; [discriminate|]. intros (w & Hs & Hw).
        destruct w as [|b' w]; [discriminate|].
        cbn in Hs, Hw. injection Hs as <- ->. injection Hw as Hb _.
        congruence.
Qed.

Lemma strip_same ic l s : strip ic l (l ++ s) = Some s.
Proof.
  induction l as [|a l IH]; [reflexivity|].
  cbn. unfold Chars.eqb. rewrite Ascii.eqb_refl. exact IH.
Qed.

Lemma greedy_elem p lo hi s rest :
  rest ∈ greedy p lo hi s
  ↔ ∃ w, s = w ++ rest ∧ Forall (fun c => p c = true) w
         ∧ (lo ≤ length w)%nat ∧ ∀ h, hi = Some h -> (length w ≤ h)%nat.
Proof.
  revert lo hi. induction s as [|c s IH]; intros lo hi.
  - cbn. case_decide as Hlo.
    + rewrite list_elem_of_singleton. split.
      * intros ->. exists []. repeat split; [constructor | lia | cbn; lia].
      * intros (w & Hs & _). symmetry in Hs.
        apply app_eq_nil in Hs as [_ ->]. reflexivity.
    + split; [intros H; inversion H|].
      intros (w & Hs & _ & Hlen & _). symmetry in Hs.
      apply app_eq_nil in Hs as [-> _]. cbn in Hlen. lia.
  - assert (Hstop : rest ∈ (if decide (lo = 0%nat) then [c :: s] else [])
                    ↔ rest = c :: s ∧ lo = 0%nat).
    { case_decide; [rewrite list_elem_of_singleton; tauto|].
      split; [intros H'; inversion H' | tauto]. }
    cbn. destruct (p c) eqn:Hp; cbn.
    + case_bool_decide as Hhi; cbn.
      * rewrite Hstop. split.
        -- intros [-> ->]. exists []. repeat split; [constructor|lia|cbn;lia].
        -- intros (w & Hs & _ & Hlen & Hmax). specialize (Hmax _ Hhi).
           destruct w; [cbn in Hs; split; [congruence | lia] | cbn in Hmax; lia].
      * rewrite elem_of_app, IH, Hstop. split.
        -- intros [(w & -> & Hw & Hlen & Hmax) | [-> ->]].
           ++ exists (c :: w). repeat split; [constructor; auto | cbn; lia |].
              intros h ->. cbn. specialize (Hmax (pred h) eq_refl).
              destruct h; [congruence | cbn in *; lia].
           ++ exists []. repeat split; [constructor|lia|cbn;lia].
        -- intros (w & Hs & Hw & Hlen & Hmax). destruct w as [|c' w].
           ++ right. cbn in *. split; [congruence | lia].
           ++ left. cbn in Hs. injection Hs as <- ->.
              exists w. inversion Hw; subst. repeat split; [auto | cbn in *; lia |].
              intros h Hh. destruct hi as [h'|]; [|discriminate].
              cbn in Hh. injection Hh as <-. specialize (Hmax h' eq_refl).
              cbn in Hmax. lia.
    + rewrite Hstop. split.
      * intros [-> ->]. exists []. repeat split; [constructor|lia|cbn;lia].
      * intros (w & Hs & Hw & Hlen & _). destruct w as [|c' w].
        -- cbn in *. split; [congruence | lia].
        -- cbn in Hs. injection Hs as <- ->. inversion Hw; subst. congruence.
Qed.

(** With no upper bound the first alternative of [greedy] is the longest
    run. *)
Lemma greedy_head p lo s rest :
  head (greedy p lo None s) = Some rest
  ↔ ∃ w, s = w ++ rest ∧ Forall (fun c => p c = true) w
         ∧ (lo ≤ length w)%nat
         ∧ match rest with [] => True | c :: _ => p c = false end.
Proof.
  revert lo. induction s as [|c s IH]; intros lo.
  - cbn. case_decide as Hlo; cbn.
    + split.
      * intros [= <-]. exists []. repeat split; [constructor | lia].
      * intros (w & Hs & _). symmetry in Hs.
        apply app_eq_nil in Hs as [_ ->]. reflexivity.
    + split; [discriminate|].
      intros (w & Hs & _ & Hlen & _). symmetry in Hs.
      apply app_eq_nil in Hs as [-> _]. cbn in Hlen. lia.
  - cbn. destruct (p c) eqn:Hp; cbn.
    + rewrite bool_decide_eq_false_2 by discriminate. cbn.
      rewrite head_app. split.
      * destruct (head (greedy p (pred lo) None s)) as [r|] eqn:Hh.
        -- intros [= ->]. apply IH in Hh as (w & -> & Hw & Hlen & Hend).
           exists (c :: w). repeat split; [constructor; auto | cbn; lia | auto].
        -- case_decide as Hlo; [|discriminate]. subst lo. exfalso.
           destruct s as [|a s]; cbn in Hh; [discriminate|].
           destruct (p a && _); [|discriminate].
           rewrite head_app in Hh. destruct (head _); discriminate.
      * intros (w & Hs & Hw & Hlen & Hend). destruct w as [|c' w].
        -- cbn in Hs. subst rest. congruence.
        -- cbn in Hs. injection Hs as <- ->. inversion Hw; subst.
           assert (head (greedy p (pred lo) None (w ++ rest)) = Some rest)
             as -> by (apply IH; exists w; repeat split; auto; cbn in *; lia).
           reflexivity.
    + case_decide as Hlo; cbn.
      * split.
        -- intros [= <-]. exists []. repeat split; [constructor | lia | auto].
        -- intros (w & Hs & Hw & _). destruct w as [|c' w].
           ++ cbn in Hs. congruence.
           ++ cbn in Hs. injection Hs as <- ->. inversion Hw; subst. congruence.
      * split; [discriminate|].
        intros (w & Hs & Hw & Hlen & _). destruct w as [|c' w].
        -- cbn in Hlen. lia.
        -- cbn in Hs. injection Hs as <- ->. inversion Hw; subst. congruence.
Qed.

(** [run] lists exactly the remainders left by the words of [lang]. *)
Lemma run_lang ic r s rest :
  rest ∈ run ic r s ↔ ∃ w, s = w ++ rest ∧ lang ic r w.
Proof.
  revert s rest. induction r as [l | r1 IH1 r2 IH2 | r IH | cs lo hi | cs];
    intros s rest; cbn [run lang].
  - destruct (strip ic (chars l) s) as [rest'|] eqn:Hs.
    + rewrite list_elem_of_singleton. split.
      * intros ->. apply strip_spec in Hs. exact Hs.
      * intros Hw. apply strip_spec in Hw. congruence.
    + split; [intros H; inversion H|].
      intros Hw. apply strip_spec in Hw. congruence.
  - rewrite list_elem_of_bind. split.
    + intros (s1 & H2 & H1). apply IH1 in H1 as (u & -> & Hu).
      apply IH2 in H2 as (v & -> & Hv).
      exists (u ++ v). rewrite <- app_assoc. eauto 6.
    + intros (w & -> & u & v & -> & Hu & Hv).
      exists (v ++ rest). split; [apply IH2; eauto | apply IH1].
      exists u. rewrite <- app_assoc. auto.
  - rewrite elem_of_app, list_elem_of_singleton, IH. split.
    + intros [(w & -> & Hw) | ->]; [eauto | exists []; auto].
    + intros (w & -> & [-> | Hw]); [right; reflexivity | left; eauto].
  - rewrite greedy_elem. split.
    + intros (w & -> & Hw & Hlo & Hhi). exists w.
      specialize (Hhi hi eq_refl). auto.
    + intros (w & -> & Hw & Hlo & Hhi). exists w. repeat split; auto.
      intros h [= <-]. exact Hhi.
  - rewrite greedy_elem. split.
    + intros (w & -> & Hw & Hlo & Hhi). exists w. auto.
    + intros (w & -> & Hw & Hlo). exists w. repeat split; auto.
      intros h [=].
Qed.

Lemma ci_eq_fixed w l :
  ci_eq w l -> Forall (fun x => Chars.is_lower x = false
                                ∧ Chars.is_upper x = false) l -> w = l.
Proof.
  unfold ci_eq. revert l. induction w as [|c w IH]; intros [|x l] E Hl;
    try discriminate; [reflexivity|].
  cbn in E. injection E as Hc Hw. inversion Hl as [|? ? [Hlo Hup] Hl']; subst.
  f_equal; [|apply IH; assumption].
  apply upper_fixed; [|exact Hup].
  rewrite Hc. unfold Chars.upper. rewrite Hlo. reflexivity.
Qed.

(** *** The DOI group *)

Lemma Forall_digit_class w :
  Forall (fun c => mem true digit_class c = true) w
  ↔ Forall (fun c => Chars.is_digit c = true) w.
Proof. apply Forall_iff. intros c. rewrite mem_digit_class. reflexivity. Qed.

Lemma Forall_suffix_class w :
  Forall (fun c => mem true suffix_class c = true) w
  ↔ Forall (fun c => doi_suffix_char c = true) w.
Proof. apply Forall_iff. intros c. rewrite mem_suffix_class. reflexivity. Qed.

Lemma lang_doi_group d : lang true doi_group d ↔ doi_shape d.
Proof.
  unfold doi_group, doi_shape. cbn [lang]. split.
  - intros (u & v & -> & Hu & u2 & v2 & -> & [Hreg Hlen]
            & u3 & v3 & -> & Hu3 & Hsuf & Hlen3).
    apply (ci_eq_fixed _ (chars "10.")) in Hu;
      [|repeat constructor]. subst u.
    apply (ci_eq_fixed _ (chars "/")) in Hu3;
      [|repeat constructor]. subst u3.
    exists u2, v3. repeat split; try lia.
    + apply Forall_digit_class, Hreg.
    + intros ->. cbn in Hlen3. lia.
    + apply Forall_suffix_class, Hsuf.
  - intros (reg & suf & -> & Hlen & Hreg & Hne & Hsuf).
    exists (chars "10."), (reg ++ chars "/" ++ suf).
    split; [reflexivity|]. split; [reflexivity|].
    exists reg, (chars "/" ++ suf). split; [reflexivity|]. split.
    { split; [|lia]. apply Forall_digit_class, Hreg. }
    exists (chars "/"), suf. split; [reflexivity|]. split; [reflexivity|].
    split.
    + apply Forall_suffix_class, Hsuf.
    + destruct suf; [congruence | cbn; lia].
Qed.

(** The first alternative of the DOI group at the head of [s] takes the
    DOI that stops where no suffix character follows. *)
Lemma doi_group_head s rest :
  head (run true doi_group s) = Some rest
  ↔ ∃ d, s = d ++ rest ∧ doi_shape d ∧ doi_ends rest.
Proof.
  split.
  - unfold doi_group. cbn [run]. intros H.
    apply head_bind_Some in H as (s2 & H2 & H).
    apply head_bind_Some in H as (s3 & H3 & H).
    apply head_bind_Some in H as (s4 & H4 & H).
    apply (run_lang true (Lit "10.")) in H2 as (u & -> & Hu).
    apply (run_lang true (Rep digit_class 4 9)) in H3 as (u2 & -> & Hu2).
    apply (run_lang true (Lit "/")) in H4 as (u3 & -> & Hu3).
    apply greedy_head in H as (v & -> & Hv & Hlen & Hend).
    exists (u ++ u2 ++ u3 ++ v). split; [by rewrite <- !app_assoc|]. split.
    + apply lang_doi_group. unfold doi_group. cbn [lang].
      exists u, (u2 ++ u3 ++ v). repeat split; [exact Hu|].
      exists u2, (u3 ++ v). repeat split; [apply Hu2..|].
      exists u3, v. auto.
    + destruct rest as [|c rest]; [exact I|]. cbn.
      rewrite <- mem_suffix_class. exact Hend.
  - intros (d & -> & (reg & suf & -> & Hlen & Hreg & Hne & Hsuf) & Hend).
    unfold doi_group. cbn [run].
    rewrite <- !app_assoc, strip_same.
    cbn [mbind list_bind]. rewrite app_nil_r.
    rewrite (head_bind_unique _ _ (chars "/" ++ suf ++ rest)).
    + rewrite strip_same. cbn [mbind list_bind]. rewrite app_nil_r.
      apply greedy_head. exists suf. repeat split.
      * apply Forall_suffix_class, Hsuf.
      * destruct suf; [congruence | cbn; lia].
      * destruct rest as [|c rest]; [exact I|].
        rewrite mem_suffix_class. exact Hend.
    + apply greedy_elem. exists reg. repeat split; [|lia|].
      * apply Forall_digit_class, Hreg.
      * intros h [= <-]. lia.
    + intros y Hy Hrun.
      apply greedy_elem in Hy as (u & Hsplit & Hu & _).
      destruct (strip true (chars "/") y) as [y'|] eqn:Hlit;
        [|contradiction Hrun; reflexivity].
      apply strip_spec in Hlit as (u3 & -> & Hu3).
      apply (ci_eq_fixed _ (chars "/")) in Hu3; [|repeat constructor].
      subst u3.
      apply (app_inv_sep (fun c => Chars.is_digit c = true)) in Hsplit
        as [_ E]; [ symmetry; exact E | exact Hreg | | discriminate
                                     | discriminate ].
      apply Forall_digit_class, Hu.
Qed.

(** *** The resolver prefix *)

Lemma ci_eq_app a b x y : ci_eq a x -> ci_eq b y -> ci_eq (a ++ b) (x ++ y).
Proof. unfold ci_eq. intros Ha Hb. rewrite !map_app. congruence. Qed.

Lemma ci_eq_app_inv w x y :
  ci_eq w (x ++ y) -> ∃ a b, w = a ++ b ∧ ci_eq a x ∧ ci_eq b y.
Proof.
  unfold ci_eq. rewrite map_app. intros E.
  apply fmap_app_inv in E as (a & b & Ha & Hb & ->). eauto.
Qed.

Lemma ci_eq_without c w l :
  Chars.is_lower c = false -> Chars.is_upper c = false ->
  ci_eq w l -> c ∉ l -> Forall (fun x => x ≠ c) w.
Proof.
  intros Hlo Hup. unfold ci_eq. revert l.
  induction w as [|a w IH]; intros [|x l] E Hl; try discriminate;
    [constructor|].
  cbn in E. injection E as Ha Hw. apply not_elem_of_cons in Hl as [Hx Hl].
  constructor; [|eapply IH; eassumption].
  intros ->. symmetry in Ha. apply upper_fixed in Ha.
  - unfold Chars.upper in Ha. rewrite Hlo in Ha. congruence.
  - unfold Chars.upper. rewrite Hlo. exact Hup.
Qed.

Lemma lang_resolver_lead l : lang true resolver_lead l ↔ resolver_prefix l.
Proof.
  unfold resolver_lead, resolver_prefix. cbn [lang].
  change (map (canon true) ?w = map (canon true) ?x) with (ci_eq w x).
  split.
  - intros (u & v & -> & Hu & u2 & v2 & -> & Hu2 & u3 & v3 & -> & Hu3 & Hv3).
    exists u, u2, u3, v3. repeat split; try assumption.
    destruct Hu as [-> | (a & b & -> & Ha & c & d & -> & Hc & Hd)];
      [left; reflexivity | right].
    destruct Hc as [-> | Hc].
    + left. apply (ci_eq_app a d (chars "http") (chars "://")); assumption.
    + right. apply (ci_eq_app a (c ++ d) (chars "http") (chars "s://"));
        [assumption|].
      apply (ci_eq_app c d (chars "s") (chars "://")); assumption.
  - intros (scheme & dx & host & slash & -> & Hs & Hdx & Hhost & Hslash).
    exists scheme, (dx ++ host ++ slash). split; [reflexivity|]. split.
    + destruct Hs as [-> | [Hs | Hs]]; [left; reflexivity | right | right].
      * apply (ci_eq_app_inv _ (chars "http") (chars "://")) in Hs
          as (a & d & -> & Ha & Hd).
        exists a, d. repeat split; [assumption|].
        exists [], d. auto.
      * apply (ci_eq_app_inv _ (chars "http") (chars "s://")) in Hs
          as (a & b & -> & Ha & Hb).
        apply (ci_eq_app_inv _ (chars "s") (chars "://")) in Hb
          as (c & d & -> & Hc & Hd).
        exists a, (c ++ d). repeat split; [assumption|].
        exists c, d. auto.
    + exists dx, (host ++ slash). repeat split; [assumption|].
      exists host, slash. auto.
Qed.

Lemma resolver_prefix_without_one l :
  resolver_prefix l -> Forall (fun x => x ≠ "1"%char) l.
Proof.
  intros (scheme & dx & host & slash & -> & Hs & Hdx & Hhost & Hslash).
  assert (∀ w p, ci_eq w (chars p) -> "1"%char ∉ chars p ->
                 Forall (fun x => x ≠ "1"%char) w) as Hpart
    by (intros w p; apply ci_eq_without; reflexivity).
  assert (∀ p, bool_decide ("1"%char ∈ chars p) = false ->
               "1"%char ∉ chars p) as Hdec
    by (intros p Hp Hin; apply bool_decide_eq_false in Hp; auto).
  repeat rewrite Forall_app. repeat split.
  - destruct Hs as [-> | [Hs | Hs]]; [constructor | |];
      eapply Hpart; eauto.
  - destruct Hdx as [-> | Hdx]; [constructor|]. eapply Hpart; eauto.
  - eapply Hpart; eauto.
  - destruct Hslash as [-> | Hslash]; [constructor|]. eapply Hpart; eauto.
Qed.

(** *** Matching at a position *)

Lemma doi_shape_head d : doi_shape d -> ∃ t, d = "1"%char :: t.
Proof. intros (reg & suf & -> & _). eexists. reflexivity. Qed.

Lemma capture_spec s1 d :
  head (map (fun s2 => take (length s1 - length s2) s1)
            (run true doi_group s1)) = Some d
  ↔ ∃ rest, s1 = d ++ rest ∧ doi_shape d ∧ doi_ends rest.
Proof.
  assert (∀ d' rest : list ascii,
            take (length (d' ++ rest) - length rest) (d' ++ rest) = d')
    as Htake.
  { intros d' rest. rewrite length_app.
    replace (length d' + length rest - length rest)%nat with (length d') by lia.
    apply take_app_length. }
  destruct (head (run true doi_group s1)) as [rest'|] eqn:Hh.
  - destruct (run true doi_group s1) as [|r rs] eqn:Hrun; [discriminate|].
    cbn in Hh. injection Hh as ->. cbn [map head].
    assert (head (run true doi_group s1) = Some rest') as Hh
      by (rewrite Hrun; reflexivity).
    apply doi_group_head in Hh as (d' & -> & Hd' & Hend).
    rewrite Htake. split.
    + intros [= <-]. eauto.
    + intros (rest & E & Hd & Hend').
      f_equal.
      assert (head (run true doi_group (d ++ rest)) = Some rest) as Hh'
        by (apply doi_group_head; eauto).
      rewrite <- E, Hrun in Hh'. cbn in Hh'. injection Hh' as ->.
      apply app_inv_tail in E. exact E.
  - destruct (run true doi_group s1) as [|r rs] eqn:Hrun; [|discriminate].
    cbn. split; [discriminate|].
    intros (rest & E & Hd & Hend).
    assert (head (run true doi_group s1) = Some rest) as Hh'
      by (apply doi_group_head; eauto).
    rewrite Hrun in Hh'. discriminate.
Qed.

Lemma url_match s d :
  match_here doiRegex s = Some d
  ↔ ∃ l rest, s = l ++ d ++ rest
              ∧ resolver_prefix l ∧ doi_shape d ∧ doi_ends rest.
Proof.
  unfold match_here. cbn [lead group ignoreCase doiRegex]. split.
  - intros H. apply head_bind_Some in H as (s1 & Hs1 & H).
    apply run_lang in Hs1 as (l & -> & Hl).
    apply capture_spec in H as (rest & -> & Hd & Hend).
    exists l, rest. rewrite <- lang_resolver_lead. auto.
  - intros (l & rest & -> & Hl & Hd & Hend).
    rewrite (head_bind_unique _ _ (d ++ rest)).
    + apply capture_spec. eauto.
    + apply run_lang. exists l. rewrite lang_resolver_lead. auto.
    + intros y Hy Hne.
      apply run_lang in Hy as (l' & E & Hl').
      apply lang_resolver_lead in Hl'.
      destruct (head (map (fun s2 => take (length y - length s2) y)
                          (run true doi_group y))) as [d'|] eqn:Hh.
      2:{ destruct (run true doi_group y); [contradiction Hne; reflexivity
                                           | discriminate]. }
      apply capture_spec in Hh as (rest' & -> & Hd' & _).
      destruct (doi_shape_head _ Hd) as [t ->].
      destruct (doi_shape_head _ Hd') as [t' ->].
      cbn in E.
      apply (app_inv_sep (fun x => x ≠ "1"%char)) in E as [_ E];
        [ symmetry; exact E | | | | ];
        auto using resolver_prefix_without_one.
Qed.

Lemma bare_match s d :
  match_here directDoiRegex s = Some d
  ↔ ∃ rest, s = d ++ rest ∧ doi_shape d ∧ doi_ends rest.
Proof.
  unfold match_here. cbn [lead group ignoreCase directDoiRegex run].
  change (strip true (chars "") s) with (Some s).
  cbn [mbind list_bind]. rewrite app_nil_r. apply capture_spec.
Qed.

(** *** Searching *)

Lemma exec_Some p s g :
  exec p s = Some g
  ↔ ∃ i, (i ≤ length s)%nat ∧ match_here p (drop i s) = Some g
         ∧ ∀ j, (j < i)%nat -> match_here p (drop j s) = None.
Proof.
  induction s as [|c s IH]; cbn [exec].
  - destruct (match_here p []) as [g'|] eqn:Hm.
    + split.
      * intros [= <-]. exists 0%nat. repeat split; [lia | exact Hm | lia].
      * intros (i & _ & Hi & _). rewrite drop_nil in Hi. congruence.
    + split; [discriminate|].
      intros (i & _ & Hi & _). rewrite drop_nil in Hi. congruence.
  - destruct (match_here p (c :: s)) as [g'|] eqn:Hm.
    + split.
      * intros [= <-]. exists 0%nat. repeat split; [cbn; lia | exact Hm | lia].
      * intros (i & _ & Hi & Hmin). destruct i as [|i].
        -- cbn in Hi. congruence.
        -- specialize (Hmin 0%nat ltac:(lia)). cbn in Hmin. congruence.
    + rewrite IH. split.
      * intros (i & Hlen & Hi & Hmin). exists (S i).
        repeat split; [cbn; lia | exact Hi |].
        intros [|j] Hj; [exact Hm | apply Hmin; lia].
      * intros (i & Hlen & Hi & Hmin). destruct i as [|i].
        -- cbn in Hi. congruence.
        -- exists i. repeat split; [cbn in Hlen; lia | exact Hi |].
           intros j Hj. apply (Hmin (S j)). lia.
Qed.

Lemma exec_None p s :
  exec p s = None
  ↔ ∀ i, (i ≤ length s)%nat -> match_here p (drop i s) = None.
Proof.
  induction s as [|c s IH]; cbn [exec].
  - destruct (match_here p []) as [g'|] eqn:Hm.
    + split; [discriminate|]. intros H. specialize (H 0%nat ltac:(cbn; lia)).
      cbn in H. congruence.
    + split; [|reflexivity]. intros _ i _. rewrite drop_nil. exact Hm.
  - destruct (match_here p (c :: s)) as [g'|] eqn:Hm.
    + split; [discriminate|]. intros H. specialize (H 0%nat ltac:(cbn; lia)).
      cbn in H. congruence.
    + rewrite IH. split.
      * intros H [|i] Hi; [exact Hm | apply H; cbn in Hi; lia].
      * intros H i Hi. apply (H (S i)). cbn. lia.
Qed.

Lemma UrlDoiAt_match text i d :
  UrlDoiAt text i d
  ↔ (i ≤ length text)%nat ∧ match_here doiRegex (drop i text) = Some d.
Proof. unfold UrlDoiAt. rewrite url_match. reflexivity. Qed.

Lemma BareDoiAt_match text i d :
  BareDoiAt text i d
  ↔ (i ≤ length text)%nat ∧ match_here directDoiRegex (drop i text) = Some d.
Proof. unfold BareDoiAt. rewrite bare_match. reflexivity. Qed.

Lemma no_url_iff text :
  exec doiRegex text = None ↔ ¬ ∃ i d, UrlDoiAt text i d.
Proof.
  rewrite exec_None. split.
  - intros Hnone (i & d & Hat). apply UrlDoiAt_match in Hat as [Hi Hm].
    rewrite (Hnone i Hi) in Hm. discriminate.
  - intros Hno i Hi.
    destruct (match_here doiRegex (drop i text)) as [d|] eqn:Hm;
      [|reflexivity].
    contradiction Hno. exists i, d. apply UrlDoiAt_match. auto.
Qed.

Lemma no_bare_iff text :
  exec directDoiRegex text = None ↔ ¬ ∃ i d, BareDoiAt text i d.
Proof.
  rewrite exec_None. split.
  - intros Hnone (i & d & Hat). apply BareDoiAt_match in Hat as [Hi Hm].
    rewrite (Hnone i Hi) in Hm. discriminate.
  - intros Hno i Hi.
    destruct (match_here directDoiRegex (drop i text)) as [d|] eqn:Hm;
      [|reflexivity].
    contradiction Hno. exists i, d. apply BareDoiAt_match. auto.
Qed.

(** When a pattern matches somewhere, [exec] returns the capture of its
    leftmost match. *)
Lemma exec_leftmost p text i d :
  (i ≤ length text)%nat -> match_here p (drop i text) = Some d ->
  ∃ i0 d0, (i0 ≤ length text)%nat
           ∧ match_here p (drop i0 text) = Some d0
           ∧ (∀ j, (j < i0)%nat -> match_here p (drop j text) = None)
           ∧ exec p text = Some d0.
Proof.
  intros Hi Hm. destruct (exec p text) as [d0|] eqn:Hexec.
  - apply exec_Some in Hexec as (i0 & Hi0 & Hm0 & Hmin). eauto 6.
  - rewrite exec_None in Hexec. rewrite (Hexec i Hi) in Hm. discriminate.
Qed.

(** C7, as amended. If the text contains a match of the resolver pattern
    of the source (an optional [http://] or [https://], an optional [dx.],
    [doi.org], an optional slash, then [10.NNNN/suffix], in any case),
    [extractDoi] returns the DOI of the leftmost such match, lower-cased,
    whatever bare DOIs stand before it; if it contains none but contains a
    bare DOI, [extractDoi] returns the leftmost bare DOI, lower-cased; if it
    contains neither, [extractDoi] returns [null]. *)
Theorem extractDoi_priority (text : string) :
  ((∃ i d, UrlDoiAt (chars text) i d) ->
   ∃ i d, UrlDoiAt (chars text) i d
          ∧ (∀ j d', UrlDoiAt (chars text) j d' -> (i ≤ j)%nat)
          ∧ extractDoi text = Some (str (toLowerCase d)))
  ∧ ((¬ ∃ i d, UrlDoiAt (chars text) i d) ->
     (∃ i d, BareDoiAt (chars text) i d) ->
     ∃ i d, BareDoiAt (chars text) i d
            ∧ (∀ j d', BareDoiAt (chars text) j d' -> (i ≤ j)%nat)
            ∧ extractDoi text = Some (str (toLowerCase d)))
  ∧ ((¬ ∃ i d, UrlDoiAt (chars text) i d) ->
     (¬ ∃ i d, BareDoiAt (chars text) i d) ->
     extractDoi text = None).
Proof.
  unfold extractDoi. repeat split.
  - intros (i & d & Hat). apply UrlDoiAt_match in Hat as [Hi Hm].
    destruct (exec_leftmost _ _ _ _ Hi Hm) as (i0 & d0 & Hi0 & Hm0 & Hmin & ->).
    exists i0, d0. split; [apply UrlDoiAt_match; auto|]. split; [|reflexivity].
    intros j d' Hj. apply UrlDoiAt_match in Hj as [_ Hj].
    destruct (decide (i0 ≤ j)%nat) as [|Hlt]; [assumption|].
    rewrite Hmin in Hj by lia. discriminate.
  - intros Hno (i & d & Hat). apply no_url_iff in Hno. rewrite Hno.
    apply BareDoiAt_match in Hat as [Hi Hm].
    destruct (exec_leftmost _ _ _ _ Hi Hm) as (i0 & d0 & Hi0 & Hm0 & Hmin & ->).
    exists i0, d0. split; [apply BareDoiAt_match; auto|]. split; [|reflexivity].
    intros j d' Hj. apply BareDoiAt_match in Hj as [_ Hj].
    destruct (decide (i0 ≤ j)%nat) as [|Hlt]; [assumption|].
    rewrite Hmin in Hj by lia. discriminate.
  - intros Hno Hnobare. apply no_url_iff in Hno. apply no_bare_iff in Hnobare.
    rewrite Hno, Hnobare. reflexivity.
Qed.

Lemma extractDoi_priority_witness :
  (∃ i d,
      UrlDoiAt (chars "Cf. 10.1000/ABC, or HTTPS://dx.doi.org/10.1038/Nature12373 !") i d
      ∧ (∀ j d',
            UrlDoiAt (chars "Cf. 10.1000/ABC, or HTTPS://dx.doi.org/10.1038/Nature12373 !") j d' ->
            (i ≤ j)%nat)
      ∧ extractDoi "Cf. 10.1000/ABC, or HTTPS://dx.doi.org/10.1038/Nature12373 !"
        = Some (str (toLowerCase d)))
  ∧ (∃ i d,
        BareDoiAt (chars "Direct DOI: 10.1016/J.Cell.2020.01.001") i d
        ∧ (∀ j d',
              BareDoiAt (chars "Direct DOI: 10.1016/J.Cell.2020.01.001") j d' ->
              (i ≤ j)%nat)
        ∧ extractDoi "Direct DOI: 10.1016/J.Cell.2020.01.001"
          = Some (str (toLowerCase d)))
  ∧ extractDoi "No DOI in this text at all" = None.
Proof.
  split; [|split].
  - apply (extractDoi_priority
             "Cf. 10.1000/ABC, or HTTPS://dx.doi.org/10.1038/Nature12373 !").
    exists 20%nat, (chars "10.1038/Nature12373").
    apply UrlDoiAt_match. split; [cbn; lia | vm_compute; reflexivity].
  - apply (extractDoi_priority "Direct DOI: 10.1016/J.Cell.2020.01.001").
    + apply no_url_iff. vm_compute. reflexivity.
    + exists 12%nat, (chars "10.1016/J.Cell.2020.01.001").
      apply BareDoiAt_match. split; [cbn; lia | vm_compute; reflexivity].
  - apply (extractDoi_priority "No DOI in this text at all").
    + apply no_url_iff. vm_compute. reflexivity.
    + apply no_bare_iff. vm_compute. reflexivity.
Defined.

(** C7, the claim as stated fails: the slash after [doi.org] is optional in
    the pattern of the source, so a bare DOI that merely follows the words
    [doi.org] is taken for a resolver match and wins over the resolver URL
    further on. Every resolver URL of the form [[https://][dx.]doi.org/...]
    in the text carries the DOI [10.2222/bbbb]; [extractDoi] returns
    [10.1111/aaaa]. *)
Lemma extractDoi_slashless_lead :
  let text := "Cf. doi.org10.1111/aaaa then https://doi.org/10.2222/bbbb" in
  captures specDoiRegex (chars text)
  = [chars "10.2222/bbbb"; chars "10.2222/bbbb"]
  ∧ exec specDoiRegex (chars text) = Some (chars "10.2222/bbbb")
  ∧ captures directDoiRegex (chars text)
    = [chars "10.1111/aaaa"; chars "10.2222/bbbb"]
  ∧ extractDoi text = Some "10.1111/aaaa".
Proof. vm_compute. repeat split; reflexivity. Qed.

(** The DOI returned for the leftmost resolver URL, stated for that URL. *)
Corollary extractDoi_first_url (text : string) i d :
  UrlDoiAt (chars text) i d ->
  (∀ j d', UrlDoiAt (chars text) j d' -> (i ≤ j)%nat) ->
  extractDoi text = Some (str (toLowerCase d)).
Proof.
  intros Hat Hmin. unfold extractDoi.
  pose proof Hat as [Hi Hm]%UrlDoiAt_match.
  destruct (exec_leftmost _ _ _ _ Hi Hm) as (i0 & d0 & Hi0 & Hm0 & Hmin0 & ->).
  assert (UrlDoiAt (chars text) i0 d0) as Hat0 by (apply UrlDoiAt_match; auto).
  specialize (Hmin _ _ Hat0).
  destruct (decide (i = i0)) as [->|Hne]; [congruence|].
  rewrite Hmin0 in Hm by lia. discriminate.
Qed.

(** The cases of [tests/doi-processor.test.js]. *)
Example extractDoi_tests :
  extractDoi "Check out this paper: https://doi.org/10.1038/nature12373"
  = Some "10.1038/nature12373"
  ∧ extractDoi "Found at dx.doi.org/10.1126/science.1234567"
    = Some "10.1126/science.1234567"
  ∧ extractDoi "Direct DOI: 10.1016/j.cell.2020.01.001"
    = Some "10.1016/j.cell.2020.01.001"
  ∧ extractDoi "No DOI in this text at all" = None
  ∧ extractDoi "Multiple DOIs: 10.1038/nature12373 and 10.1126/science.1234567"
    = Some "10.1038/nature12373"
  ∧ extractDoi "DOI with complex suffix: 10.1371/journal.pone.0123456"
    = Some "10.1371/journal.pone.0123456".
Proof. repeat split; vm_compute; reflexivity. Qed.

(** ** The monad *)

Lemma bind_run {A B : Type} (m : M A) (f : A -> M B) (w : World) :
  (m ≫= f) w = match m w with
               | (Returned a, w') => f a w'
               | (Thrown e, w') => (Thrown e, w')
               end.
Proof. reflexivity. Qed.

Lemma saveCache_run cfg env w :
  saveCache cfg env w = (Returned tt, saved cfg env w).
Proof.
  unfold saveCache, saved, try_catch, writeFile, now, modify_cache, get_cache.
  unfold mbind, M_bind, mret, M_ret. cbn.
  destruct (writable env (history w)); reflexivity.
Qed.

Arguments member : simpl never.
Arguments work_authors : simpl never.
Arguments work_pdfUrl : simpl never.
Arguments truthy : simpl never.
Arguments string_of : simpl never.

Ltac unfold_monad :=
  unfold try_catch, throw, lift, get_cache, modify_cache, note, now,
    response_json, mbind, M_bind, mret, M_ret in *.

Lemma fetchCrossrefMetadata_world cfg env doi w :
  (fetchCrossrefMetadata cfg env doi w).2
  = record_event (Fetched (crossref_request cfg doi)) w.
Proof.
  unfold fetchCrossrefMetadata, fetch. unfold_monad. cbn.
  destruct (network env _ _) as [reason|resp]; cbn; [reflexivity|].
  destruct (ok resp); cbn; [|reflexivity].
  destruct (json resp) as [data|]; cbn; [|reflexivity].
  destruct (member (Some data) "message") as [[work|]|]; cbn;
    [|reflexivity..].
  destruct (truthy _); cbn; [|reflexivity].
  destruct (work_authors work); cbn; [|reflexivity].
  destruct (work_pdfUrl work); cbn; [|reflexivity].
  destruct (string_of (work_title work)); reflexivity.
Qed.

(** ** Classification client *)

Lemma string_of_throws v e :
  string_of v = Thrown e -> ∃ k, e = TypeError k.
Proof.
  unfold string_of. destruct v as [j|]; [|discriminate].
  destruct (stringable j); [discriminate|]. intros [= <-]. eauto.
Qed.

(** The five ways a call of [classifyPaper] can go. *)
Lemma classifyPaper_cases cfg env title pdfUrl w :
  let r := classifyPaper cfg env title pdfUrl w in
  let w0 := record_event (Classifying title pdfUrl) w in
  (CREDIT_LIMIT cfg <= credits w
   ∧ r = (Thrown (CreditLimitReached (CREDIT_LIMIT cfg)), w0))
  ∨ (credits w < CREDIT_LIMIT cfg ∧ api_key_set cfg = None
     ∧ r = (Thrown ApiKeyNotConfigured, w0))
  ∨ (credits w < CREDIT_LIMIT cfg
     ∧ ∃ key k, api_key_set cfg = Some key
                ∧ string_of title = Thrown (TypeError k)
                ∧ r = (Thrown (TypeError k), w0))
  ∨ (credits w < CREDIT_LIMIT cfg
     ∧ ∃ key e, api_key_set cfg = Some key ∧ before_response e = true
                ∧ r = (Thrown e, asked cfg key title pdfUrl w))
  ∨ (credits w < CREDIT_LIMIT cfg
     ∧ ∃ key o, api_key_set cfg = Some key
                ∧ (is_Some (match o with Returned cl => Some cl | _ => None end)
                   ∨ ∃ k, o = Thrown (TypeError k))
                ∧ r = (o, charged cfg env (asked cfg key title pdfUrl w))).
Proof.
  cbn zeta. unfold classifyPaper, credits, fetch, asked, charged.
  unfold_monad. cbn.
  destruct (Z.geb_spec (creditsUsed (cache w)) (CREDIT_LIMIT cfg)) as [Hge|Hlt].
  { left. split; [lia | reflexivity]. }
  right. destruct (api_key_set cfg) as [key|] eqn:Hkey.
  2:{ left. split; [lia | split; reflexivity]. }
  right. cbn.
  destruct (string_of title) as [t|e] eqn:Ht; cbn.
  2:{ left. split; [lia|].
      destruct (string_of_throws _ _ Ht) as [k ->]. exists key, k. auto. }
  right.
  destruct (network env _ _) as [reason | resp]; cbn.
  { left. split; [lia|]. exists key, (FetchFailed reason). auto. }
  destruct (ok resp); cbn.
  2:{ left. split; [lia|]. eexists key, (Kgx3Status _ _). auto. }
  destruct (json resp) as [result|]; cbn.
  2:{ left. split; [lia|]. exists key, JsonSyntaxError. auto. }
  right. split; [lia|]. rewrite saveCache_run.
  destruct (member (Some result) "classification") as [label|e] eqn:Hlabel;
    cbn.
  2:{ exists key, (Thrown e). split; [reflexivity|]. split; [|reflexivity].
      right. unfold member in Hlabel. destruct result; try discriminate.
      injection Hlabel as <-. eauto. }
  destruct (string_of label) as [s|e] eqn:Hs; cbn.
  2:{ exists key, (Thrown e). split; [reflexivity|]. split; [|reflexivity].
      right. apply string_of_throws in Hs as [k ->]. eauto. }
  destruct (member (Some result) "confidence") as [confidence|e] eqn:Hconf;
    cbn.
  2:{ exfalso. unfold member in *. destruct result; discriminate. }
  eexists key, _. split; [reflexivity|]. split; [|reflexivity].
  left. eexists. reflexivity.
Qed.

Lemma network_calls_record e w :
  is_fetch e = false -> network_calls (record_event e w) = network_calls w.
Proof.
  intros He. unfold network_calls.
  change (history (record_event e w)) with (e :: history w).
  rewrite filter_cons_False; [reflexivity | congruence].
Qed.

(** C1. When the credit counter has reached the configured limit,
    [classifyPaper] fails with the credit-limit error whatever its
    arguments, before any network call and without touching the cache (so
    without incrementing the counter); when the limit is not reached but no
    API key is configured, it fails with the configuration error, again
    before any network call. *)
Theorem classifyPaper_preconditions cfg env title pdfUrl w :
  (CREDIT_LIMIT cfg <= credits w ->
   ∃ w', classifyPaper cfg env title pdfUrl w
         = (Thrown (CreditLimitReached (CREDIT_LIMIT cfg)), w')
         ∧ cache w' = cache w ∧ file w' = file w
         ∧ network_calls w' = network_calls w)
  ∧ (credits w < CREDIT_LIMIT cfg ->
     KGX3_API_KEY cfg = None ∨ KGX3_API_KEY cfg = Some "" ->
     ∃ w', classifyPaper cfg env title pdfUrl w
           = (Thrown ApiKeyNotConfigured, w')
           ∧ cache w' = cache w ∧ file w' = file w
           ∧ network_calls w' = network_calls w).
Proof.
  split.
  - intros Hge.
    destruct (classifyPaper_cases cfg env title pdfUrl w)
      as [[_ Hr] | [[Hlt _] | [[Hlt _] | [[Hlt _] | [Hlt _]]]]]; try lia.
    eexists. split; [exact Hr|].
    split; [reflexivity|]. split; [reflexivity|].
    apply network_calls_record. reflexivity.
  - intros Hlt Hkey.
    assert (api_key_set cfg = None) as Hnone
      by (unfold api_key_set; destruct Hkey as [-> | ->]; reflexivity).
    destruct (classifyPaper_cases cfg env title pdfUrl w)
      as [[Hge _] | [(_ & _ & Hr) | [(_ & k & ? & Hk & _)
                                    | [(_ & k & ? & Hk & _)
                                      | (_ & k & ? & Hk & _)]]]];
      try lia; try congruence.
    eexists. split; [exact Hr|].
    split; [reflexivity|]. split; [reflexivity|].
    apply network_calls_record. reflexivity.
Qed.

Lemma classifyPaper_preconditions_witness :
  (∃ w', classifyPaper Scenario.cfg (Scenario.scripted [])
           (Some (JStr "A title")) undefined (Scenario.spent 2)
         = (Thrown (CreditLimitReached 2), w')
         ∧ cache w' = cache (Scenario.spent 2)
         ∧ file w' = file (Scenario.spent 2)
         ∧ network_calls w' = network_calls (Scenario.spent 2))
  ∧ (∃ w', classifyPaper Scenario.cfg_no_key (Scenario.scripted [])
             (Some (JStr "A title")) undefined Scenario.fresh
           = (Thrown ApiKeyNotConfigured, w')
           ∧ cache w' = cache Scenario.fresh
           ∧ file w' = file Scenario.fresh
           ∧ network_calls w' = network_calls Scenario.fresh).
Proof.
  split.
  - apply (classifyPaper_preconditions Scenario.cfg (Scenario.scripted [])
             (Some (JStr "A title")) undefined (Scenario.spent 2)).
    vm_compute. discriminate.
  - apply (classifyPaper_preconditions Scenario.cfg_no_key
             (Scenario.scripted []) (Some (JStr "A title")) undefined
             Scenario.fresh).
    + reflexivity.
    + left. reflexivity.
Defined.

(** C10, as amended. Whenever [classifyPaper] fails because the credit limit
    is reached, the API key is missing, the service answers a non-success
    status, the transport fails or times out, or the body of the response is
    not JSON, the cache is unchanged by the call: [creditsUsed] is not
    incremented, no entry is added or modified, and the stored document is
    as before. *)
Theorem classifyPaper_failure_keeps_cache cfg env title pdfUrl w e w' :
  classifyPaper cfg env title pdfUrl w = (Thrown e, w') ->
  before_response e = true ->
  cache w' = cache w ∧ file w' = file w.
Proof.
  intros Hrun He.
  destruct (classifyPaper_cases cfg env title pdfUrl w)
    as [[_ Hr] | [(_ & _ & Hr) | [(_ & k & k0 & _ & _ & Hr)
                                 | [(_ & k & e' & _ & _ & Hr)
                                 | (_ & k & o & _ & Ho & Hr)]]]];
    cbn zeta in Hr; rewrite Hr in Hrun; inversion Hrun; subst; auto.
  destruct Ho as [[cl Hcl] | [k' Hk]]; [discriminate|].
  inversion Hk; subst. discriminate.
Qed.

Lemma classifyPaper_failure_keeps_cache_witness :
  ∃ w', classifyPaper Scenario.cfg (Scenario.scripted [Scenario.server_error])
          (Some (JStr "A title")) undefined (Scenario.spent 1)
        = (Thrown (Kgx3Status 500 "Internal Server Error"), w')
        ∧ cache w' = cache (Scenario.spent 1)
        ∧ file w' = file (Scenario.spent 1).
Proof.
  eexists. split; [reflexivity|].
  apply (classifyPaper_failure_keeps_cache Scenario.cfg
           (Scenario.scripted [Scenario.server_error])
           (Some (JStr "A title")) undefined (Scenario.spent 1)
           (Kgx3Status 500 "Internal Server Error")).
  - reflexivity.
  - reflexivity.
Defined.

(** C10, the claim as stated fails: the service answers 200 with the JSON
    body [null]; [classifyPaper] counts and persists the credit, then
    throws a TypeError on reading [result.classification]. *)
Lemma classifyPaper_null_body_spends_credit :
  let r := classifyPaper Scenario.cfg
             (Scenario.scripted [Scenario.ok_json JNull])
             (Some (JStr "A title")) (Some (JStr "https://example.org/p.pdf"))
             (Scenario.spent 1) in
  r.1 = Thrown (TypeError "classification")
  ∧ credits (Scenario.spent 1) = 1
  ∧ credits r.2 = 2
  ∧ cache r.2 ≠ cache (Scenario.spent 1).
Proof.
  vm_compute. repeat split; try reflexivity. discriminate.
Qed.

(** ** Orchestrator *)

(** [processDoi_body] step by step. *)
Lemma processDoi_body_run cfg env doi w :
  processDoi_body cfg env doi w
  = match entries (cache w) !! doi ≫= classification with
    | Some cl => (Returned (badge_of cl), w)
    | None =>
        match resolve_metadata cfg env doi w with
        | (Thrown e, w1) => (Thrown e, w1)
        | (Returned md, w1) =>
            if negb (truthy (title md)) then (Returned None, w1)
            else if negb (truthy (pdfUrl md)) then (Returned None, w1)
            else
              match classifyPaper cfg env (title md) (pdfUrl md) w1 with
              | (Thrown e, w2) => (Thrown e, w2)
              | (Returned cl, w2) =>
                  match entries (cache w2) !! doi with
                  | Some _ =>
                      (Returned (badge_of cl),
                       saved cfg env
                         (with_cache
                            (with_entries (alter (with_classification cl) doi))
                            w2))
                  | None => (Thrown (TypeError "cache.entries[doi]"), w2)
                  end
              end
        end
    end.
Proof.
  unfold processDoi_body, resolve_metadata, attach_classification.
  unfold_monad. cbv beta.
  destruct (entries (cache w) !! doi) as [entry|]; cbn.
  - destruct (classification entry); [reflexivity|].
    destruct (negb (truthy (title (metadata entry)))); [reflexivity|].
    destruct (negb (truthy (pdfUrl (metadata entry)))); [reflexivity|].
    destruct (classifyPaper cfg env _ _ w) as [[cl|e] w2]; [|reflexivity].
    destruct (entries (cache w2) !! doi); [|reflexivity].
    rewrite saveCache_run. reflexivity.
  - destruct (fetchCrossrefMetadata cfg env doi w) as [[md|e] w1];
      [|reflexivity].
    rewrite saveCache_run.
    destruct (negb (truthy (title md))); [reflexivity|].
    destruct (negb (truthy (pdfUrl md))); [reflexivity|].
    destruct (classifyPaper cfg env _ _ _) as [[cl|e] w2]; [|reflexivity].
    destruct (entries (cache w2) !! doi); [|reflexivity].
    rewrite saveCache_run. reflexivity.
Qed.

(** C2. [processDoi] never propagates an exception: it always returns a
    value, and whenever a statement of its [try] block throws (the metadata
    fetch, the classification client with its credit and configuration
    checks, a transport error, anything else) the value returned is
    [null]. *)
Theorem processDoi_never_throws cfg env doi w :
  (∃ badge w', processDoi cfg env doi w = (Returned badge, w'))
  ∧ (∀ e w', processDoi_body cfg env doi w = (Thrown e, w') ->
             processDoi cfg env doi w = (Returned None, w'))
  ∧ (∀ e, entries (cache w) !! doi = None ->
          (fetchCrossrefMetadata cfg env doi w).1 = Thrown e ->
          (processDoi cfg env doi w).1 = Returned None)
  ∧ (∀ entry e,
        entries (cache w) !! doi = Some entry ->
        classification entry = None ->
        truthy (title (metadata entry)) = true ->
        truthy (pdfUrl (metadata entry)) = true ->
        (classifyPaper cfg env (title (metadata entry))
           (pdfUrl (metadata entry)) w).1 = Thrown e ->
        (processDoi cfg env doi w).1 = Returned None).
Proof.
  repeat split.
  - unfold processDoi, try_catch.
    destruct (processDoi_body cfg env doi w) as [[badge | e] w'];
      eexists _, _; reflexivity.
  - intros e w' Hbody. unfold processDoi, try_catch. rewrite Hbody.
    reflexivity.
  - intros e Hnone Hfetch. unfold processDoi, try_catch.
    rewrite processDoi_body_run. unfold resolve_metadata.
    rewrite Hnone. cbn.
    destruct (fetchCrossrefMetadata cfg env doi w) as [o w1].
    cbn in Hfetch. subst o. reflexivity.
  - intros entry e Hsome Hcl Htitle Hpdf Hclassify.
    unfold processDoi, try_catch.
    rewrite processDoi_body_run. unfold resolve_metadata.
    rewrite Hsome. cbn. rewrite Hcl, Htitle, Hpdf. cbn.
    destruct (classifyPaper cfg env _ _ w) as [o w1].
    cbn in Hclassify. subst o. reflexivity.
Qed.

Lemma processDoi_never_throws_witness :
  (processDoi Scenario.cfg (Scenario.scripted []) "10.1000/xyz"
     Scenario.fresh).1 = Returned None
  ∧ (processDoi Scenario.cfg_no_key (Scenario.scripted []) "10.1000/xyz"
       (Scenario.cached "10.1000/xyz"
          (Scenario.sample_metadata (Some (JStr "https://example.org/p.pdf")))
          None)).1 = Returned None.
Proof.
  split.
  - destruct (processDoi_never_throws Scenario.cfg (Scenario.scripted [])
                "10.1000/xyz" Scenario.fresh) as (_ & _ & H & _).
    apply (H (FetchFailed "network down")); reflexivity.
  - destruct (processDoi_never_throws Scenario.cfg_no_key
                (Scenario.scripted []) "10.1000/xyz"
                (Scenario.cached "10.1000/xyz"
                   (Scenario.sample_metadata
                      (Some (JStr "https://example.org/p.pdf")))
                   None)) as (_ & _ & _ & H).
    eapply (H _ ApiKeyNotConfigured); reflexivity.
Defined.

(** *** How the steps of the pipeline move the cache *)

Lemma saved_cache cfg env w :
  entries (cache (saved cfg env w)) = entries (cache w)
  ∧ credits (saved cfg env w) = credits w.
Proof. unfold saved, credits. destruct (writable env _); auto. Qed.

Lemma saved_history cfg env w :
  ∃ done, history (saved cfg env w)
          = Wrote (CACHE_FILE cfg) done :: history w.
Proof. unfold saved. destruct (writable env _); eexists; reflexivity. Qed.

Lemma classifyPaper_entries cfg env title pdfUrl w :
  entries (cache (classifyPaper cfg env title pdfUrl w).2)
  = entries (cache w).
Proof.
  destruct (classifyPaper_cases cfg env title pdfUrl w)
    as [[_ Hr] | [(_ & _ & Hr) | [(_ & k & k0 & _ & _ & Hr)
                                 | [(_ & k & e' & _ & _ & Hr)
                                 | (_ & k & o & _ & _ & Hr)]]]];
    cbn zeta in Hr; rewrite Hr; try reflexivity.
  unfold charged. cbn [snd]. rewrite (proj1 (saved_cache _ _ _)). reflexivity.
Qed.

Lemma classifyPaper_credits cfg env title pdfUrl w :
  credits w <= CREDIT_LIMIT cfg ->
  credits w <= credits (classifyPaper cfg env title pdfUrl w).2
  <= CREDIT_LIMIT cfg.
Proof.
  intros Hle.
  destruct (classifyPaper_cases cfg env title pdfUrl w)
    as [[_ Hr] | [(_ & _ & Hr) | [(_ & k & k0 & _ & _ & Hr)
                                 | [(_ & k & e' & _ & _ & Hr)
                                 | (Hlt & k & o & _ & _ & Hr)]]]];
    cbn zeta in Hr; rewrite Hr; cbn [snd]; try (unfold credits in *; cbn; lia).
  unfold charged. rewrite (proj2 (saved_cache _ _ _)).
  unfold credits in *. cbn. lia.
Qed.

Lemma resolve_metadata_cache cfg env doi w o w1 :
  resolve_metadata cfg env doi w = (o, w1) ->
  credits w1 = credits w
  ∧ classifier_calls w1 = classifier_calls w
  ∧ match o with
    | Returned md =>
        ∃ entry, entries (cache w1) !! doi = Some entry
                 ∧ metadata entry = md
                 ∧ classification entry
                   = entries (cache w) !! doi ≫= classification
                 ∧ ∀ k, k ≠ doi ->
                        entries (cache w1) !! k = entries (cache w) !! k
    | Thrown _ =>
        entries (cache w1) = entries (cache w)
        ∧ entries (cache w) !! doi = None
    end.
Proof.
  unfold resolve_metadata.
  destruct (entries (cache w) !! doi) as [entry|] eqn:Hdoi.
  - intros [= <- <-]. repeat split. exists entry. rewrite Hdoi. auto.
  - pose proof (fetchCrossrefMetadata_world cfg env doi w) as Hw.
    destruct (fetchCrossrefMetadata cfg env doi w) as [[md|e] w0];
      cbn in Hw; subst w0; intros [= <- <-].
    + match goal with
      | |- context [saved ?c ?e ?x] =>
          destruct (saved_history c e x) as [done Hh];
          destruct (saved_cache c e x) as [He Hc]
      end.
      split; [rewrite Hc; reflexivity|]. split.
      { unfold classifier_calls. rewrite Hh.
        cbn [history with_cache record_event].
        rewrite !filter_cons_False by (cbn; congruence). reflexivity. }
      eexists. rewrite He. cbn. rewrite lookup_insert_eq.
      repeat split. intros k Hk. rewrite lookup_insert_ne by congruence.
      reflexivity.
    + repeat split.
Qed.

Lemma processDoi_world cfg env doi w :
  (processDoi cfg env doi w).2 = (processDoi_body cfg env doi w).2.
Proof.
  unfold processDoi, try_catch.
  destruct (processDoi_body cfg env doi w) as [[badge|e] w']; reflexivity.
Qed.

(** Step 4 of [processDoi]: past the memoised path, metadata without a PDF
    URL ends the call in the world metadata resolution left. *)
Lemma processDoi_stops_without_pdf cfg env doi w md w1 :
  resolves cfg env doi w md w1 ->
  truthy (pdfUrl md) = false ->
  processDoi cfg env doi w = (Returned None, w1)
  ∧ classifier_calls w1 = classifier_calls w
  ∧ credits w1 = credits w.
Proof.
  intros [Hmemo Hres] Hpdf. split.
  - unfold processDoi, try_catch. rewrite processDoi_body_run, Hmemo, Hres.
    rewrite Hpdf. destruct (negb (truthy (title md))); reflexivity.
  - destruct (resolve_metadata_cache _ _ _ _ _ _ Hres) as (Hc & Hk & _).
    auto.
Qed.

Lemma metadata_for_resolves cfg env doi w md :
  metadata_for cfg env doi w = Some md ->
  entries (cache w) !! doi ≫= classification = None ->
  ∃ w1, resolves cfg env doi w md w1.
Proof.
  unfold metadata_for, resolves, resolve_metadata. intros Hmd Hmemo.
  destruct (entries (cache w) !! doi) as [entry|].
  - injection Hmd as <-. eauto.
  - destruct (fetchCrossrefMetadata cfg env doi w) as [[md'|e] w0];
      cbn in Hmd; [|discriminate].
    injection Hmd as <-. eauto.
Qed.

(** C5. When the metadata of [doi], cached or freshly fetched, has no PDF
    URL ([undefined], or any other falsy value), [processDoi(doi)] leaves
    [creditsUsed] as it was and does not enter [classifyPaper]; and it
    returns [null], provided the entry is not already classified, which no
    entry without a PDF URL is in a cache the pipeline has built. *)
Theorem processDoi_without_pdf cfg env doi w md :
  metadata_for cfg env doi w = Some md ->
  truthy (pdfUrl md) = false ->
  credits (processDoi cfg env doi w).2 = credits w
  ∧ classifier_calls (processDoi cfg env doi w).2 = classifier_calls w
  ∧ (entries (cache w) !! doi ≫= classification = None
     ∨ classified_with_pdf (cache w) ->
     (processDoi cfg env doi w).1 = Returned None).
Proof.
  intros Hmd Hpdf.
  destruct (entries (cache w) !! doi ≫= classification) as [cl|] eqn:Hmemo.
  - assert (processDoi cfg env doi w = (Returned (badge_of cl), w)) as ->
      by (unfold processDoi, try_catch;
          rewrite processDoi_body_run, Hmemo; reflexivity).
    split; [reflexivity|]. split; [reflexivity|].
    intros [Hc | Hinv]; [discriminate|]. exfalso.
    unfold metadata_for in Hmd.
    destruct (entries (cache w) !! doi) as [entry|] eqn:Hentry;
      [|discriminate].
    injection Hmd as <-. cbn in Hmemo.
    destruct (Hinv doi entry Hentry) as [_ Hhas]; [rewrite Hmemo; eauto|].
    congruence.
  - destruct (metadata_for_resolves _ _ _ _ _ Hmd Hmemo) as [w1 Hres].
    destruct (processDoi_stops_without_pdf _ _ _ _ _ _ Hres Hpdf)
      as (-> & Hcalls & Hcredits).
    auto.
Qed.

Lemma processDoi_without_pdf_witness :
  let r := processDoi Scenario.cfg
             (Scenario.scripted [Scenario.ok_json Scenario.work_without_pdf])
             "10.1000/xyz" Scenario.fresh in
  credits r.2 = credits Scenario.fresh
  ∧ classifier_calls r.2 = classifier_calls Scenario.fresh
  ∧ r.1 = Returned None.
Proof.
  cbn zeta.
  destruct (processDoi_without_pdf Scenario.cfg
              (Scenario.scripted [Scenario.ok_json Scenario.work_without_pdf])
              "10.1000/xyz" Scenario.fresh
              {| title := Some (JStr "A Paper Behind a Paywall");
                 pdfUrl := undefined; authors := [];
                 journal := Some (JStr ""); year := undefined |})
    as (Hcredits & Hcalls & Hnull).
  - reflexivity.
  - reflexivity.
  - split; [exact Hcredits|]. split; [exact Hcalls|].
    apply Hnull. left. reflexivity.
Defined.

(** *** The credit budget *)

Lemma step_credits cfg env op w :
  credits w <= CREDIT_LIMIT cfg ->
  credits w <= credits (step cfg env op w) <= CREDIT_LIMIT cfg.
Proof.
  intros Hle. destruct op as [doi | title pdfUrl | | ]; cbn [step].
  - rewrite processDoi_world, processDoi_body_run.
    destruct (entries (cache w) !! doi ≫= classification); [cbn [snd]; lia|].
    destruct (resolve_metadata cfg env doi w) as [o w1] eqn:Hres.
    destruct (resolve_metadata_cache _ _ _ _ _ _ Hres) as (Hc & _ & _).
    destruct o as [md|e]; [|cbn [snd]; lia].
    destruct (negb (truthy (title md))); [cbn [snd]; lia|].
    destruct (negb (truthy (pdfUrl md))); [cbn [snd]; lia|].
    pose proof (classifyPaper_credits cfg env (title md) (pdfUrl md) w1)
      as Hcl.
    destruct (classifyPaper cfg env (title md) (pdfUrl md) w1)
      as [[cl|e] w2]; cbn [snd] in *; [|lia].
    destruct (entries (cache w2) !! doi); cbn [snd]; [|lia].
    rewrite (proj2 (saved_cache _ _ _)). unfold credits in *. cbn. lia.
  - apply classifyPaper_credits, Hle.
  - rewrite saveCache_run. cbn [snd].
    rewrite (proj2 (saved_cache _ _ _)). lia.
  - unfold getCacheStats. unfold_monad. cbn [snd]. lia.
Qed.

(** C4. Along every sequence of [processDoi], [classifyPaper], [saveCache]
    and [getCacheStats] calls started with [creditsUsed] at most the
    configured limit, the successive values of [creditsUsed] never decrease
    and never exceed the limit. *)
Theorem creditsUsed_monotone_bounded cfg env ops w :
  credits w <= CREDIT_LIMIT cfg ->
  StronglySorted Z.le (map credits (w :: states cfg env ops w))
  ∧ Forall (fun c => c <= CREDIT_LIMIT cfg)
           (map credits (w :: states cfg env ops w)).
Proof.
  revert w. induction ops as [|op ops IH]; intros w Hle.
  - cbn. split; repeat constructor. exact Hle.
  - destruct (step_credits cfg env op w Hle) as [Hup Hbound].
    destruct (IH _ Hbound) as [Hsorted Hall].
    cbn [states]. split.
    + change (map credits (w :: ?l)) with (credits w :: map credits l).
      constructor; [exact Hsorted|].
      change (map credits (?x :: ?l)) with (credits x :: map credits l)
        in Hsorted.
      apply StronglySorted_inv in Hsorted as [_ Hrest].
      change (map credits (?x :: ?l)) with (credits x :: map credits l).
      constructor; [exact Hup|].
      eapply Forall_impl; [exact Hrest|]. cbn. intros; lia.
    + change (map credits (w :: ?l)) with (credits w :: map credits l).
      constructor; [exact Hle | exact Hall].
Qed.

Lemma creditsUsed_monotone_bounded_witness :
  StronglySorted Z.le [1; 2; 2; 2; 2]
  ∧ Forall (fun c => c <= 2) [1; 2; 2; 2; 2].
Proof.
  apply (creditsUsed_monotone_bounded Scenario.cfg
           (Scenario.scripted [Scenario.ok_json Scenario.normal_science])
           [ClassifyPaper (Some (JStr "A title")) undefined;
            ClassifyPaper (Some (JStr "Another title")) undefined;
            SaveCache; GetCacheStats]
           (Scenario.spent 1)).
  vm_compute. discriminate.
Defined.

(** *** Memoisation *)

(** From a settled cache [processDoi] answers at once and leaves the world
    as it is. *)
Lemma settled_run cfg env doi w :
  settled (cache w) doi ->
  processDoi cfg env doi w = (Returned (cached_answer (cache w) doi), w).
Proof.
  intros (entry & Hentry & Hsettled).
  unfold processDoi, try_catch. rewrite processDoi_body_run.
  unfold cached_answer, resolve_metadata. rewrite Hentry. cbn.
  destruct (classification entry) as [cl|]; [reflexivity|].
  destruct Hsettled as [[cl Hcl] | [Htitle | Hpdf]]; [discriminate | |].
  - rewrite Htitle. reflexivity.
  - rewrite Hpdf. destruct (negb (truthy (title (metadata entry))));
      reflexivity.
Qed.

(** What [processDoi] returns is what the cache it leaves behind answers. *)
Lemma processDoi_answer cfg env doi w :
  (processDoi cfg env doi w).1
  = Returned (cached_answer (cache (processDoi cfg env doi w).2) doi).
Proof.
  unfold processDoi, try_catch, mret, M_ret. rewrite processDoi_body_run.
  unfold cached_answer.
  destruct (entries (cache w) !! doi ≫= classification) as [cl|] eqn:Hmemo.
  { cbn [fst snd]. rewrite Hmemo. reflexivity. }
  destruct (resolve_metadata cfg env doi w) as [o w1] eqn:Hres.
  destruct (resolve_metadata_cache _ _ _ _ _ _ Hres) as (_ & _ & Hent).
  destruct o as [md|e].
  2:{ destruct Hent as [Hsame Hnone]. cbn [fst snd].
      rewrite Hsame, Hnone. reflexivity. }
  destruct Hent as (entry & Hentry & Hmd & Hcl & _).
  assert (entries (cache w1) !! doi ≫= classification = None) as Hnone
    by (rewrite Hentry; cbn; rewrite Hcl; exact Hmemo).
  destruct (negb (truthy (title md)));
    [cbn [fst snd]; rewrite Hnone; reflexivity|].
  destruct (negb (truthy (pdfUrl md)));
    [cbn [fst snd]; rewrite Hnone; reflexivity|].
  pose proof (classifyPaper_entries cfg env (title md) (pdfUrl md) w1) as Hkeep.
  destruct (classifyPaper cfg env (title md) (pdfUrl md) w1) as [[cl|e] w2];
    cbn [snd] in Hkeep.
  2:{ cbn [fst snd]. rewrite Hkeep, Hnone. reflexivity. }
  rewrite Hkeep, Hentry. cbn [fst snd].
  rewrite (proj1 (saved_cache _ _ _)). cbn.
  rewrite lookup_alter_eq, Hkeep, Hentry. reflexivity.
Qed.

(** *** Retries *)

(** [classifyPaper] only adds to the history, its own entry first; the
    request to the service follows when the guards and the printing of the
    title let it through. *)
Lemma classifyPaper_history cfg env title pdfUrl w :
  ∃ later,
    history (classifyPaper cfg env title pdfUrl w).2
    = later ++ Classifying title pdfUrl :: history w
    ∧ (CREDIT_LIMIT cfg <= credits w ∨ api_key_set cfg = None ->
       (classifyPaper cfg env title pdfUrl w).2
       = record_event (Classifying title pdfUrl) w)
    ∧ (credits w < CREDIT_LIMIT cfg ->
       ∀ key printed,
         api_key_set cfg = Some key -> string_of title = Returned printed ->
         ∃ later', later
                   = later' ++ [Fetched (kgx3_request cfg key title pdfUrl)]).
Proof.
  destruct (classifyPaper_cases cfg env title pdfUrl w)
    as [[Hge Hr] | [(Hlt & Hnone & Hr) | [(Hlt & k & k0 & Hk & Hs & Hr)
                                         | [(Hlt & k & e' & Hk & _ & Hr)
                                           | (Hlt & k & o & Hk & _ & Hr)]]]];
    cbn zeta in Hr; rewrite Hr; cbn [snd].
  - exists []. split; [reflexivity|]. split; [reflexivity|]. lia.
  - exists []. split; [reflexivity|]. split; [reflexivity|].
    intros _ key printed Hkey. congruence.
  - exists []. split; [reflexivity|]. split.
    + intros [Hge | Hnone]; [lia | congruence].
    + intros _ key printed _ Hprinted. congruence.
  - exists [Fetched (kgx3_request cfg k title pdfUrl)].
    split; [reflexivity|]. split.
    + intros [Hge | Hnone]; [lia | congruence].
    + intros _ key printed Hkey _. exists [].
      assert (key = k) as -> by congruence. reflexivity.
  - unfold charged.
    destruct (saved_history cfg env
                (with_cache (with_creditsUsed (fun n => n + 1))
                   (asked cfg k title pdfUrl w))) as [done Hh].
    exists [Wrote (CACHE_FILE cfg) done;
            Fetched (kgx3_request cfg k title pdfUrl)].
    split; [rewrite Hh; reflexivity|]. split.
    + intros [Hge | Hnone]; [lia | congruence].
    + intros _ key printed Hkey _. exists [Wrote (CACHE_FILE cfg) done].
      assert (key = k) as -> by congruence. reflexivity.
Qed.

(** A call for a DOI without an entry starts with the metadata request. *)
Lemma processDoi_missing_history cfg env doi w :
  entries (cache w) !! doi = None ->
  ∃ later, history (processDoi cfg env doi w).2
           = later ++ Fetched (crossref_request cfg doi) :: history w.
Proof.
  intros Hnone. rewrite processDoi_world, processDoi_body_run.
  unfold resolve_metadata. rewrite Hnone. cbn [mbind option_bind].
  pose proof (fetchCrossrefMetadata_world cfg env doi w) as Hw.
  destruct (fetchCrossrefMetadata cfg env doi w) as [[md|e] w0];
    cbn [snd] in Hw; subst w0.
  2:{ exists []. reflexivity. }
  match goal with
  | |- context [saved ?c ?e ?x] =>
      destruct (saved_history c e x) as [done Hh]; set (w1 := saved c e x) in *
  end.
  cbn [history with_cache record_event] in Hh.
  destruct (negb (truthy (title md)));
    [exists [Wrote (CACHE_FILE cfg) done]; cbn [snd]; rewrite Hh; reflexivity|].
  destruct (negb (truthy (pdfUrl md)));
    [exists [Wrote (CACHE_FILE cfg) done]; cbn [snd]; rewrite Hh; reflexivity|].
  destruct (classifyPaper_history cfg env (title md) (pdfUrl md) w1)
    as (later & Hh2 & _).
  destruct (classifyPaper cfg env (title md) (pdfUrl md) w1) as [[cl|e] w2];
    cbn [snd] in Hh2.
  2:{ exists (later ++ [Classifying (title md) (pdfUrl md);
                        Wrote (CACHE_FILE cfg) done]).
      cbn [snd]. rewrite Hh2, Hh, <- app_assoc. reflexivity. }
  destruct (entries (cache w2) !! doi); cbn [snd].
  - match goal with
    | |- context [saved ?c ?e ?x] =>
        destruct (saved_history c e x) as [done' ->]
    end.
    cbn [history with_cache].
    exists (Wrote (CACHE_FILE cfg) done'
              :: later ++ [Classifying (title md) (pdfUrl md);
                           Wrote (CACHE_FILE cfg) done]).
    rewrite Hh2, Hh. cbn. rewrite <- app_assoc. reflexivity.
  - exists (later ++ [Classifying (title md) (pdfUrl md);
                      Wrote (CACHE_FILE cfg) done]).
    rewrite Hh2, Hh, <- app_assoc. reflexivity.
Qed.

(** A call for a DOI whose entry is not classified and has a title and a
    PDF URL goes through [classifyPaper], and adds at most a write after
    it. *)
Lemma processDoi_unclassified_history cfg env doi w entry :
  entries (cache w) !! doi = Some entry ->
  classification entry = None ->
  truthy (title (metadata entry)) = true ->
  truthy (pdfUrl (metadata entry)) = true ->
  ∃ later,
    history (processDoi cfg env doi w).2
    = later ++ history (classifyPaper cfg env (title (metadata entry))
                          (pdfUrl (metadata entry)) w).2
    ∧ ∀ e, (classifyPaper cfg env (title (metadata entry))
              (pdfUrl (metadata entry)) w).1 = Thrown e ->
           (processDoi cfg env doi w).2
           = (classifyPaper cfg env (title (metadata entry))
                (pdfUrl (metadata entry)) w).2.
Proof.
  intros Hentry Hcl Htitle Hpdf.
  rewrite processDoi_world, processDoi_body_run.
  unfold resolve_metadata. rewrite Hentry. cbn [mbind option_bind].
  rewrite Hcl, Htitle, Hpdf. cbn [negb].
  destruct (classifyPaper cfg env _ _ w) as [[cl|e] w2]; cbn [fst snd].
  2:{ exists []. split; reflexivity. }
  destruct (entries (cache w2) !! doi); cbn [snd].
  - match goal with
    | |- context [saved ?c ?e ?x] =>
        destruct (saved_history c e x) as [done' ->]
    end.
    exists [Wrote (CACHE_FILE cfg) done']. split; [reflexivity|].
    discriminate.
  - exists []. split; [reflexivity | discriminate].
Qed.

(** C3, as amended. If after a first [processDoi(doi)] the cache is settled
    for [doi] (its entry carries a classification, or metadata without a
    title or without a PDF URL), a second call performs no network call,
    leaves the world as it is and returns the same result; in particular,
    when the entry for [doi] already carries a classification, [processDoi]
    returns the badge mapped from it at once, with no network call.
    Failures are not remembered. A first call whose metadata request
    failed caches nothing, and the second call sends the metadata request
    again. A first call whose classification failed leaves the metadata
    cached without a classification, and the second call enters
    [classifyPaper] again: it sends the request to the service again when
    the counter is below the limit, the key is configured and the title
    can be printed, and it makes no network call when the limit is reached
    or the key is missing. *)
Theorem processDoi_twice cfg env doi w :
  (settled (cache (processDoi cfg env doi w).2) doi ->
   let first := processDoi cfg env doi w in
   let second := processDoi cfg env doi first.2 in
   second.1 = first.1
   ∧ network_calls second.2 = network_calls first.2
   ∧ second.2 = first.2)
  ∧ (∀ entry cl,
       entries (cache w) !! doi = Some entry ->
       classification entry = Some cl ->
       processDoi cfg env doi w = (Returned (badge_of cl), w))
  ∧ (∀ e,
       entries (cache w) !! doi = None ->
       (fetchCrossrefMetadata cfg env doi w).1 = Thrown e ->
       let first := processDoi cfg env doi w in
       let second := processDoi cfg env doi first.2 in
       first.1 = Returned None
       ∧ cache first.2 = cache w
       ∧ ∃ later, history second.2
                  = later ++ Fetched (crossref_request cfg doi)
                      :: history first.2)
  ∧ (∀ md w1 e,
       resolves cfg env doi w md w1 ->
       truthy (title md) = true ->
       truthy (pdfUrl md) = true ->
       (classifyPaper cfg env (title md) (pdfUrl md) w1).1 = Thrown e ->
       let first := processDoi cfg env doi w in
       let second := processDoi cfg env doi first.2 in
       first.1 = Returned None
       ∧ (∃ entry, entries (cache first.2) !! doi = Some entry
                   ∧ metadata entry = md ∧ classification entry = None)
       ∧ (∃ later, history second.2
                   = later ++ Classifying (title md) (pdfUrl md)
                       :: history first.2)
       ∧ (credits first.2 < CREDIT_LIMIT cfg ->
          ∀ key printed,
            api_key_set cfg = Some key ->
            string_of (title md) = Returned printed ->
            ∃ later,
              history second.2
              = later ++ Fetched (kgx3_request cfg key (title md) (pdfUrl md))
                  :: Classifying (title md) (pdfUrl md) :: history first.2)
       ∧ (CREDIT_LIMIT cfg <= credits first.2 ∨ api_key_set cfg = None ->
          network_calls second.2 = network_calls first.2)).
Proof.
  split; [|split; [|split]].
  - intros Hsettled. cbn zeta.
    rewrite (settled_run _ _ _ _ Hsettled). cbn [fst snd].
    rewrite <- processDoi_answer. auto.
  - intros entry cl Hentry Hcl.
    rewrite settled_run by (exists entry; split; [exact Hentry|];
                            left; rewrite Hcl; eauto).
    unfold cached_answer. rewrite Hentry. cbn. rewrite Hcl. reflexivity.
  - intros e Hnone Hfetch. cbn zeta.
    pose proof (fetchCrossrefMetadata_world cfg env doi w) as Hw.
    assert (processDoi cfg env doi w
            = (Returned None,
               record_event (Fetched (crossref_request cfg doi)) w)) as ->.
    { unfold processDoi, try_catch.
      rewrite processDoi_body_run, Hnone. cbn [mbind option_bind].
      unfold resolve_metadata. rewrite Hnone.
      destruct (fetchCrossrefMetadata cfg env doi w) as [o w0].
      cbn [fst snd] in *. subst o w0. reflexivity. }
    cbn [fst snd]. split; [reflexivity|]. split; [reflexivity|].
    apply processDoi_missing_history. exact Hnone.
  - intros md w1 e [Hmemo Hres] Htitle Hpdf Hthrown. cbn zeta.
    destruct (resolve_metadata_cache _ _ _ _ _ _ Hres)
      as (_ & _ & entry & Hentry & Hmd & Hcl & _).
    rewrite Hmemo in Hcl.
    pose proof (classifyPaper_entries cfg env (title md) (pdfUrl md) w1)
      as Hkeep.
    assert (processDoi cfg env doi w
            = (Returned None,
               (classifyPaper cfg env (title md) (pdfUrl md) w1).2)) as ->.
    { unfold processDoi, try_catch.
      rewrite processDoi_body_run, Hmemo, Hres, Htitle, Hpdf. cbn [negb].
      destruct (classifyPaper cfg env (title md) (pdfUrl md) w1) as [o w2].
      cbn [fst snd] in *. subst o. reflexivity. }
    cbn [fst snd].
    set (w2 := (classifyPaper cfg env (title md) (pdfUrl md) w1).2) in *.
    assert (entries (cache w2) !! doi = Some entry) as Hentry2
      by (rewrite Hkeep; exact Hentry).
    split; [reflexivity|]. split; [exists entry; auto|].
    destruct (processDoi_unclassified_history cfg env doi w2 entry Hentry2 Hcl)
      as (later & Hh & Hstop); [rewrite Hmd; auto..|].
    rewrite Hmd in Hh, Hstop.
    destruct (classifyPaper_history cfg env (title md) (pdfUrl md) w2)
      as (later2 & Hh2 & Hguard & Hsent).
    split; [|split].
    + exists (later ++ later2). rewrite Hh, Hh2, <- app_assoc. reflexivity.
    + intros Hlt key printed Hkey Hprinted.
      destruct (Hsent Hlt key printed Hkey Hprinted) as [later' ->].
      exists (later ++ later'). rewrite Hh, Hh2, <- !app_assoc. reflexivity.
    + intros Hno. specialize (Hguard Hno).
      assert (∃ e', (classifyPaper cfg env (title md) (pdfUrl md) w2).1
                    = Thrown e') as [e' He'].
      { destruct (classifyPaper_cases cfg env (title md) (pdfUrl md) w2)
          as [[_ Hr] | [(_ & _ & Hr) | [(Hlt & k & _ & Hk & _)
                                       | [(Hlt & k & _ & Hk & _)
                                         | (Hlt & k & _ & Hk & _)]]]];
          try (cbn zeta in Hr; rewrite Hr; eexists; reflexivity);
          destruct Hno; first [lia | congruence]. }
      rewrite (Hstop e' He'), Hguard.
      apply network_calls_record. reflexivity.
Qed.

Lemma processDoi_twice_witness :
  (let env := Scenario.scripted [Scenario.ok_json Scenario.work_with_pdf;
                                 Scenario.ok_json Scenario.normal_science] in
   let first := processDoi Scenario.cfg env "10.1000/xyz" Scenario.fresh in
   let second := processDoi Scenario.cfg env "10.1000/xyz" first.2 in
   first.1 = Returned (Some (OwnString "normal-science"))
   ∧ second.1 = first.1
   ∧ network_calls second.2 = network_calls first.2
   ∧ second.2 = first.2)
  ∧ (let env := Scenario.scripted [Scenario.ok_json Scenario.work_with_pdf;
                                   Scenario.server_error;
                                   Scenario.ok_json Scenario.normal_science] in
     let md := Scenario.sample_metadata
                 (Some (JStr "https://example.org/paper.pdf")) in
     let first := processDoi Scenario.cfg env "10.1000/xyz" Scenario.fresh in
     let second := processDoi Scenario.cfg env "10.1000/xyz" first.2 in
     first.1 = Returned None
     ∧ ∃ later,
         history second.2
         = later ++ Fetched (kgx3_request Scenario.cfg "secret" (title md)
                               (pdfUrl md))
             :: Classifying (title md) (pdfUrl md) :: history first.2)
  ∧ (let env := Scenario.scripted [Scenario.server_error;
                                   Scenario.ok_json Scenario.work_with_pdf] in
     let first := processDoi Scenario.cfg env "10.1000/xyz" Scenario.fresh in
     let second := processDoi Scenario.cfg env "10.1000/xyz" first.2 in
     first.1 = Returned None
     ∧ cache first.2 = cache Scenario.fresh
     ∧ ∃ later,
         history second.2
         = later ++ Fetched (crossref_request Scenario.cfg "10.1000/xyz")
             :: history first.2).
Proof.
  cbn zeta. split; [|split].
  - split; [reflexivity|].
    apply (processDoi_twice Scenario.cfg
             (Scenario.scripted [Scenario.ok_json Scenario.work_with_pdf;
                                 Scenario.ok_json Scenario.normal_science])
             "10.1000/xyz" Scenario.fresh).
    eexists. split; [vm_compute; reflexivity|].
    left. eexists. reflexivity.
  - pose (env := Scenario.scripted [Scenario.ok_json Scenario.work_with_pdf;
                                    Scenario.server_error;
                                    Scenario.ok_json Scenario.normal_science]).
    destruct (processDoi_twice Scenario.cfg env "10.1000/xyz" Scenario.fresh)
      as (_ & _ & _ & H).
    destruct (H (Scenario.sample_metadata
                   (Some (JStr "https://example.org/paper.pdf")))
                (resolve_metadata Scenario.cfg env "10.1000/xyz"
                   Scenario.fresh).2
                (Kgx3Status 500 "Internal Server Error"))
      as (Hfirst & _ & _ & Hsent & _).
    + split; reflexivity.
    + reflexivity.
    + reflexivity.
    + reflexivity.
    + split; [exact Hfirst|].
      apply (Hsent ltac:(vm_compute; reflexivity) "secret"
               "On the Structure of Revolutions"); reflexivity.
  - destruct (processDoi_twice Scenario.cfg
                (Scenario.scripted [Scenario.server_error;
                                    Scenario.ok_json Scenario.work_with_pdf])
                "10.1000/xyz" Scenario.fresh) as (_ & _ & H & _).
    apply (H (CrossrefStatus 500 "Internal Server Error")); reflexivity.
Defined.

(** C3, the claim as stated fails: the first call caches the metadata but
    the classification service answers 500; the cache holds an entry for
    the DOI after the first call, yet the second call goes to the network
    again and, the service now answering, returns a different result. *)
Lemma processDoi_twice_retries :
  let env := Scenario.scripted [Scenario.ok_json Scenario.work_with_pdf;
                                Scenario.server_error;
                                Scenario.ok_json Scenario.normal_science] in
  let first := processDoi Scenario.cfg env "10.1000/xyz" Scenario.fresh in
  let second := processDoi Scenario.cfg env "10.1000/xyz" first.2 in
  first.1 = Returned None
  ∧ (metadata <$> entries (cache first.2) !! "10.1000/xyz")
    = Some (Scenario.sample_metadata (Some (JStr "https://example.org/paper.pdf")))
  ∧ length (network_calls first.2) = 2%nat
  ∧ length (network_calls second.2) = 3%nat
  ∧ second.1 = Returned (Some (OwnString "normal-science")).
Proof. vm_compute. repeat split; reflexivity. Qed.

(** *** Cache keys *)

(** [processDoi doi] touches no entry other than the one under [doi]. *)
Lemma processDoi_frame cfg env doi w k :
  k ≠ doi ->
  entries (cache (processDoi cfg env doi w).2) !! k = entries (cache w) !! k.
Proof.
  intros Hk. rewrite processDoi_world, processDoi_body_run.
  destruct (entries (cache w) !! doi ≫= classification); [reflexivity|].
  destruct (resolve_metadata cfg env doi w) as [o w1] eqn:Hres.
  destruct (resolve_metadata_cache _ _ _ _ _ _ Hres) as (_ & _ & Hent).
  destruct o as [md|e].
  2:{ destruct Hent as [Hsame _]. cbn [snd]. rewrite Hsame. reflexivity. }
  destruct Hent as (entry & _ & _ & _ & Hframe).
  specialize (Hframe k Hk).
  destruct (negb (truthy (title md))); [exact Hframe|].
  destruct (negb (truthy (pdfUrl md))); [exact Hframe|].
  pose proof (classifyPaper_entries cfg env (title md) (pdfUrl md) w1) as Hkeep.
  destruct (classifyPaper cfg env (title md) (pdfUrl md) w1) as [[cl|e] w2];
    cbn [snd] in *.
  2:{ rewrite Hkeep. exact Hframe. }
  destruct (entries (cache w2) !! doi); cbn [snd].
  2:{ rewrite Hkeep. exact Hframe. }
  rewrite (proj1 (saved_cache _ _ _)). cbn.
  rewrite lookup_alter_ne by congruence. rewrite Hkeep. exact Hframe.
Qed.

Lemma run_processDoi_keys cfg env dois w k :
  is_Some (entries (cache (run_ops cfg env (map ProcessDoi dois) w)) !! k) ->
  k ∈ dois ∨ is_Some (entries (cache w) !! k).
Proof.
  revert w. induction dois as [|doi dois IH]; intros w Hk.
  - right. exact Hk.
  - cbn in Hk. apply IH in Hk as [Hin | Hk].
    + left. right. exact Hin.
    + destruct (decide (k = doi)) as [->|Hne]; [left; left|].
      right. rewrite processDoi_frame in Hk by exact Hne. exact Hk.
Qed.

(** C9, as amended. After any sequence of [processDoi] calls started from an
    empty cache, every key of the entries mapping is one of the [doi]
    arguments exactly as it was passed: [processDoi] does not change the
    case of its argument. Hence the keys are lower-case whenever every
    argument is, as the results of [extractDoi] are. *)
Theorem cache_keys_are_arguments cfg env dois w k :
  entries (cache w) = ∅ ->
  k ∈ dom (entries (cache (run_ops cfg env (map ProcessDoi dois) w))) ->
  k ∈ dois ∧ (Forall is_lowercase dois -> is_lowercase k).
Proof.
  intros Hempty Hk. apply elem_of_dom in Hk.
  apply run_processDoi_keys in Hk as [Hin | Hk].
  - split; [exact Hin|]. intros Hall.
    rewrite Forall_forall in Hall. apply Hall, Hin.
  - rewrite Hempty, lookup_empty in Hk. destruct Hk as [? [=]].
Qed.

Lemma cache_keys_are_arguments_witness :
  "10.1000/xyz" ∈ ["10.1000/xyz"; "10.1000/abc"]
  ∧ (Forall is_lowercase ["10.1000/xyz"; "10.1000/abc"] ->
     is_lowercase "10.1000/xyz").
Proof.
  apply (cache_keys_are_arguments Scenario.cfg
           (Scenario.scripted [Scenario.ok_json Scenario.work_without_pdf])
           ["10.1000/xyz"; "10.1000/abc"] Scenario.fresh "10.1000/xyz").
  - reflexivity.
  - apply elem_of_dom. eexists. vm_compute. reflexivity.
Defined.

(** C9, the claim as stated fails: [processDoi] called with an upper-case
    DOI on an empty cache stores the entry under that very string, which is
    not its own lower-case form. *)
Lemma processDoi_keeps_case :
  let w := (processDoi Scenario.cfg
              (Scenario.scripted [Scenario.ok_json Scenario.work_without_pdf])
              "10.1000/ABC" Scenario.fresh).2 in
  entries (cache Scenario.fresh) = ∅
  ∧ (doi <$> entries (cache w) !! "10.1000/ABC") = Some "10.1000/ABC"
  ∧ str (toLowerCase (chars "10.1000/ABC")) = "10.1000/abc"
  ∧ ¬ is_lowercase "10.1000/ABC".
Proof.
  cbn zeta. split; [reflexivity|]. split; [vm_compute; reflexivity|].
  split; [reflexivity|]. unfold is_lowercase. vm_compute. discriminate.
Qed.

(** ** Badge mapper *)

Lemma mapClassificationToBadge_labels :
  mapClassificationToBadge "Paradigm Shift" = Some (OwnString "paradigm-shift")
  ∧ mapClassificationToBadge "Model Revolution"
    = Some (OwnString "model-revolution")
  ∧ mapClassificationToBadge "Normal Science"
    = Some (OwnString "normal-science")
  ∧ mapClassificationToBadge "Model Crisis" = Some (OwnString "model-crisis")
  ∧ mapClassificationToBadge "Model Drift" = Some (OwnString "model-drift").
Proof. repeat split; reflexivity. Qed.

Lemma assoc_None k own :
  k ∉ map fst own -> assoc k own = None.
Proof.
  induction own as [|[k' v] own IH]; [reflexivity|].
  cbn. intros Hk. apply not_elem_of_cons in Hk as [Hne Hk].
  destruct (String.eqb_spec k' k); [congruence | auto].
Qed.

(** The cases of [tests/doi-processor.test.js]. *)
Example mapClassificationToBadge_tests :
  mapClassificationToBadge "Paradigm Shift" = Some (OwnString "paradigm-shift")
  ∧ mapClassificationToBadge "Unknown Classification" = None.
Proof. split; reflexivity. Qed.

(** Away from the five labels and from the names [Object.prototype]
    defines, the mapper answers [null]; on those names it answers the
    inherited member. *)
Lemma mapClassificationToBadge_others s :
  s ∉ map fst mapping ->
  mapClassificationToBadge s
  = if bool_decide (s ∈ object_prototype_keys)
    then Some (PrototypeMember s) else None.
Proof.
  intros Hs. unfold mapClassificationToBadge, literal_get.
  rewrite (assoc_None _ _ Hs). case_bool_decide; reflexivity.
Qed.

(** C6, where the code departs from the claim: for the string
    ["constructor"], which is none of the five labels,
    [mapClassificationToBadge] returns the member of [Object.prototype] of
    that name instead of [null] (and so for every other name defined there,
    ["toString"] among them); ["Not A Label"], the empty string and a label
    in another case do give [null]. *)
Theorem mapClassificationToBadge_inherited :
  mapClassificationToBadge "constructor" = Some (PrototypeMember "constructor")
  ∧ mapClassificationToBadge "toString" = Some (PrototypeMember "toString")
  ∧ mapClassificationToBadge "Not A Label" = None
  ∧ mapClassificationToBadge "" = None
  ∧ mapClassificationToBadge "model drift" = None.
Proof. repeat split; reflexivity. Qed.

(** ** Metadata client *)

(** The title of the metadata returned for a successful response is
    [work_title] of the work record of that response. *)
Lemma fetchCrossrefMetadata_title cfg env doi w md w' :
  fetchCrossrefMetadata cfg env doi w = (Returned md, w') ->
  ∃ r data work,
    network env (history w) (crossref_request cfg doi) = Resolved r
    ∧ ok r = true ∧ json r = Some data
    ∧ member (Some data) "message" = Returned (Some work)
    ∧ title md = work_title work.
Proof.
  unfold fetchCrossrefMetadata, fetch. unfold_monad. cbn.
  destruct (network env _ _) as [reason|resp]; cbn; [discriminate|].
  destruct (ok resp) eqn:Hok; cbn; [|discriminate].
  destruct (json resp) as [data|] eqn:Hjson; cbn; [|discriminate].
  destruct (member (Some data) "message") as [[work|]|] eqn:Hmsg; cbn;
    try discriminate.
  destruct (truthy _); cbn; [|discriminate].
  destruct (work_authors work); cbn; [|discriminate].
  destruct (work_pdfUrl work); cbn; [|discriminate].
  destruct (string_of (work_title work)); cbn; [|discriminate].
  intros [= <- <-]. exists resp, data, work. auto.
Qed.

Lemma work_title_cases work :
  (∀ x xs, prop work "title" = Some (JArr (x :: xs)) ->
           work_title work = Some x)
  ∧ (∀ s, prop work "title" = Some (JStr s) -> work_title work = Some (JStr s))
  ∧ (prop work "title" = None -> work_title work = Some (JStr ""))
  ∧ (prop work "title" = Some (JArr []) -> work_title work = undefined).
Proof.
  unfold work_title. repeat split.
  - intros x xs ->. reflexivity.
  - intros s ->. cbn. unfold js_or, truthy.
    destruct (String.eqb_spec s ""); subst; reflexivity.
  - intros ->. reflexivity.
  - intros ->. reflexivity.
Qed.

(** C8, where the code departs from the claim: for a successful registry
    response whose work record has the empty list as its title,
    [fetchCrossrefMetadata] returns metadata whose title is [undefined],
    not the empty string: [work.title[0]] is taken because the title is an
    array, and the [|| ''] fallback belongs to the other branch of the
    conditional. *)
Theorem fetchCrossrefMetadata_empty_title_list :
  (fetchCrossrefMetadata Scenario.cfg
     (Scenario.scripted [Scenario.ok_json Scenario.work_empty_title])
     "10.1000/xyz" Scenario.fresh).1
  = Returned {| title := undefined; pdfUrl := undefined; authors := [];
                journal := Some (JStr ""); year := undefined |}
  ∧ work_title (JObj [("title", JArr [])]) = undefined
  ∧ work_title (JObj []) = Some (JStr "")
  ∧ work_title (JObj [("title", JArr [JStr "A"; JStr "B"])]) = Some (JStr "A").
Proof. repeat split; reflexivity. Qed.

(** ** Classified entries *)

Lemma step_classified_with_pdf cfg env op w :
  classified_with_pdf (cache w) ->
  classified_with_pdf (cache (step cfg env op w)).
Proof.
  intros Hinv. destruct op as [doi | title pdfUrl | | ]; cbn [step].
  - intros k e Hk Hcl. destruct (decide (k = doi)) as [->|Hne].
    2:{ rewrite processDoi_frame in Hk by exact Hne. eauto. }
    revert Hk. rewrite processDoi_world, processDoi_body_run.
    destruct (entries (cache w) !! doi ≫= classification) eqn:Hmemo;
      [cbn [snd]; eauto|].
    destruct (resolve_metadata cfg env doi w) as [o w1] eqn:Hres.
    destruct (resolve_metadata_cache _ _ _ _ _ _ Hres) as (_ & _ & Hent).
    destruct o as [md|ex].
    2:{ destruct Hent as [Hsame _]. cbn [snd]. rewrite Hsame. eauto. }
    destruct Hent as (entry & Hentry & Hmd & Hnone & _).
    rewrite Hmemo in Hnone.
    assert (entries (cache w1) !! doi = Some e -> False) as Hunclassified.
    { rewrite Hentry. intros [= <-]. rewrite Hnone in Hcl.
      destruct Hcl as [? [=]]. }
    destruct (truthy (title md)) eqn:Htitle; cbn [negb];
      [|cbn [snd]; intros H; destruct (Hunclassified H)].
    destruct (truthy (pdfUrl md)) eqn:Hpdf; cbn [negb];
      [|cbn [snd]; intros H; destruct (Hunclassified H)].
    pose proof (classifyPaper_entries cfg env (title md) (pdfUrl md) w1)
      as Hkeep.
    destruct (classifyPaper cfg env (title md) (pdfUrl md) w1)
      as [[cl|ex] w2]; cbn [snd] in Hkeep.
    2:{ cbn [snd]. rewrite Hkeep. intros H. destruct (Hunclassified H). }
    rewrite Hkeep, Hentry. cbn [snd].
    rewrite (proj1 (saved_cache _ _ _)). cbn.
    rewrite lookup_alter_eq, Hkeep, Hentry. cbn. intros [= <-]. cbn.
    rewrite Hmd. auto.
  - intros k e. rewrite classifyPaper_entries. apply Hinv.
  - rewrite saveCache_run. cbn [snd].
    intros k e. rewrite (proj1 (saved_cache _ _ _)). apply Hinv.
  - exact Hinv.
Qed.

(** Every cache the pipeline builds from an empty one keeps its classified
    entries with a title and a PDF URL. *)
Lemma run_ops_classified_with_pdf cfg env ops w :
  entries (cache w) = ∅ ->
  classified_with_pdf (cache (run_ops cfg env ops w)).
Proof.
  intros Hempty.
  assert (classified_with_pdf (cache w)) as Hinv
    by (intros k e; rewrite Hempty, lookup_empty; discriminate).
  clear Hempty. revert w Hinv. unfold run_ops.
  induction ops as [|op ops IH]; intros w Hinv; [exact Hinv|].
  cbn. apply IH, step_classified_with_pdf, Hinv.
Qed.

(** In such a cache an entry without a PDF URL is never answered from the
    memoised path: [processDoi] resolves its metadata. *)
Lemma cached_without_pdf_resolves cfg env doi w e :
  classified_with_pdf (cache w) ->
  entries (cache w) !! doi = Some e ->
  truthy (pdfUrl (metadata e)) = false ->
  resolves cfg env doi w (metadata e) w.
Proof.
  intros Hinv Hentry Hpdf. unfold resolves, resolve_metadata.
  rewrite Hentry. cbn. split; [|reflexivity].
  destruct (classification e) as [cl|] eqn:Hcl; [|reflexivity].
  destruct (Hinv doi e Hentry) as [_ Hhas]; [rewrite Hcl; eauto|].
  congruence.
Qed.

(** * Further properties *)

(** ** DOI extraction, continued *)

Lemma chars_str l : chars (str l) = l.
Proof. apply list_ascii_of_string_of_list_ascii. Qed.

Lemma str_chars s : str (chars s) = s.
Proof. apply string_of_list_ascii_of_string. Qed.

Lemma lower_lower c : Chars.lower (Chars.lower c) = Chars.lower c.
Proof. each_char c. Qed.

Lemma lower_upper c : Chars.lower (Chars.upper c) = Chars.lower c.
Proof. each_char c. Qed.

Lemma upper_upper c : Chars.upper (Chars.upper c) = Chars.upper c.
Proof. each_char c. Qed.

Lemma digit_lower c : Chars.is_digit (Chars.lower c) = Chars.is_digit c.
Proof. each_char c. Qed.

Lemma digit_upper c : Chars.is_digit (Chars.upper c) = Chars.is_digit c.
Proof. each_char c. Qed.

Lemma suffix_char_lower c :
  doi_suffix_char (Chars.lower c) = doi_suffix_char c.
Proof. each_char c. Qed.

Lemma suffix_char_upper c :
  doi_suffix_char (Chars.upper c) = doi_suffix_char c.
Proof. each_char c. Qed.

Lemma toLowerCase_idem l : toLowerCase (toLowerCase l) = toLowerCase l.
Proof.
  unfold toLowerCase. rewrite map_map. apply map_ext. intros c.
  apply lower_lower.
Qed.

Lemma doi_shape_lower d : doi_shape d -> doi_shape (toLowerCase d).
Proof.
  intros (reg & suf & -> & Hlen & Hreg & Hne & Hsuf).
  exists (toLowerCase reg), (toLowerCase suf). unfold toLowerCase.
  rewrite !map_app, length_map. repeat split; try lia.
  - rewrite Forall_map. eapply Forall_impl; [exact Hreg|].
    intros c. cbn. rewrite digit_lower. auto.
  - destruct suf; [congruence | discriminate].
  - rewrite Forall_map. eapply Forall_impl; [exact Hsuf|].
    intros c. cbn. rewrite suffix_char_lower. auto.
Qed.

(** What [exec] returns was captured somewhere in the text. *)
Lemma exec_capture p text m :
  exec p text = Some m ->
  ∃ i, (i ≤ length text)%nat ∧ match_here p (drop i text) = Some m.
Proof. intros H. apply exec_Some in H as (i & Hi & Hm & _). eauto. Qed.

Lemma extractDoi_capture text d :
  extractDoi text = Some d ->
  ∃ pre m post,
    chars text = pre ++ m ++ post ∧ doi_shape m ∧ doi_ends post
    ∧ d = str (toLowerCase m).
Proof.
  unfold extractDoi.
  destruct (exec doiRegex (chars text)) as [m|] eqn:Hurl.
  - intros [= <-]. apply exec_capture in Hurl as (i & _ & Hm).
    apply url_match in Hm as (l & rest & E & _ & Hd & Hend).
    exists (take i (chars text) ++ l), m, rest.
    rewrite <- app_assoc, <- E, take_drop. auto.
  - destruct (exec directDoiRegex (chars text)) as [m|] eqn:Hbare;
      [|discriminate].
    intros [= <-]. apply exec_capture in Hbare as (i & _ & Hm).
    apply bare_match in Hm as (rest & E & Hd & Hend).
    exists (take i (chars text)), m, rest.
    rewrite <- E, take_drop. auto.
Qed.

(** X1. Whatever [extractDoi] returns is the lower-case form of a piece of
    the text that has the shape [10.NNNN/suffix] and is not continued by a
    suffix character; the result is itself in lower case and of that
    shape. *)
Theorem extractDoi_canonical text d :
  extractDoi text = Some d ->
  (∃ pre m post,
      chars text = pre ++ m ++ post ∧ doi_shape m ∧ doi_ends post
      ∧ d = str (toLowerCase m))
  ∧ is_lowercase d
  ∧ doi_shape (chars d).
Proof.
  intros H. pose proof (extractDoi_capture _ _ H)
    as (pre & m & post & E & Hm & Hend & ->).
  split; [eauto 8|]. split.
  - unfold is_lowercase. rewrite chars_str, toLowerCase_idem. reflexivity.
  - rewrite chars_str. apply doi_shape_lower, Hm.
Qed.

Lemma extractDoi_canonical_witness :
  is_lowercase "10.1038/nature12373" ∧ doi_shape (chars "10.1038/nature12373").
Proof.
  apply (extractDoi_canonical
           "See HTTPS://DOI.ORG/10.1038/Nature12373 for details"
           "10.1038/nature12373").
  vm_compute. reflexivity.
Defined.

(** A piece of DOI shape extends to one that is not continued. *)
Lemma doi_shape_extend d post :
  doi_shape d ->
  ∃ d' rest, d ++ post = d' ++ rest ∧ doi_shape d' ∧ doi_ends rest.
Proof.
  revert d. induction post as [|c post IH]; intros d Hd.
  - exists d, []. repeat split; auto.
  - destruct (doi_suffix_char c) eqn:Hc.
    + destruct (IH (d ++ [c])) as (d' & rest & E & Hd' & Hend).
      * destruct Hd as (reg & suf & -> & Hlen & Hreg & Hne & Hsuf).
        exists reg, (suf ++ [c]). rewrite <- !app_assoc.
        repeat split; try lia; auto.
        -- intros E. apply app_eq_nil in E as [_ [=]].
        -- apply Forall_app. split; [exact Hsuf | repeat constructor; exact Hc].
      * exists d', rest. rewrite <- E, <- app_assoc. auto.
    + exists d, (c :: post). repeat split; auto.
Qed.

(** X2. [extractDoi] finds a DOI exactly when the text contains a piece of
    the shape [10.NNNN/suffix]: it returns [null] for no other text. *)
Theorem extractDoi_finds text :
  (∃ pre d post, chars text = pre ++ d ++ post ∧ doi_shape d)
  ↔ is_Some (extractDoi text).
Proof.
  split.
  - intros (pre & d & post & E & Hd).
    destruct (doi_shape_extend d post Hd) as (d' & rest & E' & Hd' & Hend).
    assert (match_here directDoiRegex (drop (length pre) (chars text))
            = Some d') as Hm.
    { apply bare_match. exists rest. rewrite E, drop_app_length. auto. }
    unfold extractDoi.
    destruct (exec doiRegex (chars text)); [eauto|].
    destruct (exec directDoiRegex (chars text)) eqn:Hbare; [eauto|].
    rewrite exec_None in Hbare. rewrite Hbare in Hm; [discriminate|].
    rewrite E, length_app. lia.
  - intros [d H]. apply extractDoi_capture in H
      as (pre & m & post & E & Hm & _). eauto.
Qed.

Lemma extractDoi_finds_witness :
  is_Some (extractDoi "ref:10.1000/182.")
  ∧ ∃ pre d post, chars "x 10.5555/a" = pre ++ d ++ post ∧ doi_shape d.
Proof.
  split.
  - apply (extractDoi_finds "ref:10.1000/182.").
    exists (chars "ref:"), (chars "10.1000/182"), (chars ".").
    split; [reflexivity|].
    exists (chars "1000"), (chars "182").
    repeat split; cbn; try lia; try discriminate; repeat constructor.
  - apply (extractDoi_finds "x 10.5555/a"). eexists. vm_compute. reflexivity.
Defined.

(** *** Letter case *)

Lemma ci_eq_sym a b : ci_eq a b -> ci_eq b a.
Proof. unfold ci_eq. congruence. Qed.

Lemma ci_eq_trans a b c : ci_eq a b -> ci_eq b c -> ci_eq a c.
Proof. unfold ci_eq. congruence. Qed.

Lemma ci_eq_nil a : ci_eq a [] -> a = [].
Proof. destruct a; [reflexivity | discriminate]. Qed.

Lemma ci_eq_length a b : ci_eq a b -> length a = length b.
Proof.
  unfold ci_eq. intros E. apply (f_equal length) in E.
  rewrite !length_map in E. exact E.
Qed.

Lemma ci_eq_Forall (f : ascii -> bool) a b :
  (∀ c, f (Chars.upper c) = f c) ->
  ci_eq a b -> Forall (fun c => f c = true) b -> Forall (fun c => f c = true) a.
Proof.
  intros Hf. unfold ci_eq. revert b.
  induction a as [|x a IH]; intros [|y b] E Hb; try discriminate;
    [constructor|].
  cbn in E. injection E as Hx E. inversion Hb; subst.
  constructor; [|eauto]. rewrite <- Hf, Hx, Hf. assumption.
Qed.

Lemma toLowerCase_ci a b : ci_eq a b -> toLowerCase a = toLowerCase b.
Proof.
  unfold ci_eq, toLowerCase. intros E.
  rewrite <- (map_ext _ _ lower_upper a), <- (map_ext _ _ lower_upper b).
  rewrite <- !(map_map Chars.upper Chars.lower). f_equal. exact E.
Qed.

Lemma doi_shape_ci d d' : ci_eq d' d -> doi_shape d -> doi_shape d'.
Proof.
  intros E (reg & suf & -> & Hlen & Hreg & Hne & Hsuf).
  apply ci_eq_app_inv in E as (a & b & -> & Ha & E).
  apply ci_eq_app_inv in E as (reg' & c & -> & Hreg' & E).
  apply ci_eq_app_inv in E as (sl & suf' & -> & Hsl & Hsuf').
  apply ci_eq_fixed in Ha; [|repeat constructor]. subst a.
  apply ci_eq_fixed in Hsl; [|repeat constructor]. subst sl.
  exists reg', suf'. repeat split.
  - rewrite (ci_eq_length _ _ Hreg'). lia.
  - rewrite (ci_eq_length _ _ Hreg'). lia.
  - apply (ci_eq_Forall Chars.is_digit _ reg); auto using digit_upper.
  - intros ->. apply ci_eq_sym, ci_eq_nil in Hsuf'. congruence.
  - apply (ci_eq_Forall doi_suffix_char _ suf); auto using suffix_char_upper.
Qed.

Lemma doi_ends_ci r r' : ci_eq r' r -> doi_ends r -> doi_ends r'.
Proof.
  unfold ci_eq. destruct r' as [|c' r'], r as [|c r]; try discriminate; auto.
  cbn. intros [= Hc _] Hend.
  rewrite <- suffix_char_upper, Hc, suffix_char_upper. exact Hend.
Qed.

Lemma resolver_prefix_ci l l' :
  ci_eq l' l -> resolver_prefix l -> resolver_prefix l'.
Proof.
  intros E (scheme & dx & host & slash & -> & Hs & Hdx & Hhost & Hslash).
  apply ci_eq_app_inv in E as (scheme' & b & -> & Hs' & E).
  apply ci_eq_app_inv in E as (dx' & c & -> & Hdx' & E).
  apply ci_eq_app_inv in E as (host' & slash' & -> & Hhost' & Hslash').
  exists scheme', dx', host', slash'. repeat split.
  - destruct Hs as [-> | [Hs | Hs]];
      [left; apply ci_eq_nil, Hs' | right; left | right; right];
      eapply ci_eq_trans; eauto.
  - destruct Hdx as [-> | Hdx];
      [left; apply ci_eq_nil, Hdx' | right; eapply ci_eq_trans; eauto].
  - eapply ci_eq_trans; eauto.
  - destruct Hslash as [-> | Hslash];
      [left; apply ci_eq_nil, Hslash' | right; eapply ci_eq_trans; eauto].
Qed.

Lemma url_match_ci s1 s2 d :
  ci_eq s2 s1 -> match_here doiRegex s1 = Some d ->
  ∃ d', match_here doiRegex s2 = Some d' ∧ ci_eq d' d.
Proof.
  intros E Hm. apply url_match in Hm as (l & rest & -> & Hl & Hd & Hend).
  apply ci_eq_app_inv in E as (l' & b & -> & Hl' & E).
  apply ci_eq_app_inv in E as (d' & rest' & -> & Hd' & Hrest').
  exists d'. split; [|exact Hd']. apply url_match. exists l', rest'.
  split; [reflexivity|]. split; [eapply resolver_prefix_ci; eauto|].
  split; [eapply doi_shape_ci; eauto | eapply doi_ends_ci; eauto].
Qed.

Lemma bare_match_ci s1 s2 d :
  ci_eq s2 s1 -> match_here directDoiRegex s1 = Some d ->
  ∃ d', match_here directDoiRegex s2 = Some d' ∧ ci_eq d' d.
Proof.
  intros E Hm. apply bare_match in Hm as (rest & -> & Hd & Hend).
  apply ci_eq_app_inv in E as (d' & rest' & -> & Hd' & Hrest').
  exists d'. split; [|exact Hd']. apply bare_match. exists rest'.
  split; [reflexivity|].
  split; [eapply doi_shape_ci; eauto | eapply doi_ends_ci; eauto].
Qed.

Lemma exec_ci p s1 s2 :
  (∀ a b d, ci_eq b a -> match_here p a = Some d ->
            ∃ d', match_here p b = Some d' ∧ ci_eq d' d) ->
  ci_eq s1 s2 ->
  toLowerCase <$> exec p s1 = toLowerCase <$> exec p s2.
Proof.
  intros Hp. revert s2.
  assert (∀ a b, ci_eq a b ->
                 toLowerCase <$> match_here p a = toLowerCase <$> match_here p b
                 ∧ (match_here p a = None ↔ match_here p b = None)) as Hhere.
  { intros a b E.
    destruct (match_here p a) as [d|] eqn:Ha.
    - destruct (Hp a b d (ci_eq_sym _ _ E) Ha) as (d' & -> & Hd).
      cbn. split; [f_equal; symmetry; apply toLowerCase_ci, Hd|].
      split; discriminate.
    - destruct (match_here p b) as [d|] eqn:Hb; [|tauto].
      destruct (Hp b a d E Hb) as (d' & Hd' & _). congruence. }
  induction s1 as [|c s1 IH]; intros s2 E.
  - apply ci_eq_sym, ci_eq_nil in E. subst s2. reflexivity.
  - destruct s2 as [|c2 s2]; [discriminate|].
    destruct (Hhere _ _ E) as [Hsame Hnone]. cbn [exec].
    destruct (match_here p (c :: s1)) as [d|] eqn:Ha.
    + destruct (match_here p (c2 :: s2)) as [d2|] eqn:Hb; [exact Hsame|].
      discriminate.
    + destruct (match_here p (c2 :: s2)) as [d2|] eqn:Hb.
      * destruct Hnone as [Hnone _]. specialize (Hnone eq_refl). discriminate.
      * apply IH. unfold ci_eq in *. cbn in E. congruence.
Qed.

(** X3. [extractDoi] does not look at the case of letters: two texts that
    differ only in the case of ASCII letters give the same result. *)
Theorem extractDoi_ignores_case t1 t2 :
  ci_eq (chars t1) (chars t2) -> extractDoi t1 = extractDoi t2.
Proof.
  intros E. unfold extractDoi.
  pose proof (exec_ci doiRegex _ _ url_match_ci E) as Hurl.
  pose proof (exec_ci directDoiRegex _ _ bare_match_ci E) as Hbare.
  destruct (exec doiRegex (chars t1)), (exec doiRegex (chars t2));
    cbn in Hurl; try discriminate.
  - congruence.
  - destruct (exec directDoiRegex (chars t1)),
      (exec directDoiRegex (chars t2)); cbn in Hbare; try discriminate;
      congruence.
Qed.

Lemma extractDoi_ignores_case_witness :
  extractDoi "DOI.ORG/10.1038/NATURE12373" = extractDoi "doi.org/10.1038/nature12373".
Proof.
  apply (extractDoi_ignores_case "DOI.ORG/10.1038/NATURE12373"
           "doi.org/10.1038/nature12373").
  reflexivity.
Defined.

(** ** Badge mapper, continued *)

Lemma assoc_elem k v own : assoc k own = Some v -> (k, v) ∈ own.
Proof.
  induction own as [|[k' v'] own IH]; [discriminate|]. cbn.
  destruct (String.eqb_spec k' k) as [->|Hne].
  - intros [= ->]. left.
  - intros H. right. auto.
Qed.

Lemma mapping_elem s b :
  (s, b) ∈ mapping ->
  assoc s mapping = Some b ∧ negb (String.eqb b "") = true.
Proof.
  unfold mapping. intros H.
  repeat (apply elem_of_cons in H as [[= -> ->] | H]; [split; reflexivity|]).
  inversion H.
Qed.

(** X4. For a string that is not the name of a member of
    [Object.prototype], [mapClassificationToBadge] is the exact, case
    sensitive lookup in the table of five labels: it returns the badge of
    the label the string is equal to, and [null] when it is equal to
    none. *)
Theorem mapClassificationToBadge_exact s :
  s ∉ object_prototype_keys ->
  mapClassificationToBadge s = OwnString <$> assoc s mapping
  ∧ (∀ b, mapClassificationToBadge s = Some (OwnString b) ↔ (s, b) ∈ mapping)
  ∧ (mapClassificationToBadge s = None ↔ s ∉ map fst mapping).
Proof.
  intros Hs.
  assert (mapClassificationToBadge s = OwnString <$> assoc s mapping) as Heq.
  { unfold mapClassificationToBadge, literal_get.
    destruct (assoc s mapping) as [b|] eqn:Ha.
    - apply assoc_elem, mapping_elem in Ha as [_ Hb].
      cbn. rewrite Hb. reflexivity.
    - rewrite bool_decide_eq_false_2 by exact Hs. reflexivity. }
  split; [exact Heq|]. rewrite Heq. split.
  - intros b. split.
    + destruct (assoc s mapping) as [b'|] eqn:Ha; [|discriminate].
      intros [= <-]. apply assoc_elem, Ha.
    + intros Hb. apply mapping_elem in Hb as [-> _]. reflexivity.
  - split.
    + destruct (assoc s mapping) as [b'|] eqn:Ha; [discriminate|].
      intros _ Hin. apply list_elem_of_fmap in Hin as ([s' b] & -> & Hin).
      apply mapping_elem in Hin as [Hin _]. cbn [fst] in Ha. congruence.
    + intros Hnot. rewrite (assoc_None _ _ Hnot). reflexivity.
Qed.

Lemma mapClassificationToBadge_exact_witness :
  mapClassificationToBadge "Model Crisis" = Some (OwnString "model-crisis")
  ∧ mapClassificationToBadge "MODEL CRISIS" = None.
Proof.
  split.
  - apply (mapClassificationToBadge_exact "Model Crisis").
    + apply (bool_decide_eq_false_1 _). reflexivity.
    + apply (bool_decide_eq_true_1 _). reflexivity.
  - apply (mapClassificationToBadge_exact "MODEL CRISIS").
    + apply (bool_decide_eq_false_1 _). reflexivity.
    + apply (bool_decide_eq_false_1 _). reflexivity.
Defined.

(** ** Metadata client, continued *)

Lemma hex_digit_unreserved c :
  uri_unreserved (Chars.hex_digit (Chars.code c / 16)) = true
  ∧ uri_unreserved (Chars.hex_digit (Chars.code c mod 16)) = true.
Proof. each_char c; split; reflexivity. Qed.

(** X5. The DOI is percent-encoded into the request path: every character
    of [encodeURIComponent s] is an unreserved one or [%], so no [/], [?],
    [#] or blank of the DOI reaches the URL; a string of unreserved
    characters is left as it is. *)
Theorem encodeURIComponent_safe s :
  Forall (fun c => uri_unreserved c = true ∨ c = "%"%char)
         (chars (encodeURIComponent s))
  ∧ (Forall (fun c => uri_unreserved c = true) (chars s) ->
     encodeURIComponent s = s).
Proof.
  unfold encodeURIComponent. rewrite chars_str. split.
  - induction (chars s) as [|c l IH]; [constructor|].
    cbn. apply Forall_app. split; [|exact IH].
    destruct (uri_unreserved c) eqn:Hc.
    + constructor; [left; exact Hc | constructor].
    + destruct (hex_digit_unreserved c) as [Hhi Hlo].
      constructor; [right; reflexivity|].
      constructor; [left; exact Hhi|].
      constructor; [left; exact Hlo | constructor].
  - intros Hall. rewrite <- (str_chars s) at 2. f_equal.
    induction Hall as [|c l Hc Hall IH]; [reflexivity|].
    cbn. rewrite Hc, IH. reflexivity.
Qed.

Lemma encodeURIComponent_safe_witness :
  encodeURIComponent "10.1038_nature12373" = "10.1038_nature12373".
Proof.
  apply (encodeURIComponent_safe "10.1038_nature12373").
  repeat constructor.
Defined.

(** X6. Whatever the registry answers, [fetchCrossrefMetadata] issues
    exactly one request, the GET of the work record of the encoded DOI, and
    leaves the cache, the stored document and the credit counter alone; it
    does not enter [classifyPaper]. *)
Theorem fetchCrossrefMetadata_effect cfg env doi w :
  let w' := (fetchCrossrefMetadata cfg env doi w).2 in
  history w' = Fetched (crossref_request cfg doi) :: history w
  ∧ method (crossref_request cfg doi) = "GET"
  ∧ url (crossref_request cfg doi)
    = "https://api.crossref.org/works/" +:+ encodeURIComponent doi
  ∧ cache w' = cache w ∧ file w' = file w
  ∧ fetch_count w' = S (fetch_count w)
  ∧ classifier_calls w' = classifier_calls w.
Proof.
  cbn zeta. rewrite fetchCrossrefMetadata_world.
  repeat split.
Qed.

(** X7. How [fetchCrossrefMetadata] fails: a rejected fetch is rethrown as
    it is, a non-success status gives the status error whatever the body,
    a body that is not JSON gives the parse error, and a JSON body without
    a truthy [message] gives the no-work-data error. *)
Theorem fetchCrossrefMetadata_failures cfg env doi w :
  (∀ reason,
      network env (history w) (crossref_request cfg doi) = Rejected reason ->
      (fetchCrossrefMetadata cfg env doi w).1 = Thrown (FetchFailed reason))
  ∧ (∀ r,
        network env (history w) (crossref_request cfg doi) = Resolved r ->
        ok r = false ->
        (fetchCrossrefMetadata cfg env doi w).1
        = Thrown (CrossrefStatus (status r) (statusText r)))
  ∧ (∀ r,
        network env (history w) (crossref_request cfg doi) = Resolved r ->
        ok r = true -> json r = None ->
        (fetchCrossrefMetadata cfg env doi w).1 = Thrown JsonSyntaxError)
  ∧ (∀ r data,
        network env (history w) (crossref_request cfg doi) = Resolved r ->
        ok r = true -> json r = Some data -> data ≠ JNull ->
        truthy (prop data "message") = false ->
        (fetchCrossrefMetadata cfg env doi w).1 = Thrown NoWorkData).
Proof.
  unfold fetchCrossrefMetadata, fetch. unfold_monad. cbn. repeat split.
  - intros reason ->. reflexivity.
  - intros r -> ->. reflexivity.
  - intros r -> -> ->. reflexivity.
  - intros r data -> -> -> Hdata Hmsg. cbn. unfold member.
    destruct data; try congruence; cbn in *; try reflexivity.
    destruct (field "message" fields) as [work|]; [|reflexivity].
    rewrite Hmsg. reflexivity.
Qed.

Lemma fetchCrossrefMetadata_failures_witness :
  (fetchCrossrefMetadata Scenario.cfg (Scenario.scripted []) "10.1000/xyz"
     Scenario.fresh).1 = Thrown (FetchFailed "network down")
  ∧ (fetchCrossrefMetadata Scenario.cfg
       (Scenario.scripted [Scenario.server_error]) "10.1000/xyz"
       Scenario.fresh).1
    = Thrown (CrossrefStatus 500 "Internal Server Error")
  ∧ (fetchCrossrefMetadata Scenario.cfg
       (Scenario.scripted [Scenario.ok_json (JObj [])]) "10.1000/xyz"
       Scenario.fresh).1 = Thrown NoWorkData.
Proof.
  split; [|split].
  - apply (fetchCrossrefMetadata_failures Scenario.cfg (Scenario.scripted [])
             "10.1000/xyz" Scenario.fresh). reflexivity.
  - destruct (fetchCrossrefMetadata_failures Scenario.cfg
                (Scenario.scripted [Scenario.server_error])
                "10.1000/xyz" Scenario.fresh) as (_ & H & _).
    exact (H {| ok := false; status := 500;
                statusText := "Internal Server Error"; json := None |}
             eq_refl eq_refl).
  - destruct (fetchCrossrefMetadata_failures Scenario.cfg
                (Scenario.scripted [Scenario.ok_json (JObj [])])
                "10.1000/xyz" Scenario.fresh) as (_ & _ & _ & H).
    apply (H {| ok := true; status := 200; statusText := "OK";
                json := Some (JObj []) |} (JObj []));
      [reflexivity.. | discriminate | reflexivity].
Defined.

Lemma member_defined j k : j ≠ JNull -> member (Some j) k = Returned (prop j k).
Proof. unfold member. destruct j; congruence. Qed.

Lemma pdf_link_truthy link :
  strict_eq_str (prop link "content-type") "application/pdf" = true ->
  link ≠ JNull ∧ truthy (Some link) = true.
Proof. destruct link; cbn; try discriminate. split; [discriminate | reflexivity]. Qed.

Lemma find_pdf_link_first pre pdf post :
  Forall not_pdf_link pre ->
  strict_eq_str (prop pdf "content-type") "application/pdf" = true ->
  find_pdf_link (pre ++ pdf :: post) = Returned (Some pdf).
Proof.
  intros Hpre Hpdf. induction Hpre as [|l pre [Hl Hct] Hpre IH]; cbn.
  - rewrite member_defined by (apply pdf_link_truthy, Hpdf). cbn.
    rewrite Hpdf. reflexivity.
  - rewrite member_defined by exact Hl. cbn. rewrite Hct. exact IH.
Qed.

Lemma find_pdf_link_none links :
  Forall not_pdf_link links ->
  find_pdf_link links = Returned undefined.
Proof.
  intros Hall. induction Hall as [|l links [Hl Hct] Hall IH]; [reflexivity|].
  cbn. rewrite member_defined by exact Hl. cbn. rewrite Hct. exact IH.
Qed.

Lemma find_pdf_link_null pre post :
  Forall not_pdf_link pre ->
  find_pdf_link (pre ++ JNull :: post) = Thrown (TypeError "content-type").
Proof.
  intros Hpre. induction Hpre as [|l pre [Hl Hct] Hpre IH]; [reflexivity|].
  cbn. rewrite member_defined by exact Hl. cbn. rewrite Hct. exact IH.
Qed.

(** X8. The PDF URL of the metadata is the [URL] of the first entry of
    [work.link] whose [content-type] is exactly [application/pdf]; entries
    after it are not looked at. It is [undefined] when no entry declares a
    PDF or [link] is not an array, and the call fails with a TypeError when
    a [null] entry stands before the first PDF entry. *)
Theorem work_pdfUrl_first work :
  (∀ pre pdf post,
      prop work "link" = Some (JArr (pre ++ pdf :: post)) ->
      Forall not_pdf_link pre ->
      strict_eq_str (prop pdf "content-type") "application/pdf" = true ->
      work_pdfUrl work = Returned (prop pdf "URL"))
  ∧ (∀ links,
        prop work "link" = Some (JArr links) -> Forall not_pdf_link links ->
        work_pdfUrl work = Returned undefined)
  ∧ (isArray (prop work "link") = false ->
     work_pdfUrl work = Returned undefined)
  ∧ (∀ pre post,
        prop work "link" = Some (JArr (pre ++ JNull :: post)) ->
        Forall not_pdf_link pre ->
        work_pdfUrl work = Thrown (TypeError "content-type")).
Proof.
  unfold work_pdfUrl. repeat split.
  - intros pre pdf post -> Hpre Hpdf.
    rewrite (find_pdf_link_first _ _ _ Hpre Hpdf). cbn.
    destruct (pdf_link_truthy _ Hpdf) as [Hnull ->].
    apply member_defined, Hnull.
  - intros links -> Hall. rewrite (find_pdf_link_none _ Hall). reflexivity.
  - destruct (prop work "link") as [[]|]; cbn; try reflexivity. discriminate.
  - intros pre post -> Hpre. rewrite (find_pdf_link_null _ _ Hpre).
    reflexivity.
Qed.

Lemma work_pdfUrl_first_witness :
  work_pdfUrl
    (JObj [("link",
            JArr [JObj [("content-type", JStr "text/html");
                        ("URL", JStr "https://example.org/a.html")];
                  JObj [("content-type", JStr "application/pdf");
                        ("URL", JStr "https://example.org/a.pdf")];
                  JNull])])
  = Returned (Some (JStr "https://example.org/a.pdf"))
  ∧ work_pdfUrl (JObj [("link", JStr "https://example.org/a.pdf")])
    = Returned undefined.
Proof.
  split.
  - destruct (work_pdfUrl_first
                (JObj [("link",
                        JArr [JObj [("content-type", JStr "text/html");
                                    ("URL", JStr "https://example.org/a.html")];
                              JObj [("content-type", JStr "application/pdf");
                                    ("URL", JStr "https://example.org/a.pdf")];
                              JNull])])) as (H & _).
    apply (H [JObj [("content-type", JStr "text/html");
                    ("URL", JStr "https://example.org/a.html")]]
             (JObj [("content-type", JStr "application/pdf");
                    ("URL", JStr "https://example.org/a.pdf")])
             [JNull]).
    + reflexivity.
    + repeat constructor. discriminate.
    + reflexivity.
  - apply (work_pdfUrl_first (JObj [("link", JStr "https://example.org/a.pdf")])).
    reflexivity.
Defined.

(** *** Authors, journal and year *)

Lemma trim_start_head l :
  head (trim_start l) ≫= (fun c => if Chars.is_space c then Some c else None)
  = None.
Proof.
  remember (length l) as n eqn:Hn. revert l Hn.
  induction n as [n IH] using lt_wf_ind. intros l ->.
  destruct l as [|a l1]; [reflexivity|]. cbn [trim_start].
  destruct (Chars.is_space a) eqn:Ha; [eapply IH; [|reflexivity]; cbn; lia|].
  destruct l1 as [|b l2]; [cbn; rewrite Ha; reflexivity|].
  destruct (Chars.is_space2 a b);
    [eapply IH; [|reflexivity]; cbn; lia|].
  destruct l2 as [|c l3]; [cbn; rewrite Ha; reflexivity|].
  destruct (Chars.is_space3 a b c);
    [eapply IH; [|reflexivity]; cbn; lia|].
  cbn. rewrite Ha. reflexivity.
Qed.

Lemma trim_end_rev_head l :
  head (trim_end_rev l) ≫= (fun c => if Chars.is_space c then Some c else None)
  = None.
Proof.
  remember (length l) as n eqn:Hn. revert l Hn.
  induction n as [n IH] using lt_wf_ind. intros l ->.
  destruct l as [|c l1]; [reflexivity|]. cbn [trim_end_rev].
  destruct (Chars.is_space c) eqn:Hc; [eapply IH; [|reflexivity]; cbn; lia|].
  destruct l1 as [|b l2]; [cbn; rewrite Hc; reflexivity|].
  destruct (Chars.is_space2 b c);
    [eapply IH; [|reflexivity]; cbn; lia|].
  destruct l2 as [|a l3]; [cbn; rewrite Hc; reflexivity|].
  destruct (Chars.is_space3 a b c);
    [eapply IH; [|reflexivity]; cbn; lia|].
  cbn. rewrite Hc. reflexivity.
Qed.

(** Trimming the end leaves a front part of the string. *)
Lemma trim_end_rev_suffix l : ∃ dropped, l = dropped ++ trim_end_rev l.
Proof.
  remember (length l) as n eqn:Hn. revert l Hn.
  induction n as [n IH] using lt_wf_ind. intros l ->.
  destruct l as [|c l1]; [exists []; reflexivity|]. cbn [trim_end_rev].
  destruct (Chars.is_space c).
  { destruct (IH (length l1) ltac:(cbn; lia) l1 eq_refl) as [d Hd].
    exists (c :: d). cbn. rewrite <- Hd. reflexivity. }
  destruct l1 as [|b l2]; [exists []; reflexivity|].
  destruct (Chars.is_space2 b c).
  { destruct (IH (length l2) ltac:(cbn; lia) l2 eq_refl) as [d Hd].
    exists (c :: b :: d). cbn. rewrite <- Hd. reflexivity. }
  destruct l2 as [|a l3]; [exists []; reflexivity|].
  destruct (Chars.is_space3 a b c).
  { destruct (IH (length l3) ltac:(cbn; lia) l3 eq_refl) as [d Hd].
    exists (c :: b :: a :: d). cbn. rewrite <- Hd. reflexivity. }
  exists []. reflexivity.
Qed.

Lemma last_rev (l : list ascii) : last (rev l) = head l.
Proof. destruct l as [|c l]; [reflexivity|]. cbn. apply last_snoc. Qed.

Lemma trim_trimmed s : trimmed (trim s).
Proof.
  unfold trimmed, trim. rewrite chars_str.
  set (front := trim_start (chars s)).
  set (back := trim_end_rev (rev front)).
  split.
  - assert (head (rev back) = last back) as ->
      by (rewrite <- (last_rev (rev back)), rev_involutive; reflexivity).
    destruct (trim_end_rev_suffix (rev front)) as [dropped Hd].
    fold back in Hd. clearbody back.
    destruct back as [|y ys]; [reflexivity|].
    assert (last (y :: ys) = last (rev front)) as ->.
    { rewrite Hd, last_app. destruct (last (y :: ys)) eqn:Hl; [reflexivity|].
      apply last_None in Hl. discriminate. }
    rewrite last_rev. apply trim_start_head.
  - rewrite last_rev. apply trim_end_rev_head.
Qed.

Lemma author_name_trimmed author name :
  author_name author = Returned name -> trimmed name.
Proof.
  unfold author_name. unfold mbind, Outcome_bind, mret, Outcome_ret.
  destruct (member (Some author) "given") as [given|]; [|discriminate].
  destruct (string_of _) as [g|]; [|discriminate].
  destruct (member (Some author) "family") as [family|]; [|discriminate].
  destruct (string_of _) as [f|]; [|discriminate].
  intros [= <-]. apply trim_trimmed.
Qed.

Lemma map_throwing_names xs names :
  map_throwing author_name xs = Returned names ->
  length names = length xs ∧ Forall trimmed names.
Proof.
  revert names. induction xs as [|x xs IH]; intros names; cbn.
  - intros [= <-]. split; [reflexivity | constructor].
  - destruct (author_name x) as [name|] eqn:Hname; cbn; [|discriminate].
    destruct (map_throwing author_name xs) as [rest|]; cbn; [|discriminate].
    intros [= <-]. destruct (IH rest eq_refl) as [Hlen Hall].
    split; [cbn; congruence|].
    constructor; [eapply author_name_trimmed; eauto | exact Hall].
Qed.

(** The fields of the metadata returned for a successful response are
    those computed from the work record of that response. *)
Lemma fetchCrossrefMetadata_returned cfg env doi w md w' :
  fetchCrossrefMetadata cfg env doi w = (Returned md, w') ->
  ∃ r data work,
    network env (history w) (crossref_request cfg doi) = Resolved r
    ∧ json r = Some data ∧ prop data "message" = Some work
    ∧ title md = work_title work
    ∧ work_authors work = Returned (authors md)
    ∧ work_pdfUrl work = Returned (pdfUrl md)
    ∧ journal md = work_journal work
    ∧ year md = work_year work
    ∧ ∃ printed, string_of (title md) = Returned printed.
Proof.
  unfold fetchCrossrefMetadata, fetch. unfold_monad. cbn.
  destruct (network env _ _) as [reason|resp]; cbn; [discriminate|].
  destruct (ok resp); cbn; [|discriminate].
  destruct (json resp) as [data|] eqn:Hjson; cbn; [|discriminate].
  destruct (member (Some data) "message") as [[work|]|] eqn:Hmsg; cbn;
    try discriminate.
  destruct (truthy _); cbn; [|discriminate].
  destruct (work_authors work) as [names|] eqn:Hnames; cbn; [|discriminate].
  destruct (work_pdfUrl work) as [pdf|] eqn:Hpdf; cbn; [|discriminate].
  destruct (string_of (work_title work)) as [printed|] eqn:Hprinted; cbn;
    [|discriminate].
  intros [= <- <-]. exists resp, data, work. cbn.
  repeat split; eauto.
  unfold member in Hmsg. destruct data; congruence.
Qed.




(** ** Counting network calls *)

Lemma fetch_count_record e w :
  is_fetch e = false -> fetch_count (record_event e w) = fetch_count w.
Proof. intros He. unfold fetch_count. rewrite network_calls_record; auto. Qed.

Lemma fetch_count_fetched req w :
  fetch_count (record_event (Fetched req) w) = S (fetch_count w).
Proof.
  unfold fetch_count, network_calls.
  change (history (record_event (Fetched req) w)) with (Fetched req :: history w).
  rewrite filter_cons_True by reflexivity. reflexivity.
Qed.

Lemma fetch_count_with_cache f w :
  fetch_count (with_cache f w) = fetch_count w.
Proof. reflexivity. Qed.

Lemma fetch_count_saved cfg env w :
  fetch_count (saved cfg env w) = fetch_count w.
Proof.
  unfold fetch_count, network_calls.
  destruct (saved_history cfg env w) as [done ->].
  rewrite filter_cons_False by (cbn; congruence). reflexivity.
Qed.

Lemma fetch_count_asked cfg key title pdfUrl w :
  fetch_count (asked cfg key title pdfUrl w) = S (fetch_count w).
Proof.
  unfold asked. rewrite fetch_count_fetched, fetch_count_record by reflexivity.
  reflexivity.
Qed.

Lemma credits_charged cfg env w : credits (charged cfg env w) = credits w + 1.
Proof. unfold charged. rewrite (proj2 (saved_cache _ _ _)). reflexivity. Qed.

Lemma saved_in_sync cfg env w :
  writable env (history w) = true -> in_sync (saved cfg env w).
Proof. unfold in_sync, saved. intros ->. reflexivity. Qed.

(** ** Classification client, continued *)

(** X10. When the counter is a safe integer below the limit, a key is
    configured, the title can be printed and the service answers a success
    status with a JSON body other than [null] whose [classification] can
    be printed (the logging calls print both), [classifyPaper] returns the
    [classification] and [confidence] of the body as they are (no check
    against the known labels, any number as confidence), has made exactly
    one network call, has counted exactly one credit, has left the entries
    alone, and has persisted the cache before returning when the write
    goes through. *)
Theorem classifyPaper_success cfg env title pdfUrl w key r result printed
    label :
  is_safe_integer (credits w) ->
  credits w < CREDIT_LIMIT cfg ->
  api_key_set cfg = Some key ->
  string_of title = Returned printed ->
  network env (Classifying title pdfUrl :: history w)
          (kgx3_request cfg key title pdfUrl) = Resolved r ->
  ok r = true -> json r = Some result -> result ≠ JNull ->
  string_of (prop result "classification") = Returned label ->
  (classifyPaper cfg env title pdfUrl w).1
  = Returned (Classification.mk (prop result "classification")
                                (prop result "confidence"))
  ∧ credits (classifyPaper cfg env title pdfUrl w).2 = credits w + 1
  ∧ entries (cache (classifyPaper cfg env title pdfUrl w).2)
    = entries (cache w)
  ∧ fetch_count (classifyPaper cfg env title pdfUrl w).2
    = S (fetch_count w)
  ∧ (writable env (history (asked cfg key title pdfUrl w)) = true ->
     in_sync (classifyPaper cfg env title pdfUrl w).2).
Proof.
  intros _ Hlt Hkey Htitle Hnet Hok Hjson Hres Hlabel.
  assert (classifyPaper cfg env title pdfUrl w
          = (Returned (Classification.mk (prop result "classification")
                                         (prop result "confidence")),
             charged cfg env (asked cfg key title pdfUrl w))) as ->.
  { unfold classifyPaper, credits, fetch, asked, charged in *.
    unfold_monad. cbn.
    destruct (Z.geb_spec (creditsUsed (cache w)) (CREDIT_LIMIT cfg)); [lia|].
    rewrite Hkey. cbn. rewrite Htitle. cbn. rewrite Hnet. cbn.
    rewrite Hok. cbn. rewrite Hjson. cbn. rewrite saveCache_run.
    rewrite !(member_defined _ _ Hres). cbn. rewrite Hlabel. reflexivity. }
  cbn [fst snd]. split; [reflexivity|].
  split; [rewrite credits_charged; reflexivity|].
  split; [unfold charged; rewrite (proj1 (saved_cache _ _ _)); reflexivity|].
  split.
  { unfold charged. rewrite fetch_count_saved, fetch_count_with_cache.
    apply fetch_count_asked. }
  intros Hw. apply saved_in_sync. exact Hw.
Qed.

Lemma classifyPaper_success_witness :
  (classifyPaper Scenario.cfg
     (Scenario.scripted
        [Scenario.ok_json
           (JObj [("classification", JStr "Model Drift");
                  ("confidence", JReal "0.93")])])
     (Some (JStr "A title")) undefined Scenario.fresh).1
  = Returned (Classification.mk (Some (JStr "Model Drift"))
                                (Some (JReal "0.93"))).
Proof.
  apply (classifyPaper_success Scenario.cfg
           (Scenario.scripted
              [Scenario.ok_json
                 (JObj [("classification", JStr "Model Drift");
                        ("confidence", JReal "0.93")])])
           (Some (JStr "A title")) undefined Scenario.fresh "secret"
           {| ok := true; status := 200; statusText := "OK";
              json := Some (JObj [("classification", JStr "Model Drift");
                                  ("confidence", JReal "0.93")]) |}
           (JObj [("classification", JStr "Model Drift");
                  ("confidence", JReal "0.93")])
           "A title" "Model Drift"); try reflexivity.
  - vm_compute. split; discriminate.
  - discriminate.
Defined.

Lemma classifyPaper_account cfg env title pdfUrl w o w' :
  classifyPaper cfg env title pdfUrl w = (o, w') ->
  (credits w' = credits w ∨ credits w' = credits w + 1)
  ∧ (fetch_count w' = fetch_count w ∨ fetch_count w' = S (fetch_count w))
  ∧ (credits w' = credits w + 1 -> fetch_count w' = S (fetch_count w))
  ∧ (∀ cl, o = Returned cl ->
           credits w' = credits w + 1 ∧ credits w < CREDIT_LIMIT cfg)
  ∧ entries (cache w') = entries (cache w).
Proof.
  intros Hrun.
  pose proof (classifyPaper_entries cfg env title pdfUrl w) as Hentries.
  rewrite Hrun in Hentries. cbn [snd] in Hentries.
  destruct (classifyPaper_cases cfg env title pdfUrl w)
    as [[_ Hr] | [(_ & _ & Hr) | [(_ & k & k0 & _ & _ & Hr)
                                 | [(_ & k & e' & _ & _ & Hr)
                                 | (Hlt & k & o' & _ & _ & Hr)]]]];
    cbn zeta in Hr; rewrite Hr in Hrun; injection Hrun as <- <-.
  - rewrite fetch_count_record by reflexivity.
    split; [left; reflexivity|]. split; [left; reflexivity|].
    split; [unfold credits; cbn; lia|]. split; [discriminate | exact Hentries].
  - rewrite fetch_count_record by reflexivity.
    split; [left; reflexivity|]. split; [left; reflexivity|].
    split; [unfold credits; cbn; lia|]. split; [discriminate | exact Hentries].
  - rewrite fetch_count_record by reflexivity.
    split; [left; reflexivity|]. split; [left; reflexivity|].
    split; [unfold credits; cbn; lia|]. split; [discriminate | exact Hentries].
  - rewrite fetch_count_asked.
    split; [left; reflexivity|]. split; [right; reflexivity|].
    split; [reflexivity|]. split; [discriminate | exact Hentries].
  - assert (fetch_count (charged cfg env (asked cfg k title pdfUrl w))
            = S (fetch_count w)) as ->
      by (unfold charged; rewrite fetch_count_saved, fetch_count_with_cache;
          apply fetch_count_asked).
    rewrite credits_charged.
    assert (credits (asked cfg k title pdfUrl w) = credits w) as ->
      by reflexivity.
    split; [right; reflexivity|]. split; [right; reflexivity|].
    split; [reflexivity|]. split; [auto | exact Hentries].
Qed.

(** X11. A call of [classifyPaper] makes at most one network call and
    never touches the entries of the cache; the counter moves only
    together with a network call, and a classification is returned only
    when the counter was below the limit. When the counter is a safe
    integer, the call spends at most one credit, and exactly one whenever
    it returns a classification. *)
Theorem classifyPaper_spends cfg env title pdfUrl w o w' :
  classifyPaper cfg env title pdfUrl w = (o, w') ->
  (fetch_count w' = fetch_count w ∨ fetch_count w' = S (fetch_count w))
  ∧ entries (cache w') = entries (cache w)
  ∧ (credits w' ≠ credits w -> fetch_count w' = S (fetch_count w))
  ∧ (∀ cl, o = Returned cl -> credits w < CREDIT_LIMIT cfg)
  ∧ (is_safe_integer (credits w) ->
     (credits w' = credits w ∨ credits w' = credits w + 1)
     ∧ ∀ cl, o = Returned cl -> credits w' = credits w + 1).
Proof.
  intros Hrun.
  destruct (classifyPaper_account _ _ _ _ _ _ _ Hrun)
    as (Hc & Hf & Hcf & Hpaid & He).
  split; [exact Hf|]. split; [exact He|]. split.
  { intros Hne. apply Hcf. destruct Hc; [contradiction | assumption]. }
  split; [intros cl Hcl; apply (Hpaid cl Hcl)|].
  intros _. split; [exact Hc|]. intros cl Hcl. apply (Hpaid cl Hcl).
Qed.

Lemma classifyPaper_spends_witness :
  credits (classifyPaper Scenario.cfg
             (Scenario.scripted [Scenario.ok_json Scenario.normal_science])
             (Some (JStr "A title")) undefined (Scenario.spent 1)).2
  = 1 + 1.
Proof.
  edestruct (classifyPaper_spends Scenario.cfg
               (Scenario.scripted [Scenario.ok_json Scenario.normal_science])
               (Some (JStr "A title")) undefined (Scenario.spent 1))
    as (_ & _ & _ & _ & H).
  - reflexivity.
  - destruct H as [_ H]; [vm_compute; split; discriminate|].
    apply (H _ eq_refl).
Defined.

(** ** The cache as a document *)

Lemma mapM_strings (names : list string) :
  mapM (fun x => as_string (Some x)) (JStr <$> names) = Some names.
Proof.
  induction names as [|name names IH]; [reflexivity|].
  cbn. cbn in IH. rewrite IH. reflexivity.
Qed.

Lemma entry_of_to_json e : entry_of_json (entry_to_json e) = Some e.
Proof.
  destruct e as [d [[t|] [p|] names [j|] [y|]] [[[c|] [f|]]|] stamp];
    unfold entry_of_json, entry_to_json, metadata_of_json, metadata_to_json,
      classification_of_json, classification_to_json, prop;
    cbn; rewrite mapM_strings; reflexivity.
Qed.

Lemma entries_of_to_json (m : gmap string CacheEntry) :
  entries_of_json (prod_map id entry_to_json <$> map_to_list m) = Some m.
Proof.
  unfold entries_of_json.
  assert (entry_of_json
            <$> (list_to_map
                   (reverse (prod_map id entry_to_json <$> map_to_list m))
                 : gmap string Json)
          = Some <$> m) as ->.
  { rewrite <- (list_to_map_proper
                  (prod_map id entry_to_json <$> map_to_list m)).
    - rewrite list_to_map_fmap, list_to_map_to_list, <- map_fmap_compose.
      apply map_fmap_ext. intros k e _. apply entry_of_to_json.
    - rewrite <- list_fmap_compose.
      rewrite (list_fmap_ext _ fst (map_to_list m))
        by (intros ? [? ?]; reflexivity).
      apply NoDup_fst_map_to_list.
    - symmetry. apply reverse_Permutation. }
  destruct (decide _) as [_|Hno].
  - f_equal. apply map_eq. intros k.
    rewrite lookup_omap, lookup_fmap. destruct (m !! k); reflexivity.
  - exfalso. apply Hno. intros k o. rewrite lookup_fmap.
    destruct (m !! k); intros [= <-]. eauto.
Qed.

(** What [JSON.parse] makes of the document [JSON.stringify] wrote: the
    cache without the entry under [__proto__]. *)
Lemma cache_of_to_json c :
  cache_of_json (cache_to_json c) = Some (with_entries (delete "__proto__") c).
Proof.
  unfold cache_of_json, cache_to_json, prop. cbn.
  rewrite entries_of_to_json. reflexivity.
Qed.

Lemma without_proto c :
  entries c !! "__proto__" = None -> with_entries (delete "__proto__") c = c.
Proof.
  intros Hnone. destruct c as [es n t]. unfold with_entries. cbn in *.
  rewrite delete_id by exact Hnone. reflexivity.
Qed.

Lemma in_sync_stored w :
  in_sync w ->
  stored_cache w = Some (with_entries (delete "__proto__") (cache w)).
Proof.
  unfold in_sync, stored_cache. intros ->. apply cache_of_to_json.
Qed.

(** ** Cache store, continued *)

(** X12. [saveCache] never throws, whether the write goes through or not.
    It stamps [lastUpdated] with the current time and changes nothing else
    of the cache; when the write goes through, the stored document is the
    one [JSON.stringify] makes of the cache in memory. *)
Theorem saveCache_swallows cfg env w :
  (saveCache cfg env w).1 = Returned tt
  ∧ entries (cache (saveCache cfg env w).2) = entries (cache w)
  ∧ credits (saveCache cfg env w).2 = credits w
  ∧ lastUpdated (cache (saveCache cfg env w).2) = clock env (history w)
  ∧ (writable env (history w) = true -> in_sync (saveCache cfg env w).2).
Proof.
  rewrite saveCache_run. cbn [fst snd].
  destruct (saved_cache cfg env w) as [He Hc].
  repeat split; auto.
  - unfold saved. destruct (writable env (history w)); reflexivity.
  - apply saved_in_sync.
Qed.

Lemma saveCache_swallows_witness :
  in_sync (saveCache Scenario.cfg (Scenario.scripted []) (Scenario.spent 1)).2.
Proof.
  apply (saveCache_swallows Scenario.cfg (Scenario.scripted [])
           (Scenario.spent 1)).
  reflexivity.
Defined.

(** ** Loading the cache *)



(** X14. [loadCache] never throws. With no file at [CACHE_FILE] it keeps
    the cache in memory and writes it out, so that the file is there after
    a first run; when an existing file cannot be read it changes nothing
    at all. *)
Theorem loadCache_edges cfg env readable w :
  (loadCache cfg env readable w).1 = Returned tt
  ∧ (file w = None ->
     entries (cache (loadCache cfg env readable w).2) = entries (cache w)
     ∧ credits (loadCache cfg env readable w).2 = credits w
     ∧ (writable env (history w) = true ->
        in_sync (loadCache cfg env readable w).2))
  ∧ (is_Some (file w) -> readable (history w) = false ->
     (loadCache cfg env readable w).2 = w).
Proof.
  unfold loadCache, readFile. destruct (file w) as [data|] eqn:Hfile.
  - destruct (readable (history w)) eqn:Hr; cbn.
    + split; [|split; [discriminate | discriminate]].
      destruct data as [doc|]; [|reflexivity].
      destruct (cache_of_json doc); reflexivity.
    + split; [reflexivity|]. split; [discriminate | reflexivity].
  - rewrite saveCache_run. cbn [fst snd].
    destruct (saved_cache cfg env w) as [He Hc].
    split; [reflexivity|]. split.
    + intros _. repeat split; auto. apply saved_in_sync.
    + intros [? [=]].
Qed.

Lemma loadCache_edges_witness :
  in_sync (loadCache Scenario.cfg (Scenario.scripted []) (fun _ => true)
             Scenario.fresh).2
  ∧ (loadCache Scenario.cfg (Scenario.scripted []) (fun _ => false)
       {| cache := empty_cache "2024-06-01T00:00:00.000Z";
          file := Some (Document (cache_to_json (cache (Scenario.spent 2))));
          history := [] |}).2
    = {| cache := empty_cache "2024-06-01T00:00:00.000Z";
         file := Some (Document (cache_to_json (cache (Scenario.spent 2))));
         history := [] |}.
Proof.
  split.
  - apply (loadCache_edges Scenario.cfg (Scenario.scripted []) (fun _ => true)
             Scenario.fresh); reflexivity.
  - apply (loadCache_edges Scenario.cfg (Scenario.scripted []) (fun _ => false)
             {| cache := empty_cache "2024-06-01T00:00:00.000Z";
                file := Some (Document
                                (cache_to_json (cache (Scenario.spent 2))));
                history := [] |});
      [eexists|]; reflexivity.
Defined.

(** ** Orchestrator, continued *)

Lemma alter_as_insert (f : CacheEntry -> CacheEntry) k e
    (m : gmap string CacheEntry) :
  m !! k = Some e -> alter f k m = <[k := f e]> m.
Proof.
  intros Hk. apply map_eq. intros i. rewrite lookup_alter, lookup_insert.
  case_decide; subst; [rewrite Hk; reflexivity | reflexivity].
Qed.

(** Step 2 of [processDoi], with what it costs. *)
Lemma resolve_metadata_shape cfg env doi w o w1 :
  resolve_metadata cfg env doi w = (o, w1) ->
  credits w1 = credits w
  ∧ (fetch_count w ≤ fetch_count w1 ≤ fetch_count w + 1)%nat
  ∧ ((∀ h, writable env h = true) -> in_sync w -> in_sync w1)
  ∧ match entries (cache w) !! doi with
    | Some e => o = Returned (metadata e) ∧ w1 = w
    | None =>
        match o with
        | Returned md =>
            ∃ t, entries (cache w1)
                 = <[doi := {| doi := doi; metadata := md;
                               classification := None; processedAt := t |}]>
                     (entries (cache w))
        | Thrown _ => entries (cache w1) = entries (cache w)
        end
    end.
Proof.
  unfold resolve_metadata.
  destruct (entries (cache w) !! doi) as [e|] eqn:Hdoi.
  - intros [= <- <-]. repeat split; auto; lia.
  - pose proof (fetchCrossrefMetadata_world cfg env doi w) as Hw.
    destruct (fetchCrossrefMetadata cfg env doi w) as [[md|ex] w0];
      cbn in Hw; subst w0; intros [= <- <-].
    + rewrite (proj2 (saved_cache _ _ _)), fetch_count_saved,
        fetch_count_with_cache, fetch_count_fetched.
      split; [reflexivity|]. split; [lia|]. split.
      * intros Hwr _. apply saved_in_sync, Hwr.
      * eexists. rewrite (proj1 (saved_cache _ _ _)). reflexivity.
    + rewrite fetch_count_fetched. repeat split; auto; lia.
Qed.

(** The three things a call of [processDoi] can do to the entries: nothing,
    add the entry of a DOI that had none, or classify an entry that was not
    classified. *)
Lemma processDoi_shape cfg env doi w :
  (credits w <= credits (processDoi cfg env doi w).2 <= credits w + 1)
  ∧ (fetch_count w ≤ fetch_count (processDoi cfg env doi w).2
     ≤ fetch_count w + 2)%nat
  ∧ ((∀ h, writable env h = true) -> in_sync w ->
     in_sync (processDoi cfg env doi w).2)
  ∧ (entries (cache (processDoi cfg env doi w).2) = entries (cache w)
     ∨ (entries (cache w) !! doi = None
        ∧ ∃ md t ocl,
            entries (cache (processDoi cfg env doi w).2)
            = <[doi := {| doi := doi; metadata := md; classification := ocl;
                          processedAt := t |}]> (entries (cache w))
            ∧ ∀ cl, ocl = Some cl ->
                    truthy (title md) = true ∧ truthy (pdfUrl md) = true
                    ∧ credits (processDoi cfg env doi w).2 = credits w + 1
                    ∧ credits w < CREDIT_LIMIT cfg)
     ∨ (∃ e cl,
           entries (cache w) !! doi = Some e ∧ classification e = None
           ∧ truthy (title (metadata e)) = true
           ∧ truthy (pdfUrl (metadata e)) = true
           ∧ entries (cache (processDoi cfg env doi w).2)
             = <[doi := with_classification cl e]> (entries (cache w))
           ∧ credits (processDoi cfg env doi w).2 = credits w + 1
           ∧ credits w < CREDIT_LIMIT cfg)).
Proof.
  rewrite processDoi_world, processDoi_body_run.
  destruct (entries (cache w) !! doi ≫= classification) as [cl0|] eqn:Hmemo.
  { cbn [snd]. repeat split; auto; lia. }
  destruct (resolve_metadata cfg env doi w) as [o w1] eqn:Hres.
  destruct (resolve_metadata_shape _ _ _ _ _ _ Hres)
    as (Hc1 & Hf1 & Hs1 & Hshape).
  assert (entries (cache w1) = entries (cache w)
          ∨ (entries (cache w) !! doi = None
             ∧ ∃ md t, o = Returned md
                       ∧ entries (cache w1)
                         = <[doi := {| doi := doi; metadata := md;
                                       classification := None;
                                       processedAt := t |}]>
                             (entries (cache w)))) as Hstep2.
  { destruct (entries (cache w) !! doi) as [e|].
    - destruct Hshape as [_ ->]. left. reflexivity.
    - destruct o as [md|ex]; [|left; exact Hshape].
      destruct Hshape as [t Ht]. right. split; [reflexivity|]. eauto. }
  destruct o as [md|ex].
  2:{ cbn [snd]. split; [lia|]. split; [lia|]. split; [exact Hs1|].
      destruct Hstep2 as [H | (_ & md & t & [=] & _)]. left. exact H. }
  assert (entries (cache w1) = entries (cache w)
          ∨ (entries (cache w) !! doi = None
             ∧ ∃ md' t ocl,
                 entries (cache w1)
                 = <[doi := {| doi := doi; metadata := md';
                               classification := ocl; processedAt := t |}]>
                     (entries (cache w))
                 ∧ ∀ cl, ocl = Some cl ->
                         truthy (title md') = true ∧ truthy (pdfUrl md') = true
                         ∧ credits w1 = credits w + 1
                         ∧ credits w < CREDIT_LIMIT cfg)
          ∨ (∃ e cl,
                entries (cache w) !! doi = Some e ∧ classification e = None
                ∧ truthy (title (metadata e)) = true
                ∧ truthy (pdfUrl (metadata e)) = true
                ∧ entries (cache w1)
                  = <[doi := with_classification cl e]> (entries (cache w))
                ∧ credits w1 = credits w + 1
                ∧ credits w < CREDIT_LIMIT cfg)) as Hunclassified.
  { destruct Hstep2 as [H | (Hn & md' & t & _ & H)]; [left; exact H|].
    right. left. split; [exact Hn|]. exists md', t, None.
    split; [exact H | discriminate]. }
  destruct (truthy (title md)) eqn:Htitle; cbn [negb].
  2:{ cbn [snd]. split; [lia|]. split; [lia|]. split; [exact Hs1|].
      exact Hunclassified. }
  destruct (truthy (pdfUrl md)) eqn:Hpdf; cbn [negb].
  2:{ cbn [snd]. split; [lia|]. split; [lia|]. split; [exact Hs1|].
      exact Hunclassified. }
  clear Hunclassified.
  destruct (classifyPaper cfg env (title md) (pdfUrl md) w1) as [o2 w2]
    eqn:Hclassify.
  destruct (classifyPaper_account _ _ _ _ _ _ _ Hclassify)
    as (Hc2 & Hf2 & _ & Hpaid & He2).
  assert ((∀ h, writable env h = true) -> in_sync w -> in_sync w2) as Hs2.
  { intros Hwr Hsync. specialize (Hs1 Hwr Hsync).
    destruct (classifyPaper_cases cfg env (title md) (pdfUrl md) w1)
      as [[_ Hr] | [(_ & _ & Hr) | [(_ & k & k0 & _ & _ & Hr)
                                   | [(_ & k & e' & _ & _ & Hr)
                                   | (_ & k & o' & _ & _ & Hr)]]]];
      cbn zeta in Hr; rewrite Hr in Hclassify; injection Hclassify as _ <-;
      try exact Hs1.
    apply saved_in_sync, Hwr. }
  destruct o2 as [cl|ex].
  2:{ cbn [snd]. split; [lia|]. split; [lia|]. split; [exact Hs2|].
      rewrite He2.
      destruct Hstep2 as [H | (Hn & md' & t & _ & H)]; [left; exact H|].
      right. left. split; [exact Hn|]. exists md', t, None.
      split; [exact H | discriminate]. }
  destruct (Hpaid cl eq_refl) as [Hplus Hlim].
  destruct (entries (cache w2) !! doi) as [entry|] eqn:Hentry; cbn [snd].
  2:{ split; [lia|]. split; [lia|]. split; [exact Hs2|]. rewrite He2.
      destruct Hstep2 as [H | (Hn & md' & t & _ & H)]; [left; exact H|].
      rewrite He2, H, lookup_insert_eq in Hentry. discriminate. }
  rewrite (proj2 (saved_cache _ _ _)), fetch_count_saved,
    fetch_count_with_cache, (proj1 (saved_cache _ _ _)).
  change (credits (with_cache ?f w2)) with (credits w2).
  split; [lia|]. split; [lia|].
  split; [intros Hwr _; apply saved_in_sync, Hwr|].
  cbn [cache with_cache entries with_entries].
  rewrite (alter_as_insert _ _ _ _ Hentry). rewrite He2 in Hentry |- *.
  destruct (entries (cache w) !! doi) as [e|] eqn:Hdoi.
  - destruct Hshape as [[= ->] ->]. rewrite Hdoi in Hentry.
    injection Hentry as <-. right. right. exists e, cl.
    cbn in Hmemo.
    repeat split; auto; lia.
  - destruct Hshape as [t Ht]. rewrite Ht in Hentry |- *.
    rewrite lookup_insert_eq in Hentry. injection Hentry as <-.
    rewrite insert_insert_eq. right. left. split; [reflexivity|].
    exists md, t, (Some cl). split; [reflexivity|].
    intros cl' _. repeat split; auto; lia.
Qed.

(** *** The branches of one call *)

(** X15. Past the memoised path, metadata without a title ends
    [processDoi] with [null] in the world metadata resolution left:
    [classifyPaper] is not entered, no credit is spent, and the entry that
    stays behind settles every later call for the same DOI. *)
Theorem processDoi_no_title cfg env doi w md w1 :
  resolves cfg env doi w md w1 ->
  truthy (title md) = false ->
  processDoi cfg env doi w = (Returned None, w1)
  ∧ classifier_calls w1 = classifier_calls w
  ∧ credits w1 = credits w
  ∧ settled (cache w1) doi.
Proof.
  intros [Hmemo Hres] Htitle. split.
  - unfold processDoi, try_catch.
    rewrite processDoi_body_run, Hmemo, Hres, Htitle. reflexivity.
  - destruct (resolve_metadata_cache _ _ _ _ _ _ Hres)
      as (Hc & Hk & e & He & Hmd & _).
    split; [exact Hk|]. split; [exact Hc|].
    exists e. split; [exact He|]. right. left. rewrite Hmd. exact Htitle.
Qed.

Lemma processDoi_no_title_witness :
  let env := Scenario.scripted [Scenario.ok_json Scenario.work_empty_title] in
  let r := processDoi Scenario.cfg env "10.1000/xyz" Scenario.fresh in
  r.1 = Returned None
  ∧ classifier_calls r.2 = []
  ∧ settled (cache r.2) "10.1000/xyz".
Proof.
  cbn zeta.
  destruct (processDoi_no_title Scenario.cfg
              (Scenario.scripted [Scenario.ok_json Scenario.work_empty_title])
              "10.1000/xyz" Scenario.fresh
              {| title := undefined; pdfUrl := undefined; authors := [];
                 journal := Some (JStr ""); year := undefined |}
              (resolve_metadata Scenario.cfg
                 (Scenario.scripted
                    [Scenario.ok_json Scenario.work_empty_title])
                 "10.1000/xyz" Scenario.fresh).2)
    as (Hrun & Hcalls & _ & Hsettled).
  - split; reflexivity.
  - reflexivity.
  - rewrite Hrun. cbn [fst snd]. split; [reflexivity|].
    split; [exact Hcalls | exact Hsettled].
Defined.

(** X16. Past the memoised path, with a title, a PDF URL and a
    classification returned by [classifyPaper], [processDoi] answers the
    badge of that classification; the entry for the DOI then holds the
    resolved metadata together with the classification, exactly one credit
    has been spent (the counter being a safe integer), and a further call
    for the same DOI gives the same answer without changing anything. *)
Theorem processDoi_classifies cfg env doi w md w1 cl w2 :
  is_safe_integer (credits w) ->
  resolves cfg env doi w md w1 ->
  truthy (title md) = true ->
  truthy (pdfUrl md) = true ->
  classifyPaper cfg env (title md) (pdfUrl md) w1 = (Returned cl, w2) ->
  ∃ w', processDoi cfg env doi w = (Returned (badge_of cl), w')
        ∧ (∃ e, entries (cache w') !! doi = Some e
                ∧ metadata e = md ∧ classification e = Some cl)
        ∧ credits w' = credits w + 1
        ∧ processDoi cfg env doi w' = (Returned (badge_of cl), w').
Proof.
  intros _ [Hmemo Hres] Htitle Hpdf Hclassify.
  destruct (resolve_metadata_cache _ _ _ _ _ _ Hres)
    as (Hc & _ & e & He & Hmd & _).
  destruct (classifyPaper_account _ _ _ _ _ _ _ Hclassify)
    as (_ & _ & _ & Hpaid & He2).
  destruct (Hpaid cl eq_refl) as [Hplus _].
  eexists. split.
  { unfold processDoi, try_catch.
    rewrite processDoi_body_run, Hmemo, Hres, Htitle, Hpdf. cbn [negb].
    rewrite Hclassify, He2, He. reflexivity. }
  assert (entries
            (cache
               (saved cfg env
                  (with_cache
                     (with_entries (alter (with_classification cl) doi)) w2)))
            !! doi = Some (with_classification cl e)) as Hfinal.
  { rewrite (proj1 (saved_cache _ _ _)).
    cbn [cache with_cache entries with_entries].
    rewrite lookup_alter_eq, He2, He. reflexivity. }
  split; [exists (with_classification cl e); auto|].
  split.
  { rewrite (proj2 (saved_cache _ _ _)).
    change (credits (with_cache ?f w2)) with (credits w2). lia. }
  rewrite settled_run
    by (exists (with_classification cl e); split; [exact Hfinal|];
        left; cbn; eauto).
  unfold cached_answer. rewrite Hfinal. reflexivity.
Qed.

Lemma processDoi_classifies_witness :
  let env := Scenario.scripted [Scenario.ok_json Scenario.work_with_pdf;
                                Scenario.ok_json Scenario.normal_science] in
  ∃ w', processDoi Scenario.cfg env "10.1000/xyz" Scenario.fresh
        = (Returned (Some (OwnString "normal-science")), w')
        ∧ credits w' = 1
        ∧ processDoi Scenario.cfg env "10.1000/xyz" w'
          = (Returned (Some (OwnString "normal-science")), w').
Proof.
  cbn zeta.
  pose (env := Scenario.scripted [Scenario.ok_json Scenario.work_with_pdf;
                                  Scenario.ok_json Scenario.normal_science]).
  pose (md := Scenario.sample_metadata
                (Some (JStr "https://example.org/paper.pdf"))).
  pose (w1 := (resolve_metadata Scenario.cfg env "10.1000/xyz"
                 Scenario.fresh).2).
  destruct (processDoi_classifies Scenario.cfg env "10.1000/xyz"
              Scenario.fresh md w1
              (Classification.mk (Some (JStr "Normal Science"))
                                 (Some (JNum 1)))
              (classifyPaper Scenario.cfg env (title md) (pdfUrl md) w1).2)
    as (w' & Hrun & _ & Hcredits & Hagain).
  - vm_compute. split; discriminate.
  - split; reflexivity.
  - reflexivity.
  - reflexivity.
  - reflexivity.
  - exists w'. split; [exact Hrun|]. split; [exact Hcredits|]. exact Hagain.
Defined.

(** X17. Once the credit limit is reached, [processDoi] for a DOI that
    still needs a classification enters [classifyPaper] but sends nothing to
    the classifier: it answers [null], spends nothing, and the metadata it
    resolved stays cached without a classification. *)
Theorem processDoi_credit_limit cfg env doi w md w1 :
  resolves cfg env doi w md w1 ->
  truthy (title md) = true ->
  truthy (pdfUrl md) = true ->
  CREDIT_LIMIT cfg <= credits w ->
  ∃ w', processDoi cfg env doi w = (Returned None, w')
        ∧ network_calls w' = network_calls w1
        ∧ cache w' = cache w1
        ∧ file w' = file w1
        ∧ credits w' = credits w
        ∧ ∃ e, entries (cache w') !! doi = Some e
               ∧ metadata e = md ∧ classification e = None.
Proof.
  intros [Hmemo Hres] Htitle Hpdf Hlimit.
  destruct (resolve_metadata_cache _ _ _ _ _ _ Hres)
    as (Hc & _ & e & He & Hmd & Hcl & _).
  destruct (classifyPaper_cases cfg env (title md) (pdfUrl md) w1)
    as [[_ Hr] | [(Hlt & _) | [(Hlt & _) | [(Hlt & _) | (Hlt & _)]]]];
    try lia.
  cbn zeta in Hr.
  exists (record_event (Classifying (title md) (pdfUrl md)) w1). split.
  { unfold processDoi, try_catch.
    rewrite processDoi_body_run, Hmemo, Hres, Htitle, Hpdf. cbn [negb].
    rewrite Hr. reflexivity. }
  split; [apply network_calls_record; reflexivity|].
  split; [reflexivity|]. split; [reflexivity|]. split; [exact Hc|].
  exists e. rewrite Hcl, Hmemo. auto.
Qed.

Lemma processDoi_credit_limit_witness :
  let env := Scenario.scripted [Scenario.ok_json Scenario.work_with_pdf;
                                Scenario.ok_json Scenario.normal_science] in
  ∃ w', processDoi Scenario.cfg env "10.1000/xyz" (Scenario.spent 2)
        = (Returned None, w')
        ∧ fetch_count w' = 1%nat
        ∧ credits w' = 2.
Proof.
  cbn zeta.
  pose (env := Scenario.scripted [Scenario.ok_json Scenario.work_with_pdf;
                                  Scenario.ok_json Scenario.normal_science]).
  destruct (processDoi_credit_limit Scenario.cfg env "10.1000/xyz"
              (Scenario.spent 2)
              (Scenario.sample_metadata
                 (Some (JStr "https://example.org/paper.pdf")))
              (resolve_metadata Scenario.cfg env "10.1000/xyz"
                 (Scenario.spent 2)).2)
    as (w' & Hrun & Hcalls & _ & _ & Hcredits & _).
  - split; reflexivity.
  - reflexivity.
  - reflexivity.
  - vm_compute. discriminate.
  - exists w'. split; [exact Hrun|]. split; [|exact Hcredits].
    unfold fetch_count. rewrite Hcalls. reflexivity.
Defined.





(** ** Invariants of the cache *)

Lemma classifyPaper_in_sync cfg env title pdfUrl w :
  (∀ h, writable env h = true) ->
  in_sync w -> in_sync (classifyPaper cfg env title pdfUrl w).2.
Proof.
  intros Hwr Hsync.
  destruct (classifyPaper_cases cfg env title pdfUrl w)
    as [[_ Hr] | [(_ & _ & Hr) | [(_ & k & k0 & _ & _ & Hr)
                                 | [(_ & k & e' & _ & _ & Hr)
                                 | (_ & k & o' & _ & _ & Hr)]]]];
    cbn zeta in Hr; rewrite Hr; cbn [snd]; try exact Hsync.
  apply saved_in_sync, Hwr.
Qed.

(** What one operation does to the credit counter, to the agreement between
    cache and file, and to the entries. *)
Lemma step_shape cfg env op w :
  (credits w <= credits (step cfg env op w) <= credits w + 1)
  ∧ ((∀ h, writable env h = true) -> in_sync w ->
     in_sync (step cfg env op w))
  ∧ (entries (cache (step cfg env op w)) = entries (cache w)
     ∨ ∃ doi,
         op = ProcessDoi doi
         ∧ ((entries (cache w) !! doi = None
             ∧ ∃ md t ocl,
                 entries (cache (step cfg env op w))
                 = <[doi := {| doi := doi; metadata := md;
                               classification := ocl; processedAt := t |}]>
                     (entries (cache w))
                 ∧ ∀ cl, ocl = Some cl ->
                         truthy (title md) = true ∧ truthy (pdfUrl md) = true
                         ∧ credits (step cfg env op w) = credits w + 1)
            ∨ (∃ e cl,
                  entries (cache w) !! doi = Some e ∧ classification e = None
                  ∧ truthy (title (metadata e)) = true
                  ∧ truthy (pdfUrl (metadata e)) = true
                  ∧ entries (cache (step cfg env op w))
                    = <[doi := with_classification cl e]> (entries (cache w))
                  ∧ credits (step cfg env op w) = credits w + 1))).
Proof.
  destruct op as [doi | title pdfUrl | |]; cbn [step].
  - destruct (processDoi_shape cfg env doi w) as (Hc & _ & Hs & Hcases).
    split; [exact Hc|]. split; [exact Hs|].
    destruct Hcases as [Hsame | [(Hnone & md & t & ocl & Hadd & Hpaid)
                                | (e & cl & He & Hcl & Ht & Hp & Hadd
                                   & Hplus & _)]].
    + left. exact Hsame.
    + right. exists doi. split; [reflexivity|]. left.
      split; [exact Hnone|]. exists md, t, ocl. split; [exact Hadd|].
      intros cl Hocl. destruct (Hpaid cl Hocl) as (? & ? & ? & _). auto.
    + right. exists doi. split; [reflexivity|]. right.
      exists e, cl. auto 10.
  - destruct (classifyPaper cfg env title pdfUrl w) as [o w'] eqn:Hrun.
    destruct (classifyPaper_account _ _ _ _ _ _ _ Hrun)
      as (Hc & _ & _ & _ & He).
    cbn [snd]. split; [lia|]. split; [|left; exact He].
    intros Hwr Hsync.
    pose proof (classifyPaper_in_sync cfg env title pdfUrl w Hwr Hsync) as H.
    rewrite Hrun in H. exact H.
  - rewrite saveCache_run. cbn [snd].
    rewrite (proj2 (saved_cache _ _ _)), (proj1 (saved_cache _ _ _)).
    split; [lia|]. split; [|left; reflexivity].
    intros Hwr _. apply saved_in_sync, Hwr.
  - unfold getCacheStats. unfold_monad. cbn [snd].
    split; [lia|]. split; [auto | left; reflexivity].
Qed.

Lemma run_ops_cons cfg env op ops w :
  run_ops cfg env (op :: ops) w = run_ops cfg env ops (step cfg env op w).
Proof. reflexivity. Qed.

Lemma entry_kept_refl e : entry_kept e e.
Proof. repeat split; auto. Qed.

Lemma entry_kept_trans e1 e2 e3 :
  entry_kept e1 e2 -> entry_kept e2 e3 -> entry_kept e1 e3.
Proof.
  intros (Hd & Hm & Hp & Hc) (Hd' & Hm' & Hp' & Hc').
  repeat split; try congruence. auto.
Qed.

Lemma step_entry_kept cfg env op w k e :
  entries (cache w) !! k = Some e ->
  ∃ e', entries (cache (step cfg env op w)) !! k = Some e'
        ∧ entry_kept e e'.
Proof.
  intros Hk.
  destruct (step_shape cfg env op w)
    as (_ & _ & [Hsame | (doi & _ & [(Hnone & md & t & ocl & Hadd & _)
                                    | (e0 & cl & He0 & Hcl & _ & _ & Hadd
                                       & _)])]).
  - rewrite Hsame. eauto using entry_kept_refl.
  - rewrite Hadd. exists e. split; [|apply entry_kept_refl].
    rewrite lookup_insert_ne; [exact Hk | congruence].
  - rewrite Hadd. destruct (decide (k = doi)) as [->|Hne].
    + rewrite lookup_insert_eq. eexists. split; [reflexivity|].
      rewrite He0 in Hk. injection Hk as ->.
      repeat split. intros cl'. rewrite Hcl. discriminate.
    + rewrite lookup_insert_ne by congruence.
      eauto using entry_kept_refl.
Qed.

(** X20. Whatever the pipeline does afterwards, an entry of the cache stays
    under its key with the same DOI, the same metadata and the same
    processing time, and a classification it carries is never replaced:
    entries are never dropped, never fetched again and never classified
    twice. *)
Theorem entries_are_kept cfg env ops w k e :
  entries (cache w) !! k = Some e ->
  ∃ e', entries (cache (run_ops cfg env ops w)) !! k = Some e'
        ∧ entry_kept e e'.
Proof.
  revert w e. induction ops as [|op ops IH]; intros w e Hk.
  - exists e. split; [exact Hk | apply entry_kept_refl].
  - rewrite run_ops_cons.
    destruct (step_entry_kept cfg env op w k e Hk) as (e1 & Hk1 & Hkept1).
    destruct (IH _ _ Hk1) as (e2 & Hk2 & Hkept2).
    eauto using entry_kept_trans.
Qed.

Lemma entries_are_kept_witness :
  let env := Scenario.scripted [Scenario.ok_json Scenario.normal_science] in
  let md := Scenario.sample_metadata
              (Some (JStr "https://example.org/paper.pdf")) in
  ∃ e', entries
          (cache (run_ops Scenario.cfg env
                    [ProcessDoi "10.1000/xyz"; SaveCache;
                     ProcessDoi "10.1000/abc"]
                    (Scenario.cached "10.1000/xyz" md None)))
        !! "10.1000/xyz" = Some e'
        ∧ metadata e' = md.
Proof.
  cbn zeta.
  destruct (entries_are_kept Scenario.cfg
              (Scenario.scripted [Scenario.ok_json Scenario.normal_science])
              [ProcessDoi "10.1000/xyz"; SaveCache; ProcessDoi "10.1000/abc"]
              (Scenario.cached "10.1000/xyz"
                 (Scenario.sample_metadata
                    (Some (JStr "https://example.org/paper.pdf"))) None)
              "10.1000/xyz"
              {| doi := "10.1000/xyz";
                 metadata := Scenario.sample_metadata
                               (Some (JStr "https://example.org/paper.pdf"));
                 classification := None;
                 processedAt := "2024-05-01T00:00:00.000Z" |})
    as (e' & He' & _ & Hmd & _).
  - reflexivity.
  - exists e'. split; [exact He' | exact Hmd].
Defined.

Lemma step_keyed_by_doi cfg env op w :
  keyed_by_doi (cache w) -> keyed_by_doi (cache (step cfg env op w)).
Proof.
  intros Hinv k e Hk.
  destruct (step_shape cfg env op w)
    as (_ & _ & [Hsame | (doi & _ & [(Hnone & md & t & ocl & Hadd & _)
                                    | (e0 & cl & He0 & _ & _ & _ & Hadd
                                       & _)])]).
  - rewrite Hsame in Hk. eauto.
  - rewrite Hadd in Hk. destruct (decide (k = doi)) as [->|Hne].
    + rewrite lookup_insert_eq in Hk. injection Hk as <-. reflexivity.
    + rewrite lookup_insert_ne in Hk by congruence. eauto.
  - rewrite Hadd in Hk. destruct (decide (k = doi)) as [->|Hne].
    + rewrite lookup_insert_eq in Hk. injection Hk as <-.
      exact (Hinv _ _ He0).
    + rewrite lookup_insert_ne in Hk by congruence. eauto.
Qed.

(** X21. The pipeline keeps every entry under the DOI recorded inside it:
    if each entry's [doi] field equals its key, this is still so after any
    sequence of operations. *)
Theorem entries_keyed_by_doi cfg env ops w :
  keyed_by_doi (cache w) -> keyed_by_doi (cache (run_ops cfg env ops w)).
Proof.
  revert w. induction ops as [|op ops IH]; intros w Hinv; [exact Hinv|].
  rewrite run_ops_cons. apply IH, step_keyed_by_doi, Hinv.
Qed.

Lemma entries_keyed_by_doi_witness :
  keyed_by_doi
    (cache (run_ops Scenario.cfg
              (Scenario.scripted [Scenario.ok_json Scenario.work_with_pdf;
                                  Scenario.ok_json Scenario.normal_science])
              [ProcessDoi "10.1000/XYZ"; GetCacheStats] Scenario.fresh)).
Proof.
  apply entries_keyed_by_doi. intros k e Hk.
  vm_compute in Hk. discriminate.
Defined.

(** X22. Classified entries always have a title and a PDF URL: the
    property survives every sequence of operations, from any cache that
    has it. *)
Theorem classified_entries_have_pdf cfg env ops w :
  classified_with_pdf (cache w) ->
  classified_with_pdf (cache (run_ops cfg env ops w)).
Proof.
  revert w. induction ops as [|op ops IH]; intros w Hinv; [exact Hinv|].
  rewrite run_ops_cons. apply IH, step_classified_with_pdf, Hinv.
Qed.

Lemma classified_entries_have_pdf_witness :
  classified_with_pdf
    (cache (run_ops Scenario.cfg
              (Scenario.scripted [Scenario.ok_json Scenario.normal_science])
              [ProcessDoi "10.1000/xyz"]
              (Scenario.cached "10.1000/xyz"
                 (Scenario.sample_metadata
                    (Some (JStr "https://example.org/paper.pdf"))) None))).
Proof.
  apply classified_entries_have_pdf. intros k e Hk Hcl.
  destruct (decide (k = "10.1000/xyz")) as [->|Hne].
  - vm_compute in Hk. injection Hk as <-. destruct Hcl as [cl Hcl].
    discriminate.
  - unfold Scenario.cached, empty_cache in Hk. cbn in Hk.
    rewrite lookup_insert_ne, lookup_empty in Hk by congruence.
    discriminate.
Defined.

Lemma step_without_proto cfg env op w :
  entries (cache w) !! "__proto__" = None ->
  op ≠ ProcessDoi "__proto__" ->
  entries (cache (step cfg env op w)) !! "__proto__" = None.
Proof.
  intros Hnone Hop.
  destruct (step_shape cfg env op w)
    as (_ & _ & [Hsame | (doi & -> & [(_ & md & t & ocl & Hadd & _)
                                     | (e0 & cl & _ & _ & _ & _ & Hadd
                                        & _)])]).
  - rewrite Hsame. exact Hnone.
  - rewrite Hadd, lookup_insert_ne by congruence. exact Hnone.
  - rewrite Hadd, lookup_insert_ne by congruence. exact Hnone.
Qed.

Lemma run_ops_without_proto cfg env ops w :
  entries (cache w) !! "__proto__" = None ->
  ProcessDoi "__proto__" ∉ ops ->
  entries (cache (run_ops cfg env ops w)) !! "__proto__" = None.
Proof.
  revert w. induction ops as [|op ops IH]; intros w Hnone Hops;
    [exact Hnone|].
  rewrite run_ops_cons. apply IH.
  - apply step_without_proto; [exact Hnone|].
    intros ->. apply Hops. left.
  - intros Hin. apply Hops. right. exact Hin.
Qed.

Lemma run_ops_in_sync cfg env ops w :
  (∀ h, writable env h = true) ->
  in_sync w -> in_sync (run_ops cfg env ops w).
Proof.
  intros Hwr. revert w.
  induction ops as [|op ops IH]; intros w Hsync; [exact Hsync|].
  rewrite run_ops_cons. apply IH.
  destruct (step_shape cfg env op w) as (_ & Hs & _). auto.
Qed.



Lemma size_insert_le (m : gmap string CacheEntry) k e :
  (size (<[k := e]> m) ≤ S (size m))%nat.
Proof. rewrite map_size_insert. destruct (m !! k); cbn; lia. Qed.

Lemma step_classified_paid cfg env op w :
  Z.of_nat (size (classified (cache w))) <= credits w ->
  Z.of_nat (size (classified (cache (step cfg env op w))))
  <= credits (step cfg env op w).
Proof.
  intros Hinv. unfold classified in *.
  destruct (step_shape cfg env op w)
    as (Hc & _ & [Hsame | (doi & _ & [(Hnone & md & t & ocl & Hadd & Hpaid)
                                     | (e0 & cl & He0 & Hcl & _ & _ & Hadd
                                        & Hplus)])]).
  - rewrite Hsame. lia.
  - rewrite Hadd. destruct ocl as [cl|].
    + destruct (Hpaid cl eq_refl) as (_ & _ & Hplus).
      rewrite map_filter_insert_True by (cbn; eauto).
      pose proof (size_insert_le
                    (filter (fun kv => is_Some (classification kv.2))
                            (entries (cache w)))
                    doi
                    {| doi := doi; metadata := md;
                       classification := Some cl; processedAt := t |}).
      lia.
    + rewrite map_filter_insert_not'.
      * lia.
      * cbn. intros [? [=]].
      * intros y Hy. congruence.
  - rewrite Hadd. rewrite map_filter_insert_True by (cbn; eauto).
    pose proof (size_insert_le
                  (filter (fun kv => is_Some (classification kv.2))
                          (entries (cache w)))
                  doi (with_classification cl e0)).
    lia.
Qed.

(** X24. Every stored classification has been paid for: if the number of
    classified entries is at most [creditsUsed], it stays so after any
    sequence of operations. *)
Theorem classifications_are_paid cfg env ops w :
  Z.of_nat (size (classified (cache w))) <= credits w ->
  Z.of_nat (size (classified (cache (run_ops cfg env ops w))))
  <= credits (run_ops cfg env ops w).
Proof.
  revert w. induction ops as [|op ops IH]; intros w Hinv; [exact Hinv|].
  rewrite run_ops_cons. apply IH, step_classified_paid, Hinv.
Qed.

Lemma classifications_are_paid_witness :
  let env := Scenario.scripted [Scenario.ok_json Scenario.work_with_pdf;
                                Scenario.ok_json Scenario.normal_science] in
  let w' := run_ops Scenario.cfg env
              [ProcessDoi "10.1000/xyz"; ProcessDoi "10.1000/xyz"]
              Scenario.fresh in
  Z.of_nat (size (classified (cache w'))) <= credits w'.
Proof.
  cbn zeta. apply classifications_are_paid. vm_compute. discriminate.
Defined.

(** ** Statistics *)

Lemma step_size cfg env op w :
  (size (own_entries (cache w)) ≤ size (own_entries (cache (step cfg env op w)))
   ≤ size (own_entries (cache w)) + (if is_processDoi op then 1 else 0))%nat.
Proof.
  unfold own_entries.
  destruct (step_shape cfg env op w)
    as (_ & _ & [Hsame | (doi & -> & [(Hnone & md & t & ocl & Hadd & _)
                                     | (e0 & cl & He0 & _ & _ & _ & Hadd
                                        & _)])]).
  - rewrite Hsame. lia.
  - rewrite Hadd. cbn [is_processDoi].
    destruct (decide (doi = "__proto__")) as [->|Hne].
    + rewrite delete_insert_eq. lia.
    + rewrite delete_insert_ne by congruence.
      rewrite map_size_insert_None
        by (rewrite lookup_delete_ne by congruence; exact Hnone).
      lia.
  - rewrite Hadd. cbn [is_processDoi].
    destruct (decide (doi = "__proto__")) as [->|Hne].
    + rewrite delete_insert_eq. lia.
    + rewrite delete_insert_ne by congruence.
      rewrite map_size_insert_Some
        by (rewrite lookup_delete_ne by congruence; rewrite He0; eauto).
      lia.
Qed.



(** ** Restart *)

(** X26. What a settled cache answers survives a restart, for every DOI
    other than [__proto__]: if the stored document is the one
    [JSON.stringify] makes of a cache that is settled for the DOI, a
    process that starts from that document, loads it and asks for the DOI
    gets the same answer, without any network call and without writing. *)
Theorem restart_keeps_answers cfg env readable doi w w0 :
  in_sync w ->
  settled (cache w) doi ->
  doi ≠ "__proto__" ->
  file w0 = file w ->
  readable (history w0) = true ->
  ∃ w1, loadCache cfg env readable w0 = (Returned tt, w1)
        ∧ cache w1 = with_entries (delete "__proto__") (cache w)
        ∧ history w1 = history w0
        ∧ file w1 = file w0
        ∧ processDoi cfg env doi w1
          = (Returned (cached_answer (cache w) doi), w1).
Proof.
  unfold in_sync. intros Hsync (e & He & Hsettled) Hdoi Hfile Hread.
  exists (with_cache (fun _ => with_entries (delete "__proto__") (cache w)) w0).
  split.
  { unfold loadCache, readFile.
    rewrite Hfile, Hsync, Hread, cache_of_to_json. reflexivity. }
  split; [reflexivity|]. split; [reflexivity|]. split; [reflexivity|].
  assert (entries (cache (with_cache
                            (fun _ => with_entries (delete "__proto__")
                                        (cache w)) w0)) !! doi
          = Some e) as He'
    by (cbn; rewrite lookup_delete_ne by congruence; exact He).
  rewrite settled_run by (exists e; split; [exact He' | exact Hsettled]).
  unfold cached_answer. rewrite He', He. reflexivity.
Qed.

Lemma restart_keeps_answers_witness :
  let env := Scenario.scripted [Scenario.ok_json Scenario.work_with_pdf;
                                Scenario.ok_json Scenario.normal_science] in
  let w := (processDoi Scenario.cfg env "10.1000/xyz" Scenario.fresh).2 in
  let w0 := {| cache := empty_cache "2024-06-01T00:00:00.000Z";
               file := file w; history := [] |} in
  ∃ w1, loadCache Scenario.cfg env (fun _ => true) w0 = (Returned tt, w1)
        ∧ processDoi Scenario.cfg env "10.1000/xyz" w1
          = (Returned (Some (OwnString "normal-science")), w1)
        ∧ history w1 = [].
Proof.
  cbn zeta.
  pose (env := Scenario.scripted [Scenario.ok_json Scenario.work_with_pdf;
                                  Scenario.ok_json Scenario.normal_science]).
  pose (w := (processDoi Scenario.cfg env "10.1000/xyz" Scenario.fresh).2).
  destruct (restart_keeps_answers Scenario.cfg env (fun _ => true)
              "10.1000/xyz" w
              {| cache := empty_cache "2024-06-01T00:00:00.000Z";
                 file := file w; history := [] |})
    as (w1 & Hload & _ & Hhist & _ & Hrun).
  - reflexivity.
  - eexists. split; [reflexivity|]. left. eexists. reflexivity.
  - discriminate.
  - reflexivity.
  - reflexivity.
  - exists w1. split; [exact Hload|]. split; [exact Hrun | exact Hhist].
Defined.
